(** * Spreadsheet-to-catalog converter: a shallow embedding of the
      transformation service ([processor.ts]) and its specification.

    Modelling conventions.
    - Text is a Rocq [string].  The embedding is exact on ASCII text.  A
      character beyond ASCII is carried as its UTF-8 bytes and left as it
      is: the blanks beyond ASCII that [\s] and [trim] take (U+00A0 and
      the like) and the letters beyond ASCII that [toLowerCase] changes
      are outside the embedding.
    - A JavaScript number is an IEEE-754 binary64 value, [spec_float] with
      precision 53 and maximal exponent 1024, rounded to nearest-even.
    - A JavaScript object used as a dictionary ([Record<string, ...>]) is a
      [gmap string _]; a missing key reads as [undefined].  The one key a
      header row can bring that does not behave so, ["__proto__"], is
      modelled with the records ([setCell]).
    - [Papa.parse], [Papa.unparse] and [JSZip] are libraries outside the
      repository; only their interface with the service is modelled. *)

From Stdlib Require Import ZArith List Ascii String Bool Lia.
From Stdlib Require Import Floats.SpecFloat.
From stdpp Require Import base decidable option list gmap strings pretty.

Local Open Scope string_scope.
Local Open Scope list_scope.
Local Open Scope nat_scope.

(* ===================================================================== *)
(** ** Text: the part of the JavaScript string API the service uses      *)
(* ===================================================================== *)

Module Text.

Definition chars (s : string) : list ascii := list_ascii_of_string s.
Definition text (l : list ascii) : string := string_of_list_ascii l.

Definition code (c : ascii) : nat := nat_of_ascii c.

(** [\s] on ASCII: TAB, LF, VT, FF, CR and SPACE. *)
Definition isSpace (c : ascii) : bool :=
  let n := code c in ((9 <=? n) && (n <=? 13)) || (n =? 32).

(** [\d], that is [[0-9]]. *)
Definition isDigit (c : ascii) : bool :=
  let n := code c in (48 <=? n) && (n <=? 57).

(** [[a-z]] and [[A-Z]]. *)
Definition isLower (c : ascii) : bool :=
  let n := code c in (97 <=? n) && (n <=? 122).
Definition isUpper (c : ascii) : bool :=
  let n := code c in (65 <=? n) && (n <=? 90).

Definition isChar (c d : ascii) : bool := Ascii.eqb c d.

Fixpoint dropWhile {A} (p : A -> bool) (l : list A) : list A :=
  match l with
  | [] => []
  | x :: r => if p x then dropWhile p r else l
  end.

Fixpoint takeWhile {A} (p : A -> bool) (l : list A) : list A :=
  match l with
  | [] => []
  | x :: r => if p x then x :: takeWhile p r else []
  end.

Definition trimStartChars (l : list ascii) : list ascii := dropWhile isSpace l.
Definition trimEndChars (l : list ascii) : list ascii :=
  rev (dropWhile isSpace (rev l)).

(** [s.trim()], on ASCII text: the blanks beyond ASCII that JavaScript
    also trims (U+00A0, U+2028, U+FEFF, ...) are kept *)
Definition trim (s : string) : string :=
  text (trimEndChars (trimStartChars (chars s))).

Definition lowerChar (c : ascii) : ascii :=
  if isUpper c then ascii_of_nat (code c + 32) else c.

(** [s.toLowerCase()], on ASCII text: letters beyond ASCII are kept as
    they are *)
Definition toLowerCase (s : string) : string :=
  text (map lowerChar (chars s)).

(** truthiness of a string: [""] is the only falsy one *)
Definition nonEmpty (s : string) : bool := negb (String.eqb s "").

Fixpoint isPrefixChars (p l : list ascii) : bool :=
  match p, l with
  | [], _ => true
  | _ :: _, [] => false
  | a :: p', b :: l' => Ascii.eqb a b && isPrefixChars p' l'
  end.

Fixpoint includesChars (l needle : list ascii) : bool :=
  isPrefixChars needle l ||
  match l with
  | [] => false
  | _ :: r => includesChars r needle
  end.

(** [s.includes(needle)] *)
Definition includes (s needle : string) : bool :=
  includesChars (chars s) (chars needle).

(** [parts.join(sep)] *)
Fixpoint join (sep : string) (parts : list string) : string :=
  match parts with
  | [] => ""
  | [x] => x
  | x :: r => x +:+ sep +:+ join sep r
  end.

(** [s.replace(/[...]/g, "")] for a one-character class: delete the
    characters of the class. *)
Definition deleteAll (cls : ascii -> bool) (s : string) : string :=
  text (List.filter (fun c => negb (cls c)) (chars s)).

(** [s.replace(/[...]+/g, by)]: every maximal run of characters of the
    class becomes one copy of [by]. *)
Fixpoint squeezeChars (cls : ascii -> bool) (by_ : list ascii)
         (inRun : bool) (l : list ascii) : list ascii :=
  match l with
  | [] => []
  | c :: r =>
      if cls c
      then (if inRun then [] else by_) ++ squeezeChars cls by_ true r
      else c :: squeezeChars cls by_ false r
  end.

Definition squeeze (cls : ascii -> bool) (by_ : string) (s : string) : string :=
  text (squeezeChars cls (chars by_) false (chars s)).

(** [s.replace(/\s*D\s*/g, "-")] for a dash character [D]: a dash loses
    the blanks on both sides of it.  Blanks not followed by the dash are
    kept.  On a run of blanks the pattern can only match from the first
    blank of the run, so [pending] buffers the run until its successor is
    known. *)
Fixpoint tightenChars (dash : list ascii) (fuel : nat) (pending l : list ascii)
  : list ascii :=
  match fuel with
  | O => pending ++ l
  | S fuel' =>
      if isPrefixChars dash l && negb (length dash =? 0)
      then "-"%char :: tightenChars dash fuel' []
                                    (dropWhile isSpace (skipn (length dash) l))
      else match l with
           | [] => pending
           | c :: r =>
               if isSpace c
               then tightenChars dash fuel' (pending ++ [c]) r
               else pending ++ c :: tightenChars dash fuel' [] r
           end
  end.

Definition tighten (dash : string) (s : string) : string :=
  text (tightenChars (chars dash) (S (String.length s)) [] (chars s)).

(** [/^\d+$/.test(s)] *)
Definition allDigits (s : string) : bool :=
  nonEmpty s && forallb isDigit (chars s).

End Text.

(* ===================================================================== *)
(** ** Numbers: binary64 arithmetic, [parseFloat] and [String(number)]   *)
(* ===================================================================== *)

Module Num.
Import Text.
Local Open Scope Z_scope.

Definition prec : Z := 53.
Definition emax : Z := 1024.

Abbreviation number := spec_float.

Definition NaN : number := S754_nan.
Definition zero : number := S754_zero false.

(** the double nearest to an integer *)
Definition ofZ (z : Z) : number := binary_normalize prec emax z 0 false.

(** the double nearest to [p / q], for positive [p] and [q] *)
Definition ofRatio (neg : bool) (p q : Z) : number :=
  let '(m, e, l) := SFdiv_core_binary prec emax p 0 q 0 in
  binary_round_aux prec emax neg m e l.

Definition add : number -> number -> number := SFadd prec emax.
Definition sub : number -> number -> number := SFsub prec emax.
Definition mul : number -> number -> number := SFmul prec emax.
Definition div : number -> number -> number := SFdiv prec emax.
Definition eqb : number -> number -> bool := SFeqb.
Definition leb : number -> number -> bool := SFleb.

Definition isNaN (x : number) : bool :=
  match x with S754_nan => true | _ => false end.

(** [Math.floor] *)
Definition floor (x : number) : number :=
  match x with
  | S754_finite s m e =>
      if 0 <=? e then x
      else
        let q := Z.shiftr (Zpos m) (- e) in
        let exact := Z.shiftl q (- e) =? Zpos m in
        if s then ofZ (- (if exact then q else q + 1)) else ofZ q
  | _ => x
  end.

(** [Number.isInteger] *)
Definition isInteger (x : number) : bool :=
  match x with
  | S754_zero _ => true
  | S754_finite _ _ _ => eqb (floor x) x
  | _ => false
  end.

(** [Math.max] of two arguments *)
Definition max (a b : number) : number :=
  if isNaN a || isNaN b then NaN
  else match SFcompare a b with
       | Some Lt => b
       | Some Gt => a
       | _ => match a, b with
              | S754_zero true, S754_zero false => b
              | _, _ => a
              end
       end.

(** *** [parseFloat] *)

Definition digitVal (c : ascii) : Z := Z.of_nat (code c) - 48.

Definition digitsVal (ds : list ascii) : Z :=
  fold_left (fun acc c => 10 * acc + digitVal c) ds 0.

(** the double nearest to [m * 10^d], for [0 <= m] *)
Definition ofDecimal (neg : bool) (m d : Z) : number :=
  if m =? 0 then S754_zero neg
  else if 0 <=? d then binary_normalize prec emax ((if neg then - m else m) * 10 ^ d) 0 neg
  else ofRatio neg m (10 ^ (- d)).

(** the exponent part [e[+-]ddd] of a literal; it is read only when it
    is complete, otherwise the literal ends before the [e] *)
Definition exponentPart (l : list ascii) : Z :=
  match l with
  | c :: r =>
      if isChar c "e" || isChar c "E" then
        let '(sg, r') :=
          match r with
          | s :: r' => if isChar s "-" then (-1, r')
                       else if isChar s "+" then (1, r') else (1, r)
          | [] => (1, r)
          end in
        let ed := takeWhile isDigit r' in
        match ed with [] => 0 | _ => sg * digitsVal ed end
      else 0
  | [] => 0
  end.

(** [parseFloat(s)]: leading blanks are skipped and the longest prefix
    that is a decimal literal is converted; [NaN] when there is none. *)
Definition parseFloat (s : string) : number :=
  let l := trimStartChars (chars s) in
  let '(neg, l1) :=
    match l with
    | c :: r => if isChar c "-" then (true, r)
                else if isChar c "+" then (false, r) else (false, l)
    | [] => (false, l)
    end in
  if isPrefixChars (chars "Infinity") l1 then S754_infinity neg
  else
    let ip := takeWhile isDigit l1 in
    let r1 := dropWhile isDigit l1 in
    let '(fp, r2) :=
      match r1 with
      | c :: r => if isChar c "." then (takeWhile isDigit r, dropWhile isDigit r)
                  else ([], r1)
      | [] => ([], r1)
      end in
    match ip, fp with
    | [], [] => NaN
    | _, _ => ofDecimal neg (digitsVal (ip ++ fp))
                (exponentPart r2 - Z.of_nat (length fp))
    end.

(** *** [String(x)] for a number [x] (Number::toString, radix 10) *)

Definition decimal (z : Z) : string := pretty (Z.to_N z).
Definition decLen (z : Z) : Z := Z.of_nat (String.length (decimal z)).

Fixpoint zeros (n : nat) : string :=
  match n with O => "" | S n' => String "0" (zeros n') end.

Fixpoint stripZeros (fuel : nat) (s : Z) : Z :=
  match fuel with
  | O => s
  | S fuel' => if (s mod 10 =? 0) && negb (s =? 0)
               then stripZeros fuel' (s / 10) else s
  end.

Section Shortest.
(** the positive value [P / Q] being printed, and the double [x] it is *)
Variables (x : number) (P Q : Z).

(** [n0] with [10^(n0-1) <= P/Q < 10^n0] *)
Definition magnitude : Z :=
  if Q <=? P then decLen (P / Q) else 1 - decLen (Q / P).

(** does the decimal [s * 10^(n0-k)] read back as [x]? *)
Definition readsBack (k s : Z) : bool :=
  let d := magnitude - k in
  eqb x (if 0 <=? d then ofRatio false (s * 10 ^ d) 1
         else ofRatio false s (10 ^ (- d))).

(** the [k]-digit candidate nearest to [P/Q], if one reads back *)
Definition candidate (k : Z) : option Z :=
  let d := magnitude - k in
  let un := if 0 <=? d then 10 ^ d else 1 in
  let ud := if 0 <=? d then 1 else 10 ^ (- d) in
  let lo := (P * ud) / (Q * un) in
  let hi := lo + 1 in
  match readsBack k lo, readsBack k hi with
  | true, false => Some lo
  | false, true => Some hi
  | false, false => None
  | true, true =>
      match 2 * P * ud ?= (lo + hi) * un * Q with
      | Lt => Some lo
      | Gt => Some hi
      | Eq => Some (if Z.even lo then lo else hi)
      end
  end.

(** the shortest digit string: the least [k] with a candidate *)
Fixpoint shortest (fuel : nat) (k : Z) : Z * Z :=
  match candidate k, fuel with
  | Some s, _ => (k, s)
  | None, O => (k, (P * (if 0 <=? magnitude - k then 1 else 10 ^ (k - magnitude)))
                      / (Q * (if 0 <=? magnitude - k then 10 ^ (magnitude - k) else 1)))
  | None, S fuel' => shortest fuel' (k + 1)
  end.

Definition render : string :=
  let '(k0, s0) := shortest 16 1 in
  let s := stripZeros (Z.to_nat k0) s0 in
  let k := decLen s in
  let n := magnitude - k0 + k + (decLen s0 - k) in
  let ds := decimal s in
  if (k <=? n) && (n <=? 21) then ds +:+ zeros (Z.to_nat (n - k))
  else if (0 <? n) && (n <=? 21)
  then substring 0 (Z.to_nat n) ds +:+ "." +:+
       substring (Z.to_nat n) (Z.to_nat (k - n)) ds
  else if (-6 <? n) && (n <=? 0)
  then "0." +:+ zeros (Z.to_nat (- n)) +:+ ds
  else
    let e := n - 1 in
    let es := (if e <? 0 then "e-" else "e+") +:+ decimal (Z.abs e) in
    if k =? 1 then ds +:+ es
    else substring 0 1 ds +:+ "." +:+
         substring 1 (Z.to_nat (k - 1)) ds +:+ es.
End Shortest.

Definition toStringPos (m : positive) (e : Z) : string :=
  let x := S754_finite false m e in
  if 0 <=? e then render x (Zpos m * 2 ^ e) 1
  else render x (Zpos m) (2 ^ (- e)).

Definition toString (x : number) : string :=
  match x with
  | S754_nan => "NaN"
  | S754_zero _ => "0"
  | S754_infinity s => if s then "-Infinity" else "Infinity"
  | S754_finite s m e => (if s then "-" else "") +:+ toStringPos m e
  end.

End Num.

(* ===================================================================== *)
(** ** The transformation service                                        *)
(* ===================================================================== *)

Import Text.

(** [tags.includes(t)], [images.includes(url)], ... *)
Definition inb (x : string) (l : list string) : bool :=
  existsb (String.eqb x) l.

(** [if (!l.includes(x)) l.push(x)] *)
Definition pushNew (x : string) (l : list string) : list string :=
  if inb x l then l else l ++ [x].

(** [Array.from(new Set(l))]: first occurrences, in order *)
Definition dedupe (l : list string) : list string :=
  fold_left (fun acc x => pushNew x acc) l [].

(** the first [Some] among [f x], for [x] in [l], in order; the shape of a
    [for] loop whose body returns *)
Fixpoint firstSome {A B} (f : A -> option B) (l : list A) : option B :=
  match l with
  | [] => None
  | x :: r => match f x with Some y => Some y | None => firstSome f r end
  end.

(** *** Constants *)

Definition TEMPLATE_COLS : list string := [
  "Title"; "URL handle"; "Description"; "Vendor"; "Product category"; "Type"; "Tags";
  "Published on online store"; "Status"; "SKU"; "Barcode";
  "Option1 name"; "Option1 value"; "Option2 name"; "Option2 value"; "Option3 name"; "Option3 value";
  "Price"; "Compare-at price"; "Cost per item"; "Charge tax"; "Tax code";
  "Unit price total measure"; "Unit price total measure unit"; "Unit price base measure"; "Unit price base measure unit";
  "Inventory tracker"; "Variant Inventory Policy"; "Inventory policy";
  "Continue selling when out of stock"; "Inventory quantity";
  "Weight value (grams)"; "Weight unit for display"; "Requires shipping"; "Fulfillment service";
  "Product image URL"; "Image position"; "Image alt text"; "Variant image URL"; "Gift card";
  "SEO title"; "SEO description";
  "Google Shopping / Google product category"; "Google Shopping / Gender"; "Google Shopping / Age group";
  "Google Shopping / MPN"; "Google Shopping / AdWords Grouping"; "Google Shopping / AdWords labels";
  "Google Shopping / Condition"; "Google Shopping / Custom product";
  "Google Shopping / Custom label 0"; "Google Shopping / Custom label 1";
  "Google Shopping / Custom label 2"; "Google Shopping / Custom label 3"; "Google Shopping / Custom label 4";
  "Fabric"; "Wash Care"; "Material"; "Shelf"; "Test";
  "Variant Image"; "Variant Weight Unit"; "Variant Tax Code"; "Shelf No"; "Sizes"
].

(** *** Helper functions *)

(** [t.replace(/^-|-$/g, "")]: one leading and one trailing dash go *)
Definition stripEdgeDashes (t : string) : string :=
  let l := chars t in
  let l1 := match l with
            | c :: r => if isChar c "-" then r else l
            | [] => l
            end in
  text (match rev l1 with
        | c :: r => if isChar c "-" then rev r else l1
        | [] => l1
        end).

Definition slugify (text : string) : string :=
  let t := toLowerCase (trim text) in
  let t := deleteAll (fun c => negb (isLower c || isDigit c || isSpace c || isChar c "-")) t in
  let t := squeeze isSpace "-" t in
  let t := squeeze (fun c => isChar c "-") "-" t in
  stripEdgeDashes t.

Definition rowHasTitle (row : list string) : bool :=
  existsb (fun x => let v := toLowerCase (trim x) in
                    String.eqb v "title" || includes v "title") row.

(** the first index [i < min maxRows (length data)] whose row has a title
    cell, else [0]; [i] counts the rows already passed *)
Fixpoint detectHeaderRowFrom (i : nat) (maxRows : nat) (data : list (list string)) : nat :=
  match maxRows, data with
  | S maxRows', row :: rest =>
      if rowHasTitle row then i else detectHeaderRowFrom (S i) maxRows' rest
  | _, _ => 0
  end.

Definition detectHeaderRow (data : list (list string)) : nat :=
  detectHeaderRowFrom 0 8 data.

(** [/[0-9.-]/.test(char)] *)
Definition isPriceChar (c : ascii) : bool :=
  isDigit c || isChar c "." || isChar c "-".

(** [cleanPrice(x)]; [None] stands for [null] and [undefined].
    ([parseFloat] does not throw, so the [catch] branch is dead.) *)
Definition cleanPrice (x : option string) : string :=
  match x with
  | None => ""
  | Some x =>
      let s := trim x in
      if String.eqb s "" then ""
      else
        let s2 := text (List.filter isPriceChar (chars s)) in
        if String.eqb s2 "" then ""
        else
          let f := Num.parseFloat s2 in
          if Num.isInteger f then Num.toString f else s2
  end.

Definition roundToNearest9 (priceStr : string) : string :=
  if negb (nonEmpty priceStr) || String.eqb (trim priceStr) "" then ""
  else
    let priceFloat := Num.parseFloat priceStr in
    if Num.isNaN priceFloat || Num.leb priceFloat Num.zero then priceStr
    else
      let rounded :=
        Num.sub (Num.mul (Num.floor (Num.div (Num.add priceFloat (Num.ofZ 5))
                                             (Num.ofZ 10)))
                         (Num.ofZ 10))
                (Num.ofZ 1) in
      Num.toString (Num.max Num.zero rounded).

(** [s.toLowerCase().replace(/[^a-z0-9]/g, "")] *)
Definition normalize (s : string) : string :=
  deleteAll (fun c => negb (isLower c || isDigit c)) (toLowerCase s).

(** [s.toLowerCase().replace(/\s/g, "")] *)
Definition squash (s : string) : string :=
  deleteAll isSpace (toLowerCase s).

Definition colsNormOf (cols : list string) : gmap string string :=
  fold_left (fun colsNorm c => <[normalize c := c]> colsNorm) cols ∅.

Definition findColByNames (cols names : list string) : option string :=
  let colsNorm := colsNormOf cols in
  match firstSome (fun name =>
                     match colsNorm !! normalize name with
                     | Some c => if nonEmpty c then Some c else None
                     | None => None
                     end) names with
  | Some c => Some c
  | None =>
      firstSome (fun name =>
                   let needle := squash name in
                   firstSome (fun c => if includes (squash c) needle
                                       then Some c else None) cols) names
  end.

Definition detectImageColumns (cols : list string) : list string :=
  List.filter (fun c => let lower := toLowerCase c in
                        includes lower "product image" || includes lower "image"
                        || includes lower "image url") cols.

Definition sizeCandidates : list string := [
  "NB"; "0-2M"; "2-4M"; "4-6M"; "0-3M"; "3-6M"; "6-9M"; "6-12M"; "9-12M"; "12-18M"; "18-24M";
  "1-2Y"; "2-3Y"; "3-4Y"; "4-5Y"; "5-6Y"; "One Size"; "S"; "M"; "L"; "XL"; "XXL"
].

(** [new RegExp("^\\s*" + escaped(sc) + "\\s*$", "i").test(trimmed)]: the
    candidate, in any letter case, between optional blanks *)
Definition isSizeCandidate (sc trimmed : string) : bool :=
  String.eqb (toLowerCase (trim trimmed)) (toLowerCase sc).

(** [/\d+\s*[-]?\s*\d*\s*[my]$/i.test(s)]: read from the end, [m] or [y],
    blanks, then either a digit (the second number, or the first when the
    second is absent) or a dash preceded, across blanks, by a digit *)
Definition endsWithAgeRange (s : string) : bool :=
  match rev (chars s) with
  | u :: r =>
      if isChar (lowerChar u) "m" || isChar (lowerChar u) "y" then
        match dropWhile isSpace r with
        | d :: r' =>
            if isDigit d then true
            else if isChar d "-" then
                   match dropWhile isSpace r' with
                   | d' :: _ => isDigit d'
                   | [] => false
                   end
                 else false
        | [] => false
        end
      else false
  | [] => false
  end.

Definition detectSizeColumns (cols : list string) : list string :=
  let sizeCols :=
    List.filter (fun c => existsb (fun sc => isSizeCandidate sc (trim c)) sizeCandidates)
                cols in
  fold_left (fun sizeCols c =>
               if negb (inb c sizeCols) && endsWithAgeRange (trim c)
               then sizeCols ++ [c] else sizeCols)
            cols sizeCols.

Definition normalizeSizeForMatching (sizeStr : string) : string :=
  if negb (nonEmpty sizeStr) then ""
  else
    let normalized := trim (toLowerCase sizeStr) in
    let normalized := squeeze isSpace " " normalized in
    let normalized := tighten "-" normalized in
    let normalized := tighten "–" normalized in
    let normalized := tighten "—" normalized in
    deleteAll (fun c => isChar c " ") normalized.

Record AgeGroupConfig := { tag : string; patterns : list string }.

Definition boyAgeGroups : list AgeGroupConfig := [
  {| tag := "Boy 0-3m"; patterns := ["nb"; "0-2m"; "2-4m"; "0-3m"; "0-6m"] |};
  {| tag := "Boy 3-6m"; patterns := ["2-4m"; "4-6m"; "3-6m"; "0-6m"] |};
  {| tag := "Boy 6-12m"; patterns := ["6-9m"; "6-12m"; "9-12m"; "0-12m"] |};
  {| tag := "Boy 1-2y"; patterns := ["12-18m"; "15-18m"; "18-24m"; "18m-3y"; "1-2y"; "1-3y"] |};
  {| tag := "Boy 2-3y"; patterns := ["18m-3y"; "1-3y"; "2-3y"; "2-4y"; "2-2.5y"; "2.5-3y"] |};
  {| tag := "Boy 3-4y"; patterns := ["2-4y"; "3-4y"; "3-3.5y"; "3.5-4y"] |};
  {| tag := "Boy 4-5y"; patterns := ["3-4y"; "4-5y"; "5-6y"; "5-7y"; "4-4.5y"; "4.5-5y"] |};
  {| tag := "Boy 5+ y"; patterns := ["5-6y"; "5-7y"; "6-7y"; "7-8y"; "5-5.5y"; "5.5-6y"] |}
].

Definition girlAgeGroups : list AgeGroupConfig := [
  {| tag := "Girl 0-3m"; patterns := ["nb"; "0-2m"; "2-4m"; "0-3m"; "0-6m"] |};
  {| tag := "Girl 3-6m"; patterns := ["2-4m"; "24m"; "4-6m"; "3-6m"; "0-6m"] |};
  {| tag := "Girl 6-12m"; patterns := ["6-9m"; "6-12m"; "9-12m"; "0-12m"] |};
  {| tag := "Girl 1-2y"; patterns := ["12-18m"; "15-18m"; "18-24m"; "18m-3y"; "1-2y"; "1-3y"] |};
  {| tag := "Girl 2-3y"; patterns := ["18m-3y"; "1-3y"; "13y"; "2-3y"; "2-4y"; "2-2.5y"; "2.5-3y"] |};
  {| tag := "Girl 3-4y"; patterns := ["2-4y"; "3-4y"; "3-3.5y"; "3.5-4y"] |};
  {| tag := "Girl 4-5y"; patterns := ["3-4y"; "4-5y"; "5-6y"; "5-7y"] |};
  {| tag := "Girl 5+ y"; patterns := ["5-6y"; "5-7y"; "6-7y"; "7-8y"] |}
].

(** [pattern === variant || (pattern.length >= 3 && variant.includes(pattern))] *)
Definition patternMatches (variant pattern : string) : bool :=
  String.eqb pattern variant
  || ((3 <=? String.length pattern) && includes variant pattern).

(** the loop over [group.patterns] for one variant: at the first matching
    pattern the tag is pushed (if new) and the loop is left *)
Fixpoint scanPatterns (ageGroupTags : list string) (tag : string)
         (variant : string) (patterns : list string) : list string :=
  match patterns with
  | [] => ageGroupTags
  | pattern :: rest =>
      if patternMatches variant pattern then pushNew tag ageGroupTags
      else scanPatterns ageGroupTags tag variant rest
  end.

(** the loop over the normalized variants for one group: empty variants
    are skipped, and the loop is left once the group's tag is in the list *)
Fixpoint scanVariants (ageGroupTags : list string) (group : AgeGroupConfig)
         (normalizedVariants : list string) : list string :=
  match normalizedVariants with
  | [] => ageGroupTags
  | variant :: rest =>
      if negb (nonEmpty variant) then scanVariants ageGroupTags group rest
      else
        let ageGroupTags := scanPatterns ageGroupTags (tag group) variant (patterns group) in
        if inb (tag group) ageGroupTags then ageGroupTags
        else scanVariants ageGroupTags group rest
  end.

Definition ageGroupTagsFor (ageGroups : list AgeGroupConfig) (variants : list string)
  : list string :=
  let normalizedVariants :=
    map normalizeSizeForMatching
        (List.filter (fun v => nonEmpty v && negb (String.eqb v "Default")) variants) in
  fold_left (fun ageGroupTags group => scanVariants ageGroupTags group normalizedVariants)
            ageGroups [].

Definition getBoyAgeGroupTags : list string -> list string := ageGroupTagsFor boyAgeGroups.
Definition getGirlAgeGroupTags : list string -> list string := ageGroupTagsFor girlAgeGroups.

(* ===================================================================== *)
(** ** Main logic                                                        *)
(* ===================================================================== *)

(** A source record: [Record<string, string>]. *)
Abbreviation record := (gmap string string).

(** [String(row[c] || "")] *)
Definition cell (row : record) (c : string) : string := default "" (row !! c).

(** Values stored in an output row: text, a number (the image position)
    or [undefined]. *)
Inductive value :=
| VStr (s : string)
| VNum (n : Z)
| VUndef.

Abbreviation outrow := (gmap string value).

(** [row[c] || orElse] *)
Definition cellOr (row : record) (c : string) (orElse : value) : value :=
  match row !! c with
  | Some s => if nonEmpty s then VStr s else orElse
  | None => orElse
  end.

(** [row[c]] *)
Definition cellValue (row : record) (c : string) : value :=
  match row !! c with Some s => VStr s | None => VUndef end.

(** truthiness of a column name that may be [null] *)
Definition resolved (col : option string) : option string :=
  match col with
  | Some c => if nonEmpty c then Some c else None
  | None => None
  end.

(** [String(v || "").trim()] followed by [v && v.toLowerCase() !== "nan"] *)
Definition usable (v : string) : bool :=
  nonEmpty v && negb (String.eqb (toLowerCase v) "nan").

(** the header row: blank names get a placeholder; [draw i] is the text of
    the [i]-th value [Math.random()] returns, [used] counts the draws *)
Fixpoint headerRowOf (draw : nat -> string) (used : nat) (cells : list string)
  : list string :=
  match cells with
  | [] => []
  | x :: rest =>
      let t := trim x in
      if nonEmpty t then t :: headerRowOf draw used rest
      else ("unnamed_" +:+ draw used) :: headerRowOf draw (S used) rest
  end.

(** A record is a plain object, so under ["__proto__"] it reads
    [Object.prototype] and no string can be stored there.  Wherever the
    program reads a cell it tests the value for truth and passes it through
    [String], a regular expression or the serializer; for the prototype
    object, which is truthy, each of these gives the text below, so a
    record holds that text under ["__proto__"]. *)
Definition objectText : string := "[object Object]".

(** the fresh object [{}] *)
Definition emptyObject : record := {[ "__proto__" := objectText ]}.

(** [obj[colName] = v] for a string [v]: an own property, except under
    ["__proto__"], whose setter ignores a string *)
Definition setCell (obj : record) (colName v : string) : record :=
  if String.eqb colName "__proto__" then obj else <[colName := v]> obj.

(** [headerRow.forEach((colName, idx) => obj[colName] = row[idx] ...)] *)
Fixpoint fillRecord (obj : record) (idx : nat) (headerRow row : list string) : record :=
  match headerRow with
  | [] => obj
  | colName :: rest =>
      fillRecord (setCell obj colName (default "" (row !! idx))) (S idx) rest row
  end.

Definition recordOf (headerRow row : list string) : record :=
  fillRecord emptyObject 0 headerRow row.

(** The column mapping computed once per file. *)
Record roles := {
  titleCol : option string;
  brandCol : option string;
  prodcatCol : option string;
  subcatCol : option string;
  subsubCol : option string;
  seasonCol : option string;
  campaignCol : option string;
  sizesCol : option string;
  costCol : option string;
  mrpCol : option string;
  finalCol : option string;
  sizeChartCol : option string;
  imageCols : list string;
  sizeCols : list string
}.

(** the fallback title detection: the first column with, among the first
    ten records, a value that is neither empty nor all digits *)
Definition hasTextSample (df : list record) (c : string) : bool :=
  existsb (fun s => nonEmpty s && negb (allDigits s))
          (map (fun r => cell r c) (take 10 df)).

Definition fallbackTitle (cols : list string) (df : list record) : option string :=
  match resolved (firstSome (fun c => if hasTextSample df c then Some c else None) cols) with
  | Some c => Some c
  | None => head cols
  end.

Definition resolveRoles (cols : list string) (df : list record) : roles :=
  let titleCol := findColByNames cols ["Title"; "Product Title"; "Name"] in
  {| titleCol := match resolved titleCol with
                 | Some c => Some c
                 | None => fallbackTitle cols df
                 end;
     brandCol := findColByNames cols ["Brand Name"; "Vendor"; "Brand"];
     prodcatCol := findColByNames cols ["Product category"; "Category"];
     subcatCol := findColByNames cols ["Subcategory"; "Sub Category"; "Type"];
     subsubCol := findColByNames cols ["Sub Sub Category"; "SubSubCategory"];
     seasonCol := findColByNames cols ["Season"];
     campaignCol := findColByNames cols ["Campaign"];
     sizesCol := findColByNames cols ["Sizes"; "Size"];
     costCol := findColByNames cols ["Cost to Kiddo"; "Cost"];
     mrpCol := findColByNames cols ["MRP"];
     finalCol := findColByNames cols ["Selling Price"];
     sizeChartCol := findColByNames cols ["Size chart"; "Size Chart"; "Sizechart"];
     imageCols := detectImageColumns cols;
     sizeCols := detectSizeColumns cols |}.

Definition optionalExtraCols : list (string * list string) := [
  ("Fabric", ["Fabric"; "Fabric (product.metafields.custom.fabric)"]);
  ("Wash Care", ["Wash Care"; "Wash care"; "Wash Care (product.metafields.custom.wash_care)"]);
  ("Material", ["Material"; "Material (product.metafields.custom.material)"]);
  ("Shelf", ["Shelf"; "Shelf (product.metafields.custom.shelf)"]);
  ("Test", ["Test"; "Test (product.metafields.custom.test)"]);
  ("Variant Image", ["Variant Image"; "Variant image"]);
  ("Variant Weight Unit", ["Variant Weight Unit"; "Variant weight unit"]);
  ("Variant Tax Code", ["Variant Tax Code"; "Variant tax code"]);
  ("Shelf No", ["Shelf No"; "Shelf Number"]);
  ("Sizes", ["Sizes"; "Size"])
].

Definition handleTemplateCol : string := "URL handle".

(** *** Per-record derivations *)

(** does the size column [sc] fire on this record? *)
Definition sizeFires (row : record) (sc : string) : bool :=
  match row !! sc with
  | Some val =>
      nonEmpty val &&
      (let sVal := trim val in
       nonEmpty sVal && negb (String.eqb sVal "0")
       && negb (String.eqb (toLowerCase sVal) "nan"))
  | None => false
  end.

Definition variantsOf (sizeCols : list string) (row : record) : list string :=
  let variants :=
    fold_left (fun variants sc => if sizeFires row sc then variants ++ [trim sc] else variants)
              sizeCols [] in
  match variants with
  | [] => ["Default"]
  | _ => variants
  end.

(** [if (url && url.toLowerCase() !== "nan" && !images.includes(url)) images.push(url)] *)
Definition pushImage (images : list string) (url : string) : list string :=
  if usable url && negb (inb url images) then images ++ [url] else images.

Definition columnImages (imageCols : list string) (row : record) : list string :=
  fold_left (fun images ic => pushImage images (trim (cell row ic))) imageCols [].

Definition imagesOf (r : roles) (row : record) : list string :=
  let images := columnImages (imageCols r) row in
  match resolved (sizeChartCol r) with
  | Some c => pushImage images (trim (cell row c))
  | None => images
  end.

Definition priceOf (col : option string) (row : record) : string :=
  match resolved col with
  | Some c => cleanPrice (row !! c)
  | None => ""
  end.

Definition descriptionOf (cols : list string) (row : record) : string :=
  let descParts :=
    fold_left (fun descParts p =>
                 match resolved (findColByNames cols [p]) with
                 | Some colName =>
                     match row !! colName with
                     | Some v => if nonEmpty v && nonEmpty (trim v)
                                 then descParts ++ [trim v] else descParts
                     | None => descParts
                     end
                 | None => descParts
                 end)
              ["Product Specifcation"; "Product Specification"; "Product specification"]
              [] in
  join (String "010" (String "010" "")) descParts.

Definition isValueOne (val : option string) : bool :=
  match val with
  | None => false
  | Some val =>
      let valStr := trim val in
      if negb (nonEmpty valStr) || String.eqb (toLowerCase valStr) "nan" then false
      else Num.eqb (Num.parseFloat valStr) (Num.ofZ 1)
  end.

(** [if (col) { v = String(row[col] || "").trim(); if (v && ...) tags.push(v) }] *)
Definition pushCellTag (row : record) (tags : list string) (col : option string)
  : list string :=
  match resolved col with
  | Some c => let v := trim (cell row c) in
              if usable v then tags ++ [v] else tags
  | None => tags
  end.

(** the body of [cols.forEach(col => ...)] over the flag columns *)
Definition flagTags (row : record) (tags : list string) (col : string) : list string :=
  let colNorm := toLowerCase
                   (deleteAll (fun c => isChar c "*" || isChar c "+" || isSpace c) col) in
  if negb (isValueOne (row !! col)) then tags
  else if includes colNorm "girls" && includes colNorm "unisex"
       then pushNew "Unisex" (pushNew "Girl" tags)
  else if includes colNorm "boys" && includes colNorm "unisex"
       then pushNew "Unisex" (pushNew "Boy" tags)
  else if String.eqb colNorm "boy" || String.eqb colNorm "boys" then pushNew "Boy" tags
  else if String.eqb colNorm "girl" || String.eqb colNorm "girls" then pushNew "Girl" tags
  else if String.eqb colNorm "unisex" then pushNew "Unisex" tags
  else if String.eqb colNorm "nb" || String.eqb colNorm "newborn" then pushNew "Newborn" tags
  else tags.

(** the [tags] array of a record, as it stands before [new Set(tags)] *)
Definition rawTagsOf (cols : list string) (r : roles) (row : record)
           (variants : list string) : list string :=
  let tags := [] in
  let tags := pushCellTag row tags (brandCol r) in
  let tags := pushCellTag row tags (prodcatCol r) in
  let tags := pushCellTag row tags (subcatCol r) in
  let tagColumns := [subsubCol r; subsubCol r; seasonCol r; campaignCol r; sizesCol r] in
  let tags := fold_left (pushCellTag row) tagColumns tags in
  let tags := fold_left (flagTags row) cols tags in
  let tags := if inb "Boy" tags
              then fold_left (fun tags t => pushNew t tags) (getBoyAgeGroupTags variants) tags
              else tags in
  let tags := if inb "Girl" tags
              then fold_left (fun tags t => pushNew t tags) (getGirlAgeGroupTags variants) tags
              else tags in
  tags.

(** the tag list written to the row: [Array.from(new Set(tags))] *)
Definition tagsOf (cols : list string) (r : roles) (row : record)
           (variants : list string) : list string :=
  dedupe (rawTagsOf cols r row variants).

(** *** Row assembly *)

(** [TEMPLATE_COLS.forEach(c => out[c] = "")] on a fresh object *)
Definition emptyRow : outrow :=
  fold_left (fun out c => <[c := VStr ""]> out) TEMPLATE_COLS ∅.

(** the loop over [Object.entries(optionalExtraCols)] *)
Definition applyExtras (cols : list string) (row : record) (out : outrow) : outrow :=
  fold_left (fun out '(outColKey, candidates) =>
               match resolved (findColByNames cols candidates) with
               | Some sourceCol => <[outColKey := VStr (trim (cell row sourceCol))]> out
               | None => out
               end)
            optionalExtraCols out.

(** The values a record fixes before its variant loop starts. *)
Record recordContext := {
  title : string;
  handleBase : string;
  variants : list string;
  images : list string;
  finalPrice : string;
  mrpPrice : string;
  costPrice : string
}.

Definition primaryImage (ctx : recordContext) : string :=
  match images ctx with
  | url :: _ => url
  | [] => ""
  end.

Definition fallbackPriceToCost : bool := true.

Definition priceValOf (ctx : recordContext) : string :=
  if nonEmpty (finalPrice ctx) then roundToNearest9 (finalPrice ctx)
  else if nonEmpty (costPrice ctx) && fallbackPriceToCost
       then roundToNearest9 (costPrice ctx)
       else "".

(** One pass of the variant loop: the row pushed for [size], and the value
    of [firstVariant] after the pass. *)
Definition variantRow (cols : list string) (r : roles) (row : record)
           (ctx : recordContext) (firstVariant : bool) (size : string)
  : outrow * bool :=
  let out := emptyRow in
  let out := <["Title" := VStr (title ctx)]> out in
  let out := <[handleTemplateCol := VStr (handleBase ctx)]> out in
  let description := descriptionOf cols row in
  let out := <["Description" := VStr description]> out in
  let out := applyExtras cols row out in
  let out := match resolved (brandCol r) with
             | Some c => <["Vendor" := cellOr row c (VStr "")]> out
             | None => out
             end in
  let out := match resolved (prodcatCol r) with
             | Some c => <["Product category" := cellOr row c (VStr "")]> out
             | None => out
             end in
  let out := match resolved (subcatCol r) with
             | Some c =>
                 <["Type" := cellOr row c
                               match resolved (subsubCol r) with
                               | Some c' => cellValue row c'
                               | None => VStr ""
                               end]> out
             | None => out
             end in
  let out := <["Tags" := VStr (join ", " (tagsOf cols r row (variants ctx)))]> out in
  let out := <["Published on online store" := VStr "TRUE"]> out in
  let out := <["Status" := VStr "Active"]> out in
  let isDefault := String.eqb size "Default" in
  let out := <["Option1 name" := VStr (if isDefault then "" else "Size")]> out in
  let out := <["Option1 value" := VStr (if isDefault then "" else size)]> out in
  let out := <["Price" := VStr (priceValOf ctx)]> out in
  let out := <["Compare-at price" := VStr (mrpPrice ctx)]> out in
  let out := <["Cost per item" := VStr (costPrice ctx)]> out in
  let out := <["Charge tax" := VStr "TRUE"]> out in
  let out := <["Requires shipping" := VStr "TRUE"]> out in
  let out := <["Fulfillment service" := VStr "manual"]> out in
  let out := <["Gift card" := VStr "FALSE"]> out in
  let out := <["SEO title" := VStr (title ctx)]> out in
  let out := <["SEO description" := VStr (substring 0 320 description)]> out in
  let out := match resolved (prodcatCol r) with
             | Some c => <["Google Shopping / Google product category" :=
                             cellOr row c (VStr "")]> out
             | None => out
             end in
  if firstVariant && nonEmpty (primaryImage ctx)
  then (<["Image position" := VNum 1]>
          (<["Product image URL" := VStr (primaryImage ctx)]> out), false)
  else (out, firstVariant).

(** [for (const size of variants) { ...; outRows.push(out) }] *)
Fixpoint variantRows (cols : list string) (r : roles) (row : record)
         (ctx : recordContext) (firstVariant : bool) (sizes : list string)
  : list outrow :=
  match sizes with
  | [] => []
  | size :: rest =>
      let '(out, firstVariant) := variantRow cols r row ctx firstVariant size in
      out :: variantRows cols r row ctx firstVariant rest
  end.

Definition imageRow (ctx : recordContext) (url : string) (pos : Z) : outrow :=
  let imgRow := emptyRow in
  let imgRow := <[handleTemplateCol := VStr (handleBase ctx)]> imgRow in
  let imgRow := <["Product image URL" := VStr url]> imgRow in
  <["Image position" := VNum pos]> imgRow.

(** [for (let i = 1; i < images.length; i++) { ...; pos++ }], entered with
    the images from index 1 on and [pos = 2] *)
Fixpoint imageRows (ctx : recordContext) (pos : Z) (extra : list string) : list outrow :=
  match extra with
  | [] => []
  | url :: rest => imageRow ctx url pos :: imageRows ctx (pos + 1)%Z rest
  end.

(** [String(row[titleCol!] || "").trim()]; an [undefined] column name is
    the property key ["undefined"] *)
Definition titleOf (r : roles) (row : record) : string :=
  trim (cell row (default "undefined" (titleCol r))).

Definition contextOf (r : roles) (row : record) : recordContext :=
  let title := titleOf r row in
  {| title := title;
     handleBase := slugify title;
     variants := variantsOf (sizeCols r) row;
     images := imagesOf r row;
     finalPrice := priceOf (finalCol r) row;
     mrpPrice := priceOf (mrpCol r) row;
     costPrice := priceOf (costCol r) row |}.

(** a record is skipped when its title is empty or ["nan"] *)
Definition skipped (r : roles) (row : record) : bool :=
  let title := titleOf r row in
  negb (nonEmpty title) || String.eqb (toLowerCase title) "nan".

(** the body of [df.forEach(row => ...)]: the rows one record adds to
    [outRows] *)
Definition processRecord (cols : list string) (r : roles) (row : record)
  : list outrow :=
  if skipped r row then []
  else
    let ctx := contextOf r row in
    variantRows cols r row ctx true (variants ctx)
    ++ imageRows ctx 2 (tail (images ctx)).

(** *** Serialization ([Papa.unparse], default configuration) *)

Definition quoteChar : string := String (ascii_of_nat 34) "".

Definition fieldText (v : option value) : string :=
  match v with
  | Some (VStr s) => s
  | Some (VNum n) => if (n <? 0)%Z then "-" +:+ Num.decimal (- n) else Num.decimal n
  | Some VUndef | None => ""
  end.

(** a field is quoted when it holds a delimiter, a quote, a line break or
    a byte-order mark, or starts or ends with a space *)
Definition needsQuotes (s : string) : bool :=
  includes s "," || includes s quoteChar
  || includes s (String "013" "") || includes s (String "010" "")
  || includes s (String "239" (String "187" (String "191" "")))
  || match chars s with c :: _ => isChar c " " | [] => false end
  || match rev (chars s) with c :: _ => isChar c " " | [] => false end.

Definition escapeQuotes (s : string) : string :=
  text (flat_map (fun c => if isChar c (ascii_of_nat 34) then [c; c] else [c]) (chars s)).

Definition safe (s : string) : string :=
  if needsQuotes s then quoteChar +:+ escapeQuotes s +:+ quoteChar else s.

(** the table written: the header line, when there are fields, and one
    line per row, each with the fields' values in the fields' order.  An
    empty [data] is taken for a single value and wrapped, [[data]]: it is
    written as one row without any field, an empty line. *)
Definition csvGrid (fields : list string) (data : list outrow) : list (list string) :=
  (match fields with [] => [] | _ => [fields] end)
  ++ match data with
     | [] => [[]]
     | _ :: _ => map (fun row => map (fun f => fieldText (row !! f)) fields) data
     end.

(** the line break between rows, CR LF *)
Definition newline : string := String "013" (String "010" "").

Definition unparse (fields : list string) (data : list outrow) : string :=
  join newline (map (fun line => join "," (map safe line)) (csvGrid fields data)).

(** *** One file *)

(** What [Papa.parse] delivers for a file: the grid of cells, or an error
    (rendered as text). *)
Inductive parsed :=
| ParseComplete (rawData : list (list string))
| ParseError (err : string).

(** How the promise of [processSingleFile] settles. *)
Inductive settled :=
| Resolved (csv : string)
| Rejected (err : string).

Definition headerOf (draw : nat -> string) (rawData : list (list string)) : list string :=
  headerRowOf draw 0 (nth (detectHeaderRow rawData) rawData []).

Definition dataFrameOf (draw : nat -> string) (rawData : list (list string)) : list record :=
  map (recordOf (headerOf draw rawData)) (drop (detectHeaderRow rawData + 1) rawData).

Definition outRowsOf (draw : nat -> string) (rawData : list (list string)) : list outrow :=
  let cols := headerOf draw rawData in
  let df := dataFrameOf draw rawData in
  let r := resolveRoles cols df in
  flat_map (processRecord cols r) df.

Definition processSingleFile (draw : nat -> string) (p : parsed) : settled :=
  match p with
  | ParseError err => Rejected err
  | ParseComplete [] => Resolved ""
  | ParseComplete rawData => Resolved (unparse TEMPLATE_COLS (outRowsOf draw rawData))
  end.

(** *** The batch *)

(** [types.ts] *)
Inductive Category := BOOKS | TOYS | FASHION | ESSENTIALS.

(** An uploaded file, with what the parser and the random generator give
    while it is processed. *)
Record file := {
  name : string;
  parseResult : parsed;
  draws : nat -> string
}.

(** [name.replace(/\.[^/.]+$/, "")]: the last dot and what follows it go,
    unless nothing or a slash follows that dot *)
Definition dropExtension (name : string) : string :=
  let ext := takeWhile (fun c => negb (isChar c "." || isChar c "/")) (rev (chars name)) in
  match ext, drop (length ext) (rev (chars name)) with
  | _ :: _, c :: stem => if isChar c "." then text (rev stem) else name
  | _, _ => name
  end.

(** the archive: entry name to entry body; [zip.file(n, b)] stores [b]
    under [n], replacing an entry of that name *)
Abbreviation archive := (gmap string string).

(** the body of [files.map(async (file) => ...)], from the point where the
    file's promise has settled: the [zip.file] call it makes *)
Definition entryOf (f : file) : string * string :=
  match processSingleFile (draws f) (parseResult f) with
  | Resolved csvContent =>
      (dropExtension (name f) +:+ " - Converted - Shopify.csv", csvContent)
  | Rejected error =>
      ("ERROR_" +:+ name f +:+ ".txt", "Failed to process: " +:+ error)
  end.

Definition addEntry (zip : archive) (f : file) : archive :=
  <[(entryOf f).1 := (entryOf f).2]> zip.

(** The tasks settle in some order, one at a time; [order] lists the files
    in the order in which their tasks complete. *)
Definition zipAfter (order : list file) : archive :=
  fold_left addEntry order ∅.

(** A run of [processFiles(files, category)]: any completion order of the
    files' tasks yields an archive. *)
Inductive processFiles (files : list file) (category : Category) : archive -> Prop :=
| processFiles_run (order : list file) :
    order ≡ₚ files -> processFiles files category (zipAfter order).

(* ===================================================================== *)
(** ** Notions of the specification                                      *)
(* ===================================================================== *)

(** the number of size columns whose cell fires on the record *)
Definition variantCount (r : roles) (row : record) : nat :=
  length (List.filter (sizeFires row) (sizeCols r)).

(** the length of the record's assembled image list *)
Definition imageCount (r : roles) (row : record) : nat :=
  length (imagesOf r row).

(** a row keyed by exactly the template's columns *)
Definition templateKeyed (out : outrow) : Prop :=
  dom out = list_to_set TEMPLATE_COLS.

(** the row of the variant loop once the optional extras are in *)
Definition baseRow (cols : list string) (row : record) (ctx : recordContext) : outrow :=
  applyExtras cols row
    (<["Description" := VStr (descriptionOf cols row)]>
       (<[handleTemplateCol := VStr (handleBase ctx)]>
          (<["Title" := VStr (title ctx)]> emptyRow))).

(** the row of the variant loop for [size], before the image step *)
Definition plainRow (cols : list string) (r : roles) (row : record)
           (ctx : recordContext) (size : string) : outrow :=
  (variantRow cols r row ctx false size).1.

(** the four fields in which the variant rows of one record may differ *)
Definition variantFields : list string :=
  ["Option1 name"; "Option1 value"; "Product image URL"; "Image position"].

(** the image step touches the first row only, and only when the record
    has an image *)
Definition withPrimary (ctx : recordContext) (i : nat) (out : outrow) : outrow :=
  if (i =? 0) && nonEmpty (primaryImage ctx)
  then <["Image position" := VNum 1]>
         (<["Product image URL" := VStr (primaryImage ctx)]> out)
  else out.

(** the field [k] of the [i]-th row *)
Definition field (rows : list outrow) (i : nat) (k : string) : option value :=
  rows !! i ≫= fun out => out !! k.

(** the values a column shows in the first ten data rows *)
Definition sampleValues (df : list record) (c : string) : list string :=
  map (fun r => cell r c) (take 10 df).

(** a string of one or more digits *)
Definition pureDigits (s : string) : Prop :=
  s <> "" /\ Forall (fun ch => isDigit ch = true) (chars s).

(** a column qualifies as the title when its first ten values are not all
    empty or pure-digit strings *)
Definition qualifiesAsTitle (df : list record) (c : string) : Prop :=
  ~ Forall (fun v => v = "" \/ pureDigits v) (sampleValues df c).

(** the same, read word for word from the specification: the values are
    not all empty, and they are not all pure-digit strings *)
Definition qualifiesAsWritten (df : list record) (c : string) : Prop :=
  ~ Forall (fun v => v = "") (sampleValues df c)
  /\ ~ Forall pureDigits (sampleValues df c).

(** the last character of a text *)
Definition lastChar (s : string) : option ascii := head (rev (chars s)).

(** the name and the body of the archive entry of a file that fails *)
Definition errorEntryName (f : file) : string := "ERROR_" +:+ name f +:+ ".txt".
Definition errorEntryBody (err : string) : string := "Failed to process: " +:+ err.

(** the name of the archive entry a file adds *)
Definition entryName (f : file) : string := (entryOf f).1.

(** *** A sample sheet *)

Definition sampleCols : list string := [
  "Title"; "Boy"; "2-4M"; "S"; "Image 1"; "Image 2"; "Size chart";
  "Selling Price"; "MRP"; "Cost"
].

Definition sampleRow : record :=
  recordOf sampleCols [
    "Kids' T-Shirt!!"; "1"; "3"; "2"; "http://img/a.png"; "http://img/b.png";
    "http://img/chart.png"; "₹1,299.00"; "1500"; "800"
  ].

Definition sampleRoles : roles := resolveRoles sampleCols [sampleRow].

(** the same sheet with a selling price that the rounding changes *)
Definition pricedRow : record :=
  recordOf sampleCols [
    "Kids' T-Shirt!!"; "1"; "3"; "2"; "http://img/a.png"; "http://img/b.png";
    "http://img/chart.png"; "1,234.50"; "1,500.00"; "800"
  ].

Definition pricedRoles : roles := resolveRoles sampleCols [pricedRow].

(** a sheet without a title column *)
Definition titleSheet : list string := ["SKU"; "Product"; "Notes"].

Definition titleData : list record :=
  [recordOf titleSheet ["1001"; "Red shirt"; "cotton"];
   recordOf titleSheet [""; "Blue shirt"; ""]].

(** a file the parser rejects, and one it reads *)
Definition brokenFile : file :=
  {| name := "a.csv"; parseResult := ParseError "boom"; draws := fun _ => "0.5" |}.

Definition goodFile : file :=
  {| name := "b.csv";
     parseResult := ParseComplete [["Title"; "Cost"]; ["Cap"; "42"]];
     draws := fun _ => "0.5" |}.

(** a file that is read and has the name of the one that is rejected *)
Definition goodTwin : file :=
  {| name := "a.csv";
     parseResult := ParseComplete [["Title"]; ["Cap"]];
     draws := fun _ => "0.5" |}.

(** *** Notions for the further properties *)

(** the characters a handle is made of *)
Definition isSlugChar (c : ascii) : bool := isLower c || isDigit c || isChar c "-".

Definition isDash (c : ascii) : bool := isChar c "-".

(** the first character of a text *)
Definition firstChar (s : string) : option ascii := head (chars s).

(** no two dashes in a row *)
Fixpoint noDashPair (l : list ascii) : bool :=
  match l with
  | a :: (b :: _) as r => negb (isDash a && isDash b) && noDashPair r
  | _ => true
  end.

(** the shape of a handle: letters, digits and single dashes, none of
    them at either end *)
Definition slugShaped (l : list ascii) : Prop :=
  Forall (fun c => isSlugChar c = true) l /\ noDashPair l = true
  /\ head l <> Some "-"%char /\ head (rev l) <> Some "-"%char.

(** a header named like one of the size candidates, blanks and letter
    case aside *)
Definition namesSizeCandidate (c : string) : bool :=
  existsb (fun sc => isSizeCandidate sc (trim c)) sizeCandidates.

(** the name of the archive entry of a file that converts *)
Definition convertedEntryName (f : file) : string :=
  dropExtension (name f) +:+ " - Converted - Shopify.csv".

(** two files whose names differ in the extension only: both convert, to
    the same entry name *)
Definition reportCsv : file :=
  {| name := "report.csv";
     parseResult := ParseComplete [["Title"]; ["Cap"]];
     draws := fun _ => "0.5" |}.

Definition reportTxt : file :=
  {| name := "report.txt";
     parseResult := ParseComplete [["Title"]; ["Hat"]];
     draws := fun _ => "0.5" |}.

(** a variant, as listed on the row, that makes an age group fire: it is
    kept by the filter and, normalized, is not empty and matches one of the
    group's patterns *)
Definition variantFires (group : AgeGroupConfig) (v : string) : bool :=
  (nonEmpty v && negb (String.eqb v "Default"))
  && (nonEmpty (normalizeSizeForMatching v)
      && existsb (patternMatches (normalizeSizeForMatching v)) (patterns group)).

Definition groupFires (variants : list string) (group : AgeGroupConfig) : bool :=
  existsb (variantFires group) variants.

(** what one of the three specification headers adds to the description of
    a row: the trimmed text of the column found for it, when there is one *)
Definition specText (cols : list string) (row : record) (p : string) : list string :=
  match resolved (findColByNames cols [p]) with
  | Some colName =>
      match row !! colName with
      | Some v => if nonEmpty v && nonEmpty (trim v) then [trim v] else []
      | None => []
      end
  | None => []
  end.

Definition paragraphBreak : string := String "010" (String "010" "").

(** *** The page *)

(** [types.ts]: the text of a category *)
Definition categoryValue (c : Category) : string :=
  match c with
  | BOOKS => "Books"
  | TOYS => "Toys"
  | FASHION => "Fashion"
  | ESSENTIALS => "Essentials"
  end.

(** [FileUploader.tsx].  A handler calls [onFilesSelected] with a new list,
    [Some], or does not call it, [None]. *)
Module FileUploader.

Definition handleInputChange (files selected : list file) : option (list file) :=
  match selected with
  | [] => None
  | _ :: _ => Some (files ++ selected)
  end.

(** [files.filter((_, i) => i !== index)] *)
Definition removeFile (disabled : bool) (files : list file) (index : nat)
  : option (list file) :=
  if disabled then None
  else Some (map snd (List.filter (fun p => negb (fst p =? index))
                                  (combine (seq 0 (length files)) files))).

End FileUploader.

(** [App.tsx]: the state of the page and its handlers.  [handleProcess] is
    split at its [await]: the part before it, and the two ways it goes on
    when the promise of [processFiles] has settled. *)
Module App.

Inductive ProcessingStatus := Idle | Processing | Success | Error.

Record ProcessedResult := {
  zipBlob : archive;
  fileName : string;
  count : nat
}.

Record state := {
  files : list file;
  category : option Category;
  status : ProcessingStatus;
  error : option string;
  result : option ProcessedResult
}.

Definition initial : state :=
  {| files := []; category := None; status := Idle; error := None; result := None |}.

Definition isProcessing (st : state) : bool :=
  match status st with Processing => true | _ => false end.

Definition handleFilesSelected (st : state) (selectedFiles : list file) : state :=
  match status st with
  | Success | Error =>
      {| files := selectedFiles; category := category st; status := Idle;
         error := None; result := None |}
  | _ =>
      {| files := selectedFiles; category := category st; status := status st;
         error := error st; result := result st |}
  end.

Definition setCategory (st : state) (c : Category) : state :=
  {| files := files st; category := Some c; status := status st;
     error := error st; result := result st |}.

Definition setStatus (st : state) (s : ProcessingStatus) : state :=
  {| files := files st; category := category st; status := s;
     error := error st; result := result st |}.

(** [handleProcess] up to the [await]; [None] when it returns at once *)
Definition handleProcessStart (st : state) : option state :=
  match category st, files st with
  | Some _, _ :: _ =>
      Some {| files := files st; category := category st; status := Processing;
              error := None; result := result st |}
  | _, _ => None
  end.

(** [handleProcess] after the [await], the archive at hand; [today] is
    [new Date().toISOString().slice(0, 10)] *)
Definition handleProcessDone (today : string) (st : state) (c : Category)
           (zip : archive) : state :=
  {| files := files st; category := category st; status := Success;
     error := error st;
     result := Some {| zipBlob := zip;
                       fileName := toLowerCase (categoryValue c) +:+ "_processed_"
                                   +:+ today +:+ ".zip";
                       count := length (files st) |} |}.

(** the [catch] branch of [handleProcess] *)
Definition handleProcessFailed (st : state) : state :=
  {| files := files st; category := category st; status := Error;
     error := Some "An error occurred while processing the files. Please check the CSV format.";
     result := result st |}.

Definition handleReset (st : state) : state := initial.

(** What the page lets happen in a state.  The uploader and the selector
    are disabled while processing; the process button is there when idle,
    the reset button on success, the retry link on error.  While processing
    neither the files nor the category change, so the values [handleProcess]
    holds after its [await] are the ones of the state. *)
Inductive step (today : string) (st : state) : state -> Prop :=
| step_add (selected l : list file) :
    isProcessing st = false ->
    FileUploader.handleInputChange (files st) selected = Some l ->
    step today st (handleFilesSelected st l)
| step_remove (index : nat) (l : list file) :
    FileUploader.removeFile (isProcessing st) (files st) index = Some l ->
    step today st (handleFilesSelected st l)
| step_category (c : Category) :
    isProcessing st = false ->
    step today st (setCategory st c)
| step_process (st' : state) :
    status st = Idle ->
    handleProcessStart st = Some st' ->
    step today st st'
| step_done (c : Category) (zip : archive) :
    status st = Processing ->
    category st = Some c ->
    processFiles (files st) c zip ->
    step today st (handleProcessDone today st c zip)
| step_failed :
    status st = Processing ->
    step today st (handleProcessFailed st)
| step_reset :
    status st = Success ->
    result st <> None ->
    step today st (handleReset st)
| step_retry :
    status st = Error ->
    step today st (setStatus st Idle).

Inductive reachable (today : string) : state -> Prop :=
| reachable_initial : reachable today initial
| reachable_step (st st' : state) :
    reachable today st -> step today st st' -> reachable today st'.

(** a result is there on success only, and it is the one of the files on
    the page *)
Definition consistent (today : string) (st : state) : Prop :=
  (status st = Success <-> result st <> None)
  /\ (status st = Processing -> files st <> [] /\ category st <> None)
  /\ (forall r, result st = Some r ->
        count r = length (files st)
        /\ files st <> []
        /\ exists c, processFiles (files st) c (zipBlob r)
                     /\ fileName r = toLowerCase (categoryValue c) +:+ "_processed_"
                                     +:+ today +:+ ".zip").

End App.

(** a page brought from its initial state to a result: one file selected,
    a category chosen, the batch processed *)
Definition pageProcessing : App.state :=
  {| App.files := [goodFile]; App.category := Some FASHION;
     App.status := App.Processing; App.error := None; App.result := None |}.

Definition pageDone : App.state :=
  App.handleProcessDone "2026-01-01" pageProcessing FASHION (zipAfter [goodFile]).

(** the columns whose cell goes into the tags of a row *)
Definition tagSourceCols (r : roles) : list (option string) :=
  [brandCol r; prodcatCol r; subcatCol r; subsubCol r; seasonCol r; campaignCol r; sizesCol r].

(** a tag that is the trimmed, usable cell of a column *)
Definition cellTag (row : record) (col : option string) (t : string) : Prop :=
  exists c, resolved col = Some c /\ t = trim (cell row c) /\ usable t = true.

(* ===================================================================== *)
(** ** Properties                                                        *)
(* ===================================================================== *)

Arguments variantRow : simpl never.

(** split a conjunction into its parts, and nothing else *)
Ltac split_ands := repeat match goal with |- _ /\ _ => split end.

(** *** Lists and text *)

Lemma nonEmpty_true (s : string) : nonEmpty s = true <-> s <> "".
Proof.
  unfold nonEmpty. rewrite negb_true_iff. apply String.eqb_neq.
Qed.

Lemma nonEmpty_false (s : string) : nonEmpty s = false <-> s = "".
Proof.
  unfold nonEmpty. rewrite negb_false_iff. apply String.eqb_eq.
Qed.

Lemma inb_In (x : string) (l : list string) : inb x l = true <-> In x l.
Proof.
  unfold inb. rewrite existsb_exists. split.
  - intros (y & Hy & Heq). apply String.eqb_eq in Heq. now subst.
  - intros H. exists x. split; [assumption | apply String.eqb_refl].
Qed.

Lemma fold_push_filter {A B} (p : A -> bool) (f : A -> B) (l : list A) (acc : list B) :
  fold_left (fun acc x => if p x then acc ++ [f x] else acc) l acc
  = acc ++ map f (List.filter p l).
Proof.
  revert acc. induction l as [|x l IH]; intros acc; simpl.
  - now rewrite app_nil_r.
  - rewrite IH. destruct (p x); simpl; [now rewrite <- app_assoc | reflexivity].
Qed.

(** *** Counting the rows of a record *)

Lemma variantsOf_length (sizeCols : list string) (row : record) :
  length (variantsOf sizeCols row)
  = Nat.max 1 (length (List.filter (sizeFires row) sizeCols)).
Proof.
  unfold variantsOf. rewrite fold_push_filter. simpl.
  destruct (List.filter (sizeFires row) sizeCols) as [|sc l]; simpl; [reflexivity|].
  rewrite length_map. reflexivity.
Qed.

Lemma variantRows_length cols r row ctx firstVariant sizes :
  length (variantRows cols r row ctx firstVariant sizes) = length sizes.
Proof.
  revert firstVariant. induction sizes as [|size rest IH]; intros fv; simpl.
  - reflexivity.
  - destruct (variantRow cols r row ctx fv size) as [out fv']. simpl. now rewrite IH.
Qed.

Lemma imageRows_length ctx pos extra :
  length (imageRows ctx pos extra) = length extra.
Proof.
  revert pos. induction extra as [|url rest IH]; intros pos; simpl; [reflexivity|].
  now rewrite IH.
Qed.

Lemma processRecord_length cols r row :
  skipped r row = false ->
  length (processRecord cols r row)
  = length (variantsOf (sizeCols r) row) + (length (imagesOf r row) - 1).
Proof.
  intros Hs. unfold processRecord. rewrite Hs.
  rewrite length_app, variantRows_length, imageRows_length. simpl.
  f_equal. destruct (imagesOf r row); simpl; lia.
Qed.

(** C1. A record whose title is neither empty nor ["nan"] produces
    [max(1, variantCount) + max(0, imageCount - 1)] output rows, where
    [variantCount] counts the size columns whose cell fires and
    [imageCount] is the length of the assembled image list. *)
Theorem rows_per_record (cols : list string) (r : roles) (row : record) :
  skipped r row = false ->
  Z.of_nat (length (processRecord cols r row))
  = (Z.max 1 (Z.of_nat (variantCount r row))
     + Z.max 0 (Z.of_nat (imageCount r row) - 1))%Z.
Proof.
  intros Hs. rewrite (processRecord_length _ _ _ Hs), variantsOf_length.
  unfold variantCount, imageCount. lia.
Qed.

Lemma rows_per_record_witness :
  skipped sampleRoles sampleRow = false
  /\ Z.of_nat (length (processRecord sampleCols sampleRoles sampleRow))
     = (Z.max 1 (Z.of_nat (variantCount sampleRoles sampleRow))
        + Z.max 0 (Z.of_nat (imageCount sampleRoles sampleRow) - 1))%Z.
Proof.
  split; [vm_compute; reflexivity | apply rows_per_record; vm_compute; reflexivity].
Defined.

(** *** Prices *)

Lemma trim_empty_of_empty (s : string) : nonEmpty s = false -> trim s = "".
Proof.
  intros H. apply nonEmpty_false in H. now subst.
Qed.

(** C4, as the program has it.  A blank input gives the empty string (not
    the input: blanks are dropped); an input whose parsed value is not a
    number, or is at most zero, is returned unchanged; any other input
    gives [floor((price + 5) / 10) * 10 - 1], floored at 0, as text, the
    arithmetic being that of doubles.  The five quoted values are as
    specified. *)
Theorem roundToNearest9_cases :
  (forall priceStr, trim priceStr = "" -> roundToNearest9 priceStr = "")
  /\ (forall priceStr, trim priceStr <> "" ->
      (Num.isNaN (Num.parseFloat priceStr) = true
       \/ Num.leb (Num.parseFloat priceStr) Num.zero = true) ->
      roundToNearest9 priceStr = priceStr)
  /\ (forall priceStr, trim priceStr <> "" ->
      Num.isNaN (Num.parseFloat priceStr) = false ->
      Num.leb (Num.parseFloat priceStr) Num.zero = false ->
      let price := Num.parseFloat priceStr in
      roundToNearest9 priceStr
      = Num.toString
          (Num.max Num.zero
             (Num.sub (Num.mul (Num.floor (Num.div (Num.add price (Num.ofZ 5))
                                                   (Num.ofZ 10)))
                               (Num.ofZ 10))
                      (Num.ofZ 1))))
  /\ roundToNearest9 "100" = "99"
  /\ roundToNearest9 "101" = "99"
  /\ roundToNearest9 "150" = "149"
  /\ roundToNearest9 "0" = "0"
  /\ roundToNearest9 "" = "".
Proof.
  split; [|split; [|split; [|split_ands; vm_compute; reflexivity]]].
  - intros priceStr Hblank. unfold roundToNearest9.
    rewrite Hblank, String.eqb_refl, orb_true_r. reflexivity.
  - intros priceStr Hblank Hnum. unfold roundToNearest9.
    apply String.eqb_neq in Hblank. rewrite Hblank, orb_false_r.
    destruct (nonEmpty priceStr) eqn:Hne; simpl.
    + apply orb_true_iff in Hnum. now rewrite Hnum.
    + apply trim_empty_of_empty in Hne. apply String.eqb_neq in Hblank. contradiction.
  - intros priceStr Hblank Hnan Hpos price. unfold roundToNearest9.
    apply String.eqb_neq in Hblank. rewrite Hblank, orb_false_r.
    destruct (nonEmpty priceStr) eqn:Hne; simpl.
    + now rewrite Hnan, Hpos.
    + apply trim_empty_of_empty in Hne. apply String.eqb_neq in Hblank. contradiction.
Qed.

(** C4 as stated fails on an input made of blanks: the result is the empty
    string, not the input. *)
Lemma roundToNearest9_blank_not_unchanged :
  trim " " = "" /\ roundToNearest9 " " = "" /\ roundToNearest9 " " <> " ".
Proof.
  split_ands; [vm_compute; reflexivity | vm_compute; reflexivity | vm_compute; discriminate].
Qed.

(** C5. [cleanPrice] gives the empty string for [null] and for blank input;
    otherwise it keeps the characters [[0-9.-]] of the trimmed text, and
    renders the number as text when the kept text parses to an integer,
    else returns the kept text unchanged. *)
Theorem cleanPrice_cases :
  cleanPrice None = ""
  /\ (forall x, trim x = "" -> cleanPrice (Some x) = "")
  /\ (forall x, trim x <> "" ->
      let kept := text (List.filter isPriceChar (chars (trim x))) in
      cleanPrice (Some x)
      = if Num.isInteger (Num.parseFloat kept)
        then Num.toString (Num.parseFloat kept) else kept)
  /\ cleanPrice (Some "₹1,299.00") = "1299"
  /\ cleanPrice (Some "19.95") = "19.95".
Proof.
  split; [reflexivity|].
  split; [|split; [|split; vm_compute; reflexivity]].
  - intros x Hblank. unfold cleanPrice. now rewrite Hblank.
  - intros x Hblank kept. unfold cleanPrice. fold kept.
    apply String.eqb_neq in Hblank. rewrite Hblank.
    destruct (String.eqb kept "") eqn:Hk; [|reflexivity].
    apply String.eqb_eq in Hk. rewrite Hk. reflexivity.
Qed.

(** *** Output rows as maps *)

Lemma fold_template_lookup (l : list string) (m : outrow) (k : string) :
  fold_left (fun out c => <[c := VStr ""]> out) l m !! k
  = if inb k l then Some (VStr "") else m !! k.
Proof.
  revert m. induction l as [|c l IH]; intros m; simpl; [reflexivity|].
  rewrite IH. destruct (String.eqb k c) eqn:E; simpl.
  - apply String.eqb_eq in E. subst. rewrite lookup_insert_eq. now destruct (inb c l).
  - apply String.eqb_neq in E. rewrite lookup_insert_ne by congruence. reflexivity.
Qed.

Lemma emptyRow_lookup (k : string) :
  emptyRow !! k = if inb k TEMPLATE_COLS then Some (VStr "") else None.
Proof. unfold emptyRow. rewrite fold_template_lookup. now rewrite lookup_empty. Qed.

Lemma inb_template (k : string) : inb k TEMPLATE_COLS = true <-> k ∈ TEMPLATE_COLS.
Proof. rewrite inb_In. symmetry. apply list_elem_of_In. Qed.

Lemma emptyRow_keyed : templateKeyed emptyRow.
Proof.
  unfold templateKeyed. apply set_eq. intros k.
  rewrite elem_of_dom, elem_of_list_to_set, <- inb_template, emptyRow_lookup.
  destruct (inb k TEMPLATE_COLS); split; intros H;
    solve [ reflexivity | discriminate | now exists (VStr "") | now destruct H ].
Qed.

Lemma insert_keyed (key : string) (v : value) (out : outrow) :
  inb key TEMPLATE_COLS = true -> templateKeyed out -> templateKeyed (<[key := v]> out).
Proof.
  unfold templateKeyed. intros Hk Hd. rewrite dom_insert_L, Hd.
  apply inb_template in Hk. revert Hk. generalize TEMPLATE_COLS. intros l Hk.
  apply subseteq_union_1_L, singleton_subseteq_l, elem_of_list_to_set, Hk.
Qed.

Lemma optional_keyed {A} (o : option A) (key : string) (f : A -> value) (out : outrow) :
  inb key TEMPLATE_COLS = true -> templateKeyed out ->
  templateKeyed match o with Some c => <[key := f c]> out | None => out end.
Proof. intros Hk Hd. destruct o; [now apply insert_keyed | assumption]. Qed.

Lemma applyExtras_keyed cols row out : templateKeyed out -> templateKeyed (applyExtras cols row out).
Proof.
  unfold applyExtras.
  assert (Hkeys : forallb (fun e => inb e.1 TEMPLATE_COLS) optionalExtraCols = true)
    by (vm_compute; reflexivity).
  revert Hkeys out. generalize optionalExtraCols. intros l.
  induction l as [|[key cands] l IH]; intros Hkeys out Hd; simpl in *; [assumption|].
  apply andb_true_iff in Hkeys as [Hk Hkeys]. apply IH; [assumption|].
  now apply optional_keyed.
Qed.

Lemma applyExtras_lookup_ne cols row out k :
  inb k (map fst optionalExtraCols) = false ->
  applyExtras cols row out !! k = out !! k.
Proof.
  unfold applyExtras. generalize optionalExtraCols. intros l. revert out.
  induction l as [|[key cands] l IH]; intros out Hk; simpl in *; [reflexivity|].
  apply orb_false_iff in Hk as [Hk1 Hk2]. rewrite IH by assumption.
  destruct (resolved (findColByNames cols cands)); [|reflexivity].
  apply String.eqb_neq in Hk1. now rewrite lookup_insert_ne by congruence.
Qed.

Lemma baseRow_keyed cols row ctx : templateKeyed (baseRow cols row ctx).
Proof.
  unfold baseRow. apply applyExtras_keyed.
  do 3 (apply insert_keyed; [vm_compute; reflexivity|]). apply emptyRow_keyed.
Qed.

Lemma baseRow_blank cols row ctx k :
  inb k TEMPLATE_COLS = true ->
  inb k ("Title" :: handleTemplateCol :: "Description" :: map fst optionalExtraCols) = false ->
  baseRow cols row ctx !! k = Some (VStr "").
Proof.
  intros Hin Hout. simpl in Hout.
  apply orb_false_iff in Hout as [H1 Hout]. apply orb_false_iff in Hout as [H2 Hout].
  apply orb_false_iff in Hout as [H3 Hout].
  apply String.eqb_neq in H1, H2, H3.
  unfold baseRow. rewrite applyExtras_lookup_ne by assumption.
  pose proof (emptyRow_lookup k) as He. rewrite Hin in He. revert He.
  generalize emptyRow. intros e He.
  rewrite !lookup_insert_ne by congruence. assumption.
Qed.

Lemma lookup_optional_ne {A} (o : option A) (key : string) (f : A -> value)
      (m : outrow) (k : string) :
  key <> k ->
  match o with Some c => <[key := f c]> m | None => m end !! k = m !! k.
Proof. intros Hne. destruct o; [now rewrite lookup_insert_ne | reflexivity]. Qed.

Lemma insert_agree (key : string) (v : value) (m m' : outrow) (k : string) :
  m !! k = m' !! k -> <[key := v]> m !! k = <[key := v]> m' !! k.
Proof. intros H. rewrite !lookup_insert. now case_decide. Qed.

Lemma insert_agree_ne (key : string) (v v' : value) (m m' : outrow) (k : string) :
  key <> k -> m !! k = m' !! k -> <[key := v]> m !! k = <[key := v']> m' !! k.
Proof. intros Hne H. now rewrite !lookup_insert_ne. Qed.

Lemma optional_agree {A} (o : option A) (key : string) (f : A -> value)
      (m m' : outrow) (k : string) :
  m !! k = m' !! k ->
  match o with Some c => <[key := f c]> m | None => m end !! k
  = match o with Some c => <[key := f c]> m' | None => m' end !! k.
Proof. intros H. destruct o; [now apply insert_agree | assumption]. Qed.

(** rewriting a lookup at a literal key through the assignments of a row *)
Ltac peel :=
  repeat first [ rewrite lookup_insert_eq
               | rewrite lookup_insert_ne by discriminate
               | rewrite lookup_optional_ne by discriminate ].

(** exposing the assignments behind [plainRow], the extras folded away *)
Ltac open_plainRow cols row ctx :=
  unfold plainRow, variantRow; cbv zeta; simpl andb; cbv iota; unfold fst;
  match goal with |- context [applyExtras ?c ?w ?out] =>
    change (applyExtras c w out) with (baseRow cols row ctx) end.

(** the image step of the variant loop, on a finished row *)
Lemma variantRow_image cols r row ctx fv size :
  variantRow cols r row ctx fv size
  = if fv && nonEmpty (primaryImage ctx)
    then (<["Image position" := VNum 1]>
            (<["Product image URL" := VStr (primaryImage ctx)]>
               (plainRow cols r row ctx size)), false)
    else (plainRow cols r row ctx size, fv).
Proof.
  unfold plainRow, variantRow. cbv zeta. simpl andb. cbv iota. unfold fst.
  reflexivity.
Qed.

Lemma plainRow_fields cols r row ctx size :
  let out := plainRow cols r row ctx size in
  out !! "Price" = Some (VStr (priceValOf ctx))
  /\ out !! "Compare-at price" = Some (VStr (mrpPrice ctx))
  /\ out !! "Cost per item" = Some (VStr (costPrice ctx))
  /\ out !! "Option1 name" = Some (VStr (if String.eqb size "Default" then "" else "Size"))
  /\ out !! "Option1 value" = Some (VStr (if String.eqb size "Default" then "" else size))
  /\ out !! "Product image URL" = Some (VStr "")
  /\ out !! "Image position" = Some (VStr "")
  /\ out !! "Tags" = Some (VStr (join ", " (tagsOf cols r row (variants ctx)))).
Proof.
  cbv zeta.
  assert (Hb1 : baseRow cols row ctx !! "Product image URL" = Some (VStr ""))
    by (apply baseRow_blank; vm_compute; reflexivity).
  assert (Hb2 : baseRow cols row ctx !! "Image position" = Some (VStr ""))
    by (apply baseRow_blank; vm_compute; reflexivity).
  open_plainRow cols row ctx.
  revert Hb1 Hb2. generalize (baseRow cols row ctx). intros base Hb1 Hb2.
  split_ands; peel; try reflexivity; assumption.
Qed.

Lemma plainRow_agree cols r row ctx size size' k :
  k <> "Option1 name" -> k <> "Option1 value" ->
  plainRow cols r row ctx size !! k = plainRow cols r row ctx size' !! k.
Proof.
  intros H1 H2. open_plainRow cols row ctx. generalize (baseRow cols row ctx). intros base.
  repeat first [ apply insert_agree | apply optional_agree
               | apply insert_agree_ne; [congruence|] ].
  reflexivity.
Qed.

Lemma plainRow_keyed cols r row ctx size : templateKeyed (plainRow cols r row ctx size).
Proof.
  pose proof (baseRow_keyed cols row ctx) as Hb. open_plainRow cols row ctx.
  revert Hb. generalize (baseRow cols row ctx). intros base Hb.
  repeat first [ apply insert_keyed; [vm_compute; reflexivity|]
               | apply optional_keyed; [vm_compute; reflexivity|] ].
  assumption.
Qed.

(** *** The rows of one record *)

Lemma variantRows_plain cols r row ctx fv sizes :
  fv && nonEmpty (primaryImage ctx) = false ->
  variantRows cols r row ctx fv sizes = map (plainRow cols r row ctx) sizes.
Proof.
  intros Hfv. induction sizes as [|size rest IH]; simpl; [reflexivity|].
  rewrite variantRow_image, Hfv. now rewrite IH.
Qed.

Lemma variantRows_lookup cols r row ctx sizes i size :
  sizes !! i = Some size ->
  variantRows cols r row ctx true sizes !! i
  = Some (withPrimary ctx i (plainRow cols r row ctx size)).
Proof.
  intros Hi. destruct sizes as [|s0 rest]; [discriminate|]. simpl.
  rewrite variantRow_image. unfold withPrimary. simpl andb.
  destruct (nonEmpty (primaryImage ctx)) eqn:Hp.
  - destruct i as [|i]; simpl in *.
    + now inversion Hi.
    + rewrite variantRows_plain by reflexivity.
      rewrite list_lookup_fmap, Hi. reflexivity.
  - rewrite variantRows_plain by (rewrite Hp; apply andb_false_r).
    rewrite andb_false_r. destruct i as [|i]; simpl in *.
    + now inversion Hi.
    + rewrite list_lookup_fmap, Hi. reflexivity.
Qed.

Lemma imageRows_lookup ctx pos extra j url :
  extra !! j = Some url ->
  imageRows ctx pos extra !! j = Some (imageRow ctx url (pos + Z.of_nat j)).
Proof.
  revert pos j. induction extra as [|u rest IH]; intros pos j Hj; [discriminate|].
  destruct j as [|j]; simpl in *.
  - inversion Hj. subst. now rewrite Z.add_0_r.
  - rewrite (IH _ _ Hj). do 2 f_equal. lia.
Qed.

Lemma pushImage_nonEmpty images url :
  Forall (fun u => nonEmpty u = true) images ->
  Forall (fun u => nonEmpty u = true) (pushImage images url).
Proof.
  intros H. unfold pushImage, usable.
  destruct (nonEmpty url) eqn:Hu; simpl; [|assumption].
  destruct (_ && _); [|assumption].
  apply Forall_app. split; [assumption|]. now constructor.
Qed.

Lemma columnImages_nonEmpty imageCols row :
  Forall (fun u => nonEmpty u = true) (columnImages imageCols row).
Proof.
  unfold columnImages.
  assert (H : forall acc, Forall (fun u => nonEmpty u = true) acc ->
              Forall (fun u => nonEmpty u = true)
                (fold_left (fun images ic => pushImage images (trim (cell row ic)))
                           imageCols acc)).
  { induction imageCols as [|ic l IH]; intros acc Hacc; simpl; [assumption|].
    apply IH. now apply pushImage_nonEmpty. }
  apply H. constructor.
Qed.

Lemma imagesOf_nonEmpty r row : Forall (fun u => nonEmpty u = true) (imagesOf r row).
Proof.
  unfold imagesOf. pose proof (columnImages_nonEmpty (imageCols r) row) as H.
  destruct (resolved (sizeChartCol r)); [now apply pushImage_nonEmpty | assumption].
Qed.

Lemma primaryImage_nonEmpty r row :
  nonEmpty (primaryImage (contextOf r row)) = negb (Nat.eqb (imageCount r row) 0).
Proof.
  unfold primaryImage, imageCount. simpl.
  pose proof (imagesOf_nonEmpty r row) as H.
  destruct (imagesOf r row) as [|u l]; [reflexivity|]. simpl.
  now inversion H.
Qed.

Lemma processRecord_variant cols r row i size :
  skipped r row = false ->
  variantsOf (sizeCols r) row !! i = Some size ->
  processRecord cols r row !! i
  = Some (withPrimary (contextOf r row) i (plainRow cols r row (contextOf r row) size)).
Proof.
  intros Hs Hi. unfold processRecord. rewrite Hs.
  rewrite lookup_app_l.
  - now apply variantRows_lookup.
  - rewrite variantRows_length. simpl. now apply lookup_lt_Some in Hi.
Qed.

Lemma processRecord_image cols r row j url :
  skipped r row = false ->
  imagesOf r row !! S j = Some url ->
  processRecord cols r row !! (length (variantsOf (sizeCols r) row) + j)
  = Some (imageRow (contextOf r row) url (2 + Z.of_nat j)).
Proof.
  intros Hs Hj. unfold processRecord. rewrite Hs.
  rewrite lookup_app_r; rewrite variantRows_length; simpl; [|lia].
  replace (_ + j - _) with j by lia.
  apply imageRows_lookup. change (images (contextOf r row)) with (imagesOf r row).
  destruct (imagesOf r row); [discriminate | assumption].
Qed.

Lemma imageRow_lookup ctx url pos k :
  imageRow ctx url pos !! k
  = if decide (k = "Image position") then Some (VNum pos)
    else if decide (k = "Product image URL") then Some (VStr url)
    else if decide (k = "URL handle") then Some (VStr (handleBase ctx))
    else if decide (k ∈ TEMPLATE_COLS) then Some (VStr "") else None.
Proof.
  unfold imageRow, handleTemplateCol. cbv zeta.
  generalize (emptyRow_lookup k). generalize emptyRow. intros e He.
  destruct (decide (k = "Image position")) as [->|H1]; [now rewrite lookup_insert_eq|].
  rewrite lookup_insert_ne by congruence.
  destruct (decide (k = "Product image URL")) as [->|H2]; [now rewrite lookup_insert_eq|].
  rewrite lookup_insert_ne by congruence.
  destruct (decide (k = "URL handle")) as [->|H3]; [now rewrite lookup_insert_eq|].
  rewrite lookup_insert_ne by congruence.
  rewrite He. destruct (inb k TEMPLATE_COLS) eqn:Hin; case_decide as Hd; try reflexivity.
  - apply inb_template in Hin. contradiction.
  - apply inb_template in Hd. congruence.
Qed.

Lemma withPrimary_agree ctx i out k :
  k <> "Product image URL" -> k <> "Image position" ->
  withPrimary ctx i out !! k = out !! k.
Proof.
  intros H1 H2. unfold withPrimary. destruct (_ && _); [|reflexivity].
  now rewrite !lookup_insert_ne by congruence.
Qed.

Lemma withPrimary_keyed ctx i out : templateKeyed out -> templateKeyed (withPrimary ctx i out).
Proof.
  intros H. unfold withPrimary. destruct (_ && _); [|assumption].
  do 2 (apply insert_keyed; [vm_compute; reflexivity|]). assumption.
Qed.

Lemma imageRow_keyed ctx url pos : templateKeyed (imageRow ctx url pos).
Proof.
  unfold imageRow. cbv zeta.
  do 3 (apply insert_keyed; [vm_compute; reflexivity|]). apply emptyRow_keyed.
Qed.

Lemma processRecord_keyed cols r row : Forall templateKeyed (processRecord cols r row).
Proof.
  unfold processRecord. destruct (skipped r row); [constructor|].
  apply Forall_app. split.
  - generalize true. induction (variants (contextOf r row)) as [|s l IH]; intros fv; simpl;
      [constructor|].
    rewrite variantRow_image. destruct (_ && _); constructor; try apply IH.
    + do 2 (apply insert_keyed; [vm_compute; reflexivity|]). apply plainRow_keyed.
    + apply plainRow_keyed.
  - generalize 2%Z. induction (tail _) as [|u l IH]; intros pos; simpl; constructor.
    + apply imageRow_keyed.
    + apply IH.
Qed.

(** *** The template schema *)

Lemma append_empty_r (x : string) : x +:+ "" = x.
Proof.
  induction x as [|c x IH]; [reflexivity|].
  change (String c x +:+ "") with (String c (x +:+ "")). now rewrite IH.
Qed.

Lemma join_cons (sep x : string) (l : list string) :
  join sep (x :: l) = x +:+ match l with [] => "" | _ => sep +:+ join sep l end.
Proof. destruct l; simpl; [now rewrite append_empty_r | reflexivity]. Qed.

Lemma safe_template : map safe TEMPLATE_COLS = TEMPLATE_COLS.
Proof. vm_compute. reflexivity. Qed.

(** C2, as the program has it.  The template has 65 keys (not 67), all
    distinct.  A fresh row holds the empty string under each of them and
    every row a record produces is keyed by exactly these 65 columns.  The
    file written for a table that is not empty starts with the template as
    its header line, whatever the sheet's header row resolves to; when the
    sheet yields output rows, the file has one line per output row after
    the header, each of 65 fields; when it yields none, the header line is
    followed by a line break and an empty line.  For an empty table the
    file is empty. *)
Theorem template_schema :
  length TEMPLATE_COLS = 65
  /\ NoDup TEMPLATE_COLS
  /\ Forall (fun k => emptyRow !! k = Some (VStr "")) TEMPLATE_COLS
  /\ templateKeyed emptyRow
  /\ (forall cols r row, Forall templateKeyed (processRecord cols r row))
  /\ (forall draw line rest,
        let rawData := line :: rest in
        let outRows := outRowsOf draw rawData in
        let grid := csvGrid TEMPLATE_COLS outRows in
        processSingleFile draw (ParseComplete rawData)
        = Resolved (unparse TEMPLATE_COLS outRows)
        /\ head grid = Some TEMPLATE_COLS
        /\ (outRows <> [] ->
            length grid = S (length outRows)
            /\ Forall (fun fields => length fields = 65) grid)
        /\ (outRows = [] ->
            grid = [TEMPLATE_COLS; []]
            /\ unparse TEMPLATE_COLS outRows = join "," TEMPLATE_COLS +:+ newline)
        /\ exists rest, unparse TEMPLATE_COLS outRows
                        = join "," TEMPLATE_COLS +:+ rest)
  /\ (forall draw, processSingleFile draw (ParseComplete []) = Resolved "").
Proof.
  split; [reflexivity|].
  split; [apply (bool_decide_unpack _); vm_compute; exact I|].
  split.
  { apply Forall_forall. intros k Hk. rewrite emptyRow_lookup.
    apply inb_template in Hk. now rewrite Hk. }
  split; [apply emptyRow_keyed|].
  split; [apply processRecord_keyed|].
  split; [|reflexivity].
  intros draw line rest rawData outRows grid.
  split; [reflexivity|]. split; [reflexivity|].
  unfold grid. clearbody outRows. clear grid. split_ands.
  - intros Hne. destruct outRows as [|out data]; [contradiction|].
    change (csvGrid TEMPLATE_COLS (out :: data))
      with (TEMPLATE_COLS
              :: map (fun row => map (fun f => fieldText (row !! f)) TEMPLATE_COLS)
                     (out :: data)).
    split; [simpl; now rewrite length_map|].
    constructor; [reflexivity|]. apply Forall_fmap, Forall_forall. intros row _.
    unfold compose. rewrite length_map. reflexivity.
  - intros ->. split; [reflexivity | vm_compute; reflexivity].
  - unfold unparse.
    assert (Hgrid : exists lines, csvGrid TEMPLATE_COLS outRows = TEMPLATE_COLS :: lines)
      by (destruct outRows; eexists; reflexivity).
    destruct Hgrid as [lines ->].
    rewrite map_cons, join_cons, safe_template. eexists. reflexivity.
Qed.

(** C2 as stated fails: the template schema has 65 keys, not 67. *)
Lemma template_not_67_keys :
  length TEMPLATE_COLS <> 67 /\ size (dom emptyRow) <> 67.
Proof.
  split; [vm_compute; discriminate|].
  rewrite emptyRow_keyed, size_list_to_set.
  - vm_compute. discriminate.
  - apply (bool_decide_unpack _). vm_compute. exact I.
Qed.

(** *** Row layout *)

(** C6. On every variant row of a record the Price is the rounded cleaned
    selling price when that is not empty, else the rounded cleaned cost
    when that is not empty, else blank; Compare-at price is the cleaned MRP
    and Cost per item the cleaned cost, neither rounded. *)
Theorem price_fields (cols : list string) (r : roles) (row : record)
        (i : nat) (size : string) :
  skipped r row = false ->
  variantsOf (sizeCols r) row !! i = Some size ->
  let selling := priceOf (finalCol r) row in
  let mrp := priceOf (mrpCol r) row in
  let cost := priceOf (costCol r) row in
  exists out,
    processRecord cols r row !! i = Some out
    /\ out !! "Price"
       = Some (VStr (if nonEmpty selling then roundToNearest9 selling
                     else if nonEmpty cost then roundToNearest9 cost
                     else ""))
    /\ out !! "Compare-at price" = Some (VStr mrp)
    /\ out !! "Cost per item" = Some (VStr cost).
Proof.
  intros Hs Hi selling mrp cost. eexists. split; [apply processRecord_variant; eassumption|].
  rewrite !withPrimary_agree by discriminate.
  destruct (plainRow_fields cols r row (contextOf r row) size) as (Hp & Hm & Hc & _).
  rewrite Hp, Hm, Hc. unfold priceValOf, fallbackPriceToCost. simpl.
  fold selling cost mrp. now rewrite andb_true_r.
Qed.

Lemma price_fields_witness :
  skipped pricedRoles pricedRow = false
  /\ variantsOf (sizeCols pricedRoles) pricedRow !! 1 = Some "S"
  /\ priceOf (finalCol pricedRoles) pricedRow = "1234.50"
  /\ exists out,
       processRecord sampleCols pricedRoles pricedRow !! 1 = Some out
       /\ out !! "Price" = Some (VStr "1229")
       /\ out !! "Compare-at price" = Some (VStr "1500")
       /\ out !! "Cost per item" = Some (VStr "800").
Proof.
  split; [vm_compute; reflexivity|]. split; [vm_compute; reflexivity|].
  split; [vm_compute; reflexivity|].
  exact (price_fields sampleCols pricedRoles pricedRow 1 "S"
                      ltac:(vm_compute; reflexivity) ltac:(vm_compute; reflexivity)).
Defined.

(** C3, as the program has it.  Every variant row carries the Option1
    fields of its own variant (both blank for ["Default"]); only the first
    row carries the primary image, at position 1, when the record has an
    image; the variant rows agree on every other field; the trailing rows,
    one per further image, carry only the handle, the image URL and a
    position counting from 2. *)
Theorem row_layout (cols : list string) (r : roles) (row : record) :
  skipped r row = false ->
  let sizes := variantsOf (sizeCols r) row in
  let imgs := imagesOf r row in
  let rows := processRecord cols r row in
  (forall i size, sizes !! i = Some size ->
     exists out first,
       rows !! i = Some out /\ rows !! 0 = Some first
       /\ out !! "Option1 name"
          = Some (VStr (if String.eqb size "Default" then "" else "Size"))
       /\ out !! "Option1 value"
          = Some (VStr (if String.eqb size "Default" then "" else size))
       /\ out !! "Product image URL" = Some (VStr (if i =? 0 then hd "" imgs else ""))
       /\ out !! "Image position"
          = Some (match i, imgs with 0, _ :: _ => VNum 1 | _, _ => VStr "" end)
       /\ (forall k, ~ In k variantFields -> out !! k = first !! k))
  /\ (forall j url, imgs !! S j = Some url ->
        exists out,
          rows !! (length sizes + j) = Some out
          /\ forall k,
               out !! k
               = if decide (k = "Image position") then Some (VNum (2 + Z.of_nat j))
                 else if decide (k = "Product image URL") then Some (VStr url)
                 else if decide (k = "URL handle") then Some (VStr (slugify (titleOf r row)))
                 else if decide (k ∈ TEMPLATE_COLS) then Some (VStr "") else None)
  /\ length rows = length sizes + (length imgs - 1).
Proof.
  intros Hs sizes imgs rows. split; [|split].
  - intros i size Hi.
    assert (H0 : exists s0, sizes !! 0 = Some s0).
    { destruct sizes as [|s0 l]; [discriminate | now exists s0]. }
    destruct H0 as [s0 H0].
    eexists. eexists. split; [apply processRecord_variant; eassumption|].
    split; [apply processRecord_variant; eassumption|].
    assert (Himg : primaryImage (contextOf r row) = hd "" imgs)
      by (unfold primaryImage, imgs; simpl; now destruct (imagesOf r row)).
    set (ctx := contextOf r row) in *.
    destruct (plainRow_fields cols r row ctx size) as (_ & _ & _ & Hn & Hv & Hu & Hp & _).
    pose proof (primaryImage_nonEmpty r row) as Hne. fold ctx in Hne.
    rewrite !withPrimary_agree by discriminate.
    split; [exact Hn|]. split; [exact Hv|].
    unfold imageCount in Hne. fold imgs in Hne.
    split; [|split].
    + unfold withPrimary. rewrite Hne.
      destruct i, imgs; simpl; peel; rewrite ?Hu; try reflexivity.
      now rewrite Himg.
    + unfold withPrimary. rewrite Hne.
      destruct i, imgs; simpl; peel; rewrite ?Hp; reflexivity.
    + intros k Hk. simpl in Hk.
      assert (k <> "Option1 name" /\ k <> "Option1 value"
              /\ k <> "Product image URL" /\ k <> "Image position") as (K1 & K2 & K3 & K4)
          by (split_ands; intros ->; tauto).
      rewrite !withPrimary_agree by assumption. now apply plainRow_agree.
  - intros j url Hj. eexists. split; [apply processRecord_image; eassumption|].
    intros k. apply imageRow_lookup.
  - now apply processRecord_length.
Qed.

Lemma row_layout_witness :
  skipped sampleRoles sampleRow = false
  /\ (exists out, processRecord sampleCols sampleRoles sampleRow !! 1 = Some out
                  /\ out !! "Option1 value" = Some (VStr "S")
                  /\ out !! "Image position" = Some (VStr ""))
  /\ (exists out, processRecord sampleCols sampleRoles sampleRow !! 3 = Some out
                  /\ out !! "Image position" = Some (VNum 3)).
Proof.
  split; [vm_compute; reflexivity|].
  destruct (row_layout sampleCols sampleRoles sampleRow ltac:(vm_compute; reflexivity))
    as (Hv & Hi & _).
  split.
  - destruct (Hv 1 "S" ltac:(vm_compute; reflexivity))
      as (out & first & Ho & _ & _ & Hval & _ & Hpos & _).
    exists out. split_ands; assumption.
  - destruct (Hi 1 "http://img/chart.png" ltac:(vm_compute; reflexivity)) as (out & Ho & Hk).
    exists out. split; [exact Ho|]. rewrite Hk. reflexivity.
Defined.

(** C3 as stated fails: a later variant row carries Option1 fields too. *)
Lemma later_variant_row_has_option1 :
  field (processRecord sampleCols sampleRoles sampleRow) 1 "Option1 name"
  = Some (VStr "Size")
  /\ field (processRecord sampleCols sampleRoles sampleRow) 1 "Option1 value"
     = Some (VStr "S").
Proof. split; vm_compute; reflexivity. Qed.

Lemma field_lookup (rows : list outrow) (i : nat) (out : outrow) (k : string) :
  rows !! i = Some out -> field rows i k = out !! k.
Proof. intros H. unfold field. now rewrite H. Qed.

Lemma variantsOf_first (sizeCols : list string) (row : record) :
  exists s0, variantsOf sizeCols row !! 0 = Some s0.
Proof.
  pose proof (variantsOf_length sizeCols row) as Hl.
  destruct (variantsOf sizeCols row) as [|s0 t]; [simpl in Hl; lia | now exists s0].
Qed.

Lemma first_row_image cols r row :
  skipped r row = false ->
  field (processRecord cols r row) 0 "Product image URL"
  = Some (VStr (hd "" (imagesOf r row)))
  /\ field (processRecord cols r row) 0 "Image position"
     = Some (match imagesOf r row with [] => VStr "" | _ :: _ => VNum 1 end).
Proof.
  intros Hs. destruct (variantsOf_first (sizeCols r) row) as [s0 H0].
  rewrite !(field_lookup _ _ _ _ (processRecord_variant cols r row 0 s0 Hs H0)).
  destruct (plainRow_fields cols r row (contextOf r row) s0) as (_&_&_&_&_& Hu & Hp & _).
  pose proof (primaryImage_nonEmpty r row) as Hne. unfold imageCount in Hne.
  unfold withPrimary. rewrite Hne. unfold primaryImage. simpl images.
  destruct (imagesOf r row); simpl; peel; split; assumption || reflexivity.
Qed.

(** *** The size chart *)

Lemma usable_iff (v : string) : usable v = true <-> v <> "" /\ toLowerCase v <> "nan".
Proof.
  unfold usable. rewrite andb_true_iff, nonEmpty_true, negb_true_iff.
  now rewrite String.eqb_neq.
Qed.

Lemma inb_false (x : string) (l : list string) : inb x l = false <-> ~ In x l.
Proof.
  rewrite <- inb_In. destruct (inb x l); split; intros H; congruence.
Qed.

(** C10. When the size-chart column is resolved and its trimmed cell is not
    empty, not ["nan"] in any letter case, and not among the URLs of the
    image columns, it is appended after those URLs and so counts as one
    more image: with no URL from the image columns it is the primary image
    of the first row, otherwise it fills the last trailing image row. *)
Theorem size_chart_image (cols : list string) (r : roles) (row : record) (c : string) :
  resolved (sizeChartCol r) = Some c ->
  let url := trim (cell row c) in
  let fromColumns := columnImages (imageCols r) row in
  url <> "" -> toLowerCase url <> "nan" -> ~ In url fromColumns ->
  skipped r row = false ->
  let rows := processRecord cols r row in
  imagesOf r row = fromColumns ++ [url]
  /\ imageCount r row = length fromColumns + 1
  /\ match fromColumns with
     | [] => field rows 0 "Product image URL" = Some (VStr url)
             /\ field rows 0 "Image position" = Some (VNum 1)
     | _ :: _ => field rows (length rows - 1) "Product image URL" = Some (VStr url)
                 /\ field rows (length rows - 1) "Image position"
                    = Some (VNum (Z.of_nat (length fromColumns) + 1))
                 /\ field rows (length rows - 1) "Title" = Some (VStr "")
     end.
Proof.
  intros Hc url fromColumns Hne Hnan Hnew Hs rows.
  assert (Himgs : imagesOf r row = fromColumns ++ [url]).
  { unfold imagesOf. rewrite Hc. fold url fromColumns. unfold pushImage.
    replace (usable url) with true by (symmetry; now apply usable_iff).
    replace (inb url fromColumns) with false by (symmetry; now apply inb_false).
    reflexivity. }
  split; [exact Himgs|]. split; [unfold imageCount; rewrite Himgs, length_app; reflexivity|].
  pose proof (processRecord_length cols r row Hs) as Hlen. fold rows in Hlen.
  rewrite Himgs in Hlen.
  destruct fromColumns as [|u l] eqn:Hfc.
  - destruct (first_row_image cols r row Hs) as [Hu Hp]. fold rows in Hu, Hp.
    rewrite Himgs in Hu, Hp. split; assumption.
  - assert (Hj : imagesOf r row !! S (length l) = Some url).
    { rewrite Himgs. change (S (length l)) with (length (u :: l)).
      rewrite lookup_app_r by lia. now rewrite Nat.sub_diag. }
    pose proof (processRecord_image cols r row (length l) url Hs Hj) as Ho.
    fold rows in Ho. rewrite length_app in Hlen. simpl in Hlen.
    replace (length rows - 1) with (length (variantsOf (sizeCols r) row) + length l) by lia.
    rewrite !(field_lookup _ _ _ _ Ho), !imageRow_lookup.
    split_ands; try reflexivity. simpl. do 2 f_equal. lia.
Qed.

Lemma size_chart_image_witness :
  resolved (sizeChartCol sampleRoles) = Some "Size chart"
  /\ imagesOf sampleRoles sampleRow
     = ["http://img/a.png"; "http://img/b.png"; "http://img/chart.png"]
  /\ field (processRecord sampleCols sampleRoles sampleRow) 3 "Product image URL"
     = Some (VStr "http://img/chart.png").
Proof.
  split; [vm_compute; reflexivity|].
  destruct (size_chart_image sampleCols sampleRoles sampleRow "Size chart"
              ltac:(vm_compute; reflexivity) ltac:(vm_compute; discriminate)
              ltac:(vm_compute; discriminate) ltac:(vm_compute; intuition discriminate)
              ltac:(vm_compute; reflexivity)) as (Himgs & _ & Hrow).
  split; [exact Himgs|]. exact (proj1 Hrow).
Defined.

(** *** Tags *)

Lemma pushNew_incl (x y : string) (l : list string) : In y l -> In y (pushNew x l).
Proof.
  intros H. unfold pushNew. destruct (inb x l); [assumption|].
  apply in_or_app. now left.
Qed.

Lemma pushNew_In (x : string) (l : list string) : In x (pushNew x l).
Proof.
  unfold pushNew. destruct (inb x l) eqn:E.
  - now apply inb_In.
  - apply in_or_app. right. now left.
Qed.

Lemma pushNew_NoDup (x : string) (l : list string) :
  List.NoDup l -> List.NoDup (pushNew x l).
Proof.
  intros H. unfold pushNew. destruct (inb x l) eqn:E; [assumption|].
  apply inb_false in E. apply NoDup_ListNoDup, NoDup_app.
  split; [now apply NoDup_ListNoDup|]. split.
  - intros y Hy Hx. apply list_elem_of_In in Hy. apply list_elem_of_singleton in Hx.
    subst. contradiction.
  - apply NoDup_singleton.
Qed.

Lemma fold_pushNew_incl (ts l : list string) (y : string) :
  In y l -> In y (fold_left (fun tags t => pushNew t tags) ts l).
Proof.
  revert l. induction ts as [|t ts IH]; intros l H; simpl; [assumption|].
  apply IH. now apply pushNew_incl.
Qed.

Lemma fold_pushNew_In (ts l : list string) (y : string) :
  In y ts -> In y (fold_left (fun tags t => pushNew t tags) ts l).
Proof.
  revert l. induction ts as [|t ts IH]; intros l H; simpl; [contradiction|].
  destruct H as [->|H].
  - apply fold_pushNew_incl, pushNew_In.
  - now apply IH.
Qed.

Lemma fold_pushNew_inv (ts l : list string) (y : string) :
  In y (fold_left (fun tags t => pushNew t tags) ts l) -> In y ts \/ In y l.
Proof.
  revert l. induction ts as [|t ts IH]; intros l H; simpl in *; [now right|].
  apply IH in H as [H|H]; [now left; right|].
  unfold pushNew in H. destruct (inb t l); [now right|].
  apply in_app_or in H as [H|[->|[]]]; [now right | now left; left].
Qed.

Lemma fold_pushNew_NoDup (ts l : list string) :
  List.NoDup l -> List.NoDup (fold_left (fun tags t => pushNew t tags) ts l).
Proof.
  revert l. induction ts as [|t ts IH]; intros l H; simpl; [assumption|].
  apply IH. now apply pushNew_NoDup.
Qed.

Lemma dedupe_In (l : list string) (y : string) : In y (dedupe l) <-> In y l.
Proof.
  unfold dedupe. split.
  - intros H. apply fold_pushNew_inv in H as [H|[]]. assumption.
  - apply fold_pushNew_In.
Qed.

Lemma dedupe_NoDup (l : list string) : List.NoDup (dedupe l).
Proof. apply fold_pushNew_NoDup. constructor. Qed.

Lemma flagTags_incl (row : record) (tags : list string) (col y : string) :
  In y tags -> In y (flagTags row tags col).
Proof.
  intros H. unfold flagTags.
  repeat match goal with
         | |- In _ (if ?c then _ else _) => destruct c
         end; repeat apply pushNew_incl; assumption.
Qed.

Lemma fold_flagTags_incl (row : record) (cols tags : list string) (y : string) :
  In y tags -> In y (fold_left (flagTags row) cols tags).
Proof.
  revert tags. induction cols as [|c cols IH]; intros tags H; simpl; [assumption|].
  apply IH. now apply flagTags_incl.
Qed.

Lemma flagTags_boy (row : record) (tags : list string) :
  isValueOne (row !! "Boy") = true -> In "Boy" (flagTags row tags "Boy").
Proof.
  intros H. unfold flagTags. rewrite H.
  change (In "Boy" (pushNew "Boy" tags)). apply pushNew_In.
Qed.

Lemma fold_flagTags_boy (row : record) (cols tags : list string) :
  In "Boy" cols -> isValueOne (row !! "Boy") = true ->
  In "Boy" (fold_left (flagTags row) cols tags).
Proof.
  intros Hin Hone. revert tags. induction cols as [|c cols IH]; intros tags; simpl;
    [contradiction|].
  destruct Hin as [->|Hin].
  - apply fold_flagTags_incl. now apply flagTags_boy.
  - now apply IH.
Qed.

Lemma scanPatterns_incl tags tag variant patterns y :
  In y tags -> In y (scanPatterns tags tag variant patterns).
Proof.
  intros H. induction patterns as [|p ps IH]; simpl; [assumption|].
  destruct (patternMatches variant p); [now apply pushNew_incl | assumption].
Qed.

Lemma scanPatterns_hit tags tag variant patterns :
  existsb (patternMatches variant) patterns = true ->
  In tag (scanPatterns tags tag variant patterns).
Proof.
  induction patterns as [|p ps IH]; simpl; [discriminate|].
  destruct (patternMatches variant p); [intros _; apply pushNew_In | exact IH].
Qed.

Lemma scanVariants_incl tags group variants y :
  In y tags -> In y (scanVariants tags group variants).
Proof.
  revert tags. induction variants as [|v vs IH]; intros tags H; simpl; [assumption|].
  destruct (nonEmpty v); simpl; [|now apply IH].
  destruct (inb _ _); [|apply IH]; now apply scanPatterns_incl.
Qed.

Lemma scanVariants_hit tags group variants v :
  In v variants -> nonEmpty v = true ->
  existsb (patternMatches v) (patterns group) = true ->
  In (tag group) (scanVariants tags group variants).
Proof.
  intros Hin Hne Hhit. revert tags.
  induction variants as [|w ws IH]; intros tags; simpl; [contradiction|].
  destruct (nonEmpty w) eqn:Hw; simpl.
  - destruct (inb (tag group) (scanPatterns tags (tag group) w (patterns group))) eqn:Hi.
    + now apply inb_In.
    + destruct Hin as [->|Hin]; [|now apply IH].
      apply inb_false in Hi. exfalso. apply Hi. now apply scanPatterns_hit.
  - destruct Hin as [->|Hin]; [congruence | now apply IH].
Qed.

Lemma fold_scanVariants_incl groups variants tags y :
  In y tags ->
  In y (fold_left (fun tags group => scanVariants tags group variants) groups tags).
Proof.
  revert tags. induction groups as [|g gs IH]; intros tags H; simpl; [assumption|].
  apply IH. now apply scanVariants_incl.
Qed.

Lemma ageGroupTagsFor_hit groups variants group v :
  In group groups -> In v variants ->
  nonEmpty v && negb (String.eqb v "Default") = true ->
  nonEmpty (normalizeSizeForMatching v) = true ->
  existsb (patternMatches (normalizeSizeForMatching v)) (patterns group) = true ->
  In (tag group) (ageGroupTagsFor groups variants).
Proof.
  intros Hg Hv Hkeep Hne Hhit. unfold ageGroupTagsFor.
  set (nv := map normalizeSizeForMatching _).
  assert (Hnv : In (normalizeSizeForMatching v) nv).
  { apply in_map, filter_In. now split. }
  generalize (@nil string).
  induction groups as [|g gs IH]; intros tags; simpl; [contradiction|].
  destruct Hg as [->|Hg].
  - apply fold_scanVariants_incl. now apply scanVariants_hit with (v := normalizeSizeForMatching v).
  - now apply IH.
Qed.

(** the brackets a ["2-4M"] variant falls in *)
Lemma boy_brackets_of_2_4M (variants : list string) :
  In "2-4M" variants ->
  In "Boy 0-3m" (getBoyAgeGroupTags variants)
  /\ In "Boy 3-6m" (getBoyAgeGroupTags variants).
Proof.
  intros H. split.
  - apply (ageGroupTagsFor_hit boyAgeGroups variants
             {| tag := "Boy 0-3m"; patterns := ["nb"; "0-2m"; "2-4m"; "0-3m"; "0-6m"] |} "2-4M");
      try (vm_compute; reflexivity); [simpl; tauto | assumption].
  - apply (ageGroupTagsFor_hit boyAgeGroups variants
             {| tag := "Boy 3-6m"; patterns := ["2-4m"; "4-6m"; "3-6m"; "0-6m"] |} "2-4M");
      try (vm_compute; reflexivity); [simpl; tauto | assumption].
Qed.

Lemma rawTags_boy cols r row variants :
  In "Boy" cols -> isValueOne (row !! "Boy") = true -> In "2-4M" variants ->
  let tags := rawTagsOf cols r row variants in
  In "Boy" tags /\ In "Boy 0-3m" tags /\ In "Boy 3-6m" tags.
Proof.
  intros Hcol Hone Hv. unfold rawTagsOf. cbv zeta.
  set (t0 := fold_left (pushCellTag row) _ _).
  pose proof (fold_flagTags_boy row cols t0 Hcol Hone) as Hboy.
  set (t1 := fold_left (flagTags row) cols t0) in *.
  apply inb_In in Hboy as Hb. rewrite Hb.
  destruct (boy_brackets_of_2_4M variants Hv) as [H03 H36].
  set (t2 := fold_left _ (getBoyAgeGroupTags variants) t1).
  assert (H2 : In "Boy" t2 /\ In "Boy 0-3m" t2 /\ In "Boy 3-6m" t2).
  { split_ands; [now apply fold_pushNew_incl | now apply fold_pushNew_In ..]. }
  destruct H2 as (A & B & C).
  destruct (inb "Girl" t2); [|now split_ands].
  split_ands; now apply fold_pushNew_incl.
Qed.

(** C7. A record whose column "Boy" holds the value 1 and whose variant
    list has "2-4M" gets the tag "Boy" and the tags of both the 0-3m and the
    3-6m bracket, each once; these are the tags written to its rows. *)
Theorem boy_age_tags (cols : list string) (r : roles) (row : record) :
  In "Boy" cols ->
  isValueOne (row !! "Boy") = true ->
  In "2-4M" (variantsOf (sizeCols r) row) ->
  let tags := tagsOf cols r row (variantsOf (sizeCols r) row) in
  In "Boy" tags
  /\ count_occ string_dec tags "Boy 0-3m" = 1
  /\ count_occ string_dec tags "Boy 3-6m" = 1
  /\ (skipped r row = false ->
      field (processRecord cols r row) 0 "Tags" = Some (VStr (join ", " tags))).
Proof.
  intros Hcol Hone Hv tags.
  destruct (rawTags_boy cols r row _ Hcol Hone Hv) as (A & B & C).
  pose proof (dedupe_NoDup (rawTagsOf cols r row (variantsOf (sizeCols r) row))) as Hnd.
  fold (tagsOf cols r row (variantsOf (sizeCols r) row)) in Hnd. fold tags in Hnd.
  pose proof (proj1 (NoDup_count_occ' string_dec tags) Hnd) as Hc.
  split; [now apply dedupe_In|]. split; [now apply Hc, dedupe_In|].
  split; [now apply Hc, dedupe_In|].
  intros Hs.
  assert (H0 : exists s0, variantsOf (sizeCols r) row !! 0 = Some s0).
  { destruct (variantsOf (sizeCols r) row) as [|s0 t]; [contradiction | now exists s0]. }
  destruct H0 as [s0 H0]. unfold field.
  rewrite (processRecord_variant cols r row 0 s0 Hs H0). simpl.
  rewrite withPrimary_agree by discriminate.
  now destruct (plainRow_fields cols r row (contextOf r row) s0) as (_&_&_&_&_&_&_&Ht).
Qed.

Lemma boy_age_tags_witness :
  In "Boy" sampleCols
  /\ isValueOne (sampleRow !! "Boy") = true
  /\ In "2-4M" (variantsOf (sizeCols sampleRoles) sampleRow)
  /\ count_occ string_dec
       (tagsOf sampleCols sampleRoles sampleRow (variantsOf (sizeCols sampleRoles) sampleRow))
       "Boy 3-6m" = 1.
Proof.
  assert (H1 : In "Boy" sampleCols) by (simpl; tauto).
  assert (H2 : isValueOne (sampleRow !! "Boy") = true) by (vm_compute; reflexivity).
  assert (H3 : In "2-4M" (variantsOf (sizeCols sampleRoles) sampleRow))
    by (vm_compute; tauto).
  split_ands; try assumption.
  exact (proj1 (proj2 (proj2 (boy_age_tags sampleCols sampleRoles sampleRow H1 H2 H3)))).
Defined.

(** *** The title column *)

Lemma allDigits_iff (s : string) : allDigits s = true <-> pureDigits s.
Proof.
  unfold allDigits, pureDigits.
  rewrite andb_true_iff, nonEmpty_true, forallb_forall, List.Forall_forall.
  reflexivity.
Qed.

Lemma hasTextSample_false (df : list record) (c : string) :
  hasTextSample df c = false <-> ~ qualifiesAsTitle df c.
Proof.
  unfold hasTextSample, qualifiesAsTitle. fold (sampleValues df c).
  induction (sampleValues df c) as [|v vs IH]; simpl.
  - split; [intros _ H; apply H; constructor | reflexivity].
  - rewrite orb_false_iff, IH. split.
    + intros [Hv Hvs] H. apply Hvs. intros Hall. apply H. constructor; [|assumption].
      apply andb_false_iff in Hv as [Hv|Hv].
      * left. now apply nonEmpty_false.
      * right. apply allDigits_iff. now apply negb_false_iff.
    + intros H. split.
      * destruct (nonEmpty v) eqn:Hne; [|reflexivity]. simpl.
        destruct (allDigits v) eqn:Hd; [reflexivity|]. exfalso. apply H. intros Hall.
        apply Forall_cons in Hall as [[Hv|Hv] _].
        -- apply nonEmpty_true in Hne. contradiction.
        -- apply allDigits_iff in Hv. congruence.
      * intros Hq. apply H. intros Hall. apply Hq. now apply Forall_cons in Hall as [_ ?].
Qed.

Lemma hasTextSample_true (df : list record) (c : string) :
  hasTextSample df c = true <-> qualifiesAsTitle df c.
Proof.
  destruct (hasTextSample df c) eqn:E.
  - split; [intros _ | reflexivity]. intros Hall.
    assert (hasTextSample df c = false)
      by (apply hasTextSample_false; unfold qualifiesAsTitle; tauto).
    congruence.
  - apply hasTextSample_false in E. split; [discriminate | contradiction].
Qed.

Lemma firstSome_first {A} (p : A -> bool) (pre post : list A) (c : A) :
  Forall (fun x => p x = false) pre -> p c = true ->
  firstSome (fun x => if p x then Some x else None) (pre ++ c :: post) = Some c.
Proof.
  intros Hpre Hc. induction pre as [|x pre IH]; simpl.
  - now rewrite Hc.
  - apply Forall_cons in Hpre as [Hx Hpre]. rewrite Hx. now apply IH.
Qed.

Lemma firstSome_none {A} (p : A -> bool) (l : list A) :
  Forall (fun x => p x = false) l ->
  firstSome (fun x => if p x then Some x else None) l = None.
Proof.
  intros H. induction l as [|x l IH]; simpl; [reflexivity|].
  apply Forall_cons in H as [Hx H]. rewrite Hx. now apply IH.
Qed.

Lemma headerRowOf_nonblank draw used cells :
  Forall (fun c => c <> "") (headerRowOf draw used cells).
Proof.
  revert used. induction cells as [|x rest IH]; intros used; simpl; [constructor|].
  destruct (nonEmpty (trim x)) eqn:E; constructor; try apply IH.
  - now apply nonEmpty_true.
  - discriminate.
Qed.

(** C8, as the program has it.  When no title column is resolved by name,
    the title column is the first header with, among its values in the
    first ten records, at least one that is neither empty nor a string of
    digits; and the first header of all when no header has such a value.
    (Header names are never blank, see [headerRowOf_nonblank].) *)
Theorem title_fallback (cols : list string) (df : list record) :
  Forall (fun c => c <> "") cols ->
  findColByNames cols ["Title"; "Product Title"; "Name"] = None ->
  (forall pre c post,
      cols = pre ++ c :: post ->
      Forall (fun c' => ~ qualifiesAsTitle df c') pre ->
      qualifiesAsTitle df c ->
      titleCol (resolveRoles cols df) = Some c)
  /\ (Forall (fun c => ~ qualifiesAsTitle df c) cols ->
      titleCol (resolveRoles cols df) = head cols).
Proof.
  intros Hnb Hnone. unfold resolveRoles. simpl titleCol. rewrite Hnone. simpl resolved.
  unfold fallbackTitle. split.
  - intros pre c post -> Hpre Hc.
    rewrite (firstSome_first (hasTextSample df)).
    + apply Forall_app in Hnb as [_ Hnb]. apply Forall_cons in Hnb as [Hcne _].
      unfold resolved. apply nonEmpty_true in Hcne. now rewrite Hcne.
    + eapply Forall_impl; [exact Hpre|]. intros x Hx. now apply hasTextSample_false.
    + now apply hasTextSample_true.
  - intros Hall. rewrite firstSome_none; [reflexivity|].
    eapply Forall_impl; [exact Hall|]. intros x Hx. now apply hasTextSample_false.
Qed.

Lemma title_fallback_witness :
  Forall (fun c => c <> "") titleSheet
  /\ findColByNames titleSheet ["Title"; "Product Title"; "Name"] = None
  /\ qualifiesAsTitle titleData "Product"
  /\ titleCol (resolveRoles titleSheet titleData) = Some "Product".
Proof.
  assert (H1 : Forall (fun c => c <> "") titleSheet)
    by (repeat constructor; discriminate).
  assert (H2 : findColByNames titleSheet ["Title"; "Product Title"; "Name"] = None)
    by (vm_compute; reflexivity).
  assert (H3 : qualifiesAsTitle titleData "Product")
    by (apply hasTextSample_true; vm_compute; reflexivity).
  assert (H4 : Forall (fun c' => ~ qualifiesAsTitle titleData c') ["SKU"]).
  { constructor; [|constructor]. apply hasTextSample_false. vm_compute. reflexivity. }
  split_ands; try assumption.
  exact (proj1 (title_fallback titleSheet titleData H1 H2) ["SKU"] "Product" ["Notes"]
               eq_refl H4 H3).
Defined.

(** a header qualifying in the program's sense also does as written *)
Lemma qualifies_as_written (df : list record) (c : string) :
  qualifiesAsTitle df c -> qualifiesAsWritten df c.
Proof.
  unfold qualifiesAsTitle, qualifiesAsWritten. intros H. split; intros Hall; apply H.
  - eapply Forall_impl; [exact Hall|]. intros v Hv. now left.
  - eapply Forall_impl; [exact Hall|]. intros v Hv. now right.
Qed.

(** C8 as stated fails on a column mixing blanks and numbers: its values
    are not all empty and not all digits, yet it is passed over. *)
Lemma mixed_numeric_column_not_title :
  findColByNames titleSheet ["Title"; "Product Title"; "Name"] = None
  /\ head titleSheet = Some "SKU"
  /\ sampleValues titleData "SKU" = ["1001"; ""]
  /\ qualifiesAsWritten titleData "SKU"
  /\ titleCol (resolveRoles titleSheet titleData) = Some "Product".
Proof.
  split; [vm_compute; reflexivity|]. split; [reflexivity|].
  assert (Hv : sampleValues titleData "SKU" = ["1001"; ""]) by (vm_compute; reflexivity).
  split; [exact Hv|]. split; [|vm_compute; reflexivity].
  unfold qualifiesAsWritten. rewrite Hv. split; intros Hall.
  - apply Forall_cons in Hall as [H _]. discriminate.
  - apply Forall_cons in Hall as [_ Hall]. apply Forall_cons in Hall as [[H _] _].
    now apply H.
Qed.

(** *** The batch *)

Lemma chars_append (a b : string) : chars (a +:+ b) = chars a ++ chars b.
Proof.
  unfold chars. induction a as [|c a IH]; [reflexivity|].
  change (String c a +:+ b) with (String c (a +:+ b)). simpl. now rewrite IH.
Qed.

Lemma chars_inj (a b : string) : chars a = chars b -> a = b.
Proof.
  intros H. rewrite <- (string_of_list_ascii_of_string a), <- (string_of_list_ascii_of_string b).
  unfold chars in H. now rewrite H.
Qed.

Lemma append_inj_r (a b s : string) : a +:+ s = b +:+ s -> a = b.
Proof.
  intros H. apply chars_inj. apply (f_equal chars) in H.
  rewrite !chars_append in H. now apply app_inv_tail in H.
Qed.

Lemma lastChar_append (a : string) (c : ascii) (s : string) :
  lastChar (a +:+ String c s) = lastChar (String c s).
Proof.
  unfold lastChar. rewrite chars_append, rev_app_distr.
  change (chars (String c s)) with (c :: chars s). simpl.
  destruct (rev (chars s)); reflexivity.
Qed.

Lemma lastChar_append2 (a b : string) (c : ascii) (s : string) :
  lastChar (a +:+ b +:+ String c s) = lastChar (String c s).
Proof.
  unfold lastChar. rewrite !chars_append, !rev_app_distr.
  change (chars (String c s)) with (c :: chars s). simpl.
  destruct (rev (chars s)); reflexivity.
Qed.

Lemma entry_names_apart (stem : string) (f : file) :
  stem +:+ " - Converted - Shopify.csv" <> errorEntryName f.
Proof.
  intros H. apply (f_equal lastChar) in H. unfold errorEntryName in H.
  rewrite lastChar_append, lastChar_append2 in H. discriminate.
Qed.

Lemma errorEntryName_inj (f g : file) : errorEntryName f = errorEntryName g -> name f = name g.
Proof.
  unfold errorEntryName. intros H. apply String.app_inj in H. now apply append_inj_r in H.
Qed.

Lemma entryOf_rejected (f : file) (err : string) :
  processSingleFile (draws f) (parseResult f) = Rejected err ->
  entryOf f = (errorEntryName f, errorEntryBody err).
Proof. intros H. unfold entryOf. now rewrite H. Qed.

(** a file of another name never writes the error entry of [f] *)
Lemma other_entry_name (f g : file) : name g <> name f -> (entryOf g).1 <> errorEntryName f.
Proof.
  intros Hne. unfold entryOf. destruct (processSingleFile _ _); simpl.
  - apply entry_names_apart.
  - intros H. apply Hne. now apply errorEntryName_inj.
Qed.

Lemma fold_addEntry_lookup_ne (l : list file) (zip : archive) (k : string) :
  Forall (fun g => (entryOf g).1 <> k) l ->
  fold_left addEntry l zip !! k = zip !! k.
Proof.
  revert zip. induction l as [|g l IH]; intros zip H; simpl; [reflexivity|].
  apply Forall_cons in H as [Hg H]. rewrite IH by assumption.
  unfold addEntry. now rewrite lookup_insert_ne.
Qed.

Lemma fold_addEntry_insert (l : list file) (zip : archive) (k v : string) :
  Forall (fun g => (entryOf g).1 <> k) l ->
  fold_left addEntry l (<[k := v]> zip) = <[k := v]> (fold_left addEntry l zip).
Proof.
  revert zip. induction l as [|g l IH]; intros zip H; simpl; [reflexivity|].
  apply Forall_cons in H as [Hg H]. rewrite <- IH by assumption.
  unfold addEntry. f_equal. now apply insert_insert_ne.
Qed.

(** C9, as the program has it.  A file whose processing fails adds exactly
    one entry to the archive, named "ERROR_" + its name + ".txt", whose
    body is "Failed to process: " followed by the error (the file's name is
    in the entry's name, not in its body).  When no other file of the batch
    writes an entry of that name, the archive is, but for this entry, the
    one a run over the other files yields, whatever the order in which the
    tasks settle.  A file of another name never writes that entry, nor does
    a file that converts, whatever its name: only a second failing file of
    the same name does. *)
Theorem failed_file_entry (files rest : list file) (category : Category)
        (zip : archive) (f : file) (err : string) :
  processFiles files category zip ->
  files ≡ₚ f :: rest ->
  Forall (fun g => entryName g <> errorEntryName f) rest ->
  processSingleFile (draws f) (parseResult f) = Rejected err ->
  (exists zip',
     processFiles rest category zip'
     /\ zip' !! ("ERROR_" +:+ name f +:+ ".txt") = None
     /\ zip = <["ERROR_" +:+ name f +:+ ".txt" := "Failed to process: " +:+ err]> zip')
  /\ (forall g, name g <> name f -> entryName g <> errorEntryName f)
  /\ (forall g csv, processSingleFile (draws g) (parseResult g) = Resolved csv ->
        entryName g <> errorEntryName f).
Proof.
  intros Hrun Hperm Hother Herr. split_ands.
  - destruct Hrun as [order Horder].
    assert (Hf : f ∈ order) by (rewrite Horder, Hperm; left).
    apply list_elem_of_split in Hf as (pre & post & ->).
    assert (Hrest : pre ++ post ≡ₚ rest).
    { apply (Permutation_cons_inv (a := f)). rewrite Permutation_middle, Horder. exact Hperm. }
    rewrite <- Hrest in Hother. unfold entryName in Hother.
    exists (zipAfter (pre ++ post)). split; [now constructor|].
    fold (errorEntryName f) (errorEntryBody err). split.
    + unfold zipAfter. rewrite fold_addEntry_lookup_ne by assumption. apply lookup_empty.
    + unfold zipAfter. rewrite !fold_left_app. simpl.
      apply Forall_app in Hother as [_ Hpost].
      unfold addEntry at 2. rewrite (entryOf_rejected f err Herr). simpl.
      now apply fold_addEntry_insert.
  - intros g Hne. now apply other_entry_name.
  - intros g csv Hok. unfold entryName, entryOf. rewrite Hok. simpl.
    apply entry_names_apart.
Qed.

Lemma failed_file_entry_witness :
  processFiles [goodTwin; brokenFile] FASHION (zipAfter [brokenFile; goodTwin])
  /\ name goodTwin = name brokenFile
  /\ Forall (fun g => entryName g <> errorEntryName brokenFile) [goodTwin]
  /\ exists zip',
       processFiles [goodTwin] FASHION zip'
       /\ zip' !! "ERROR_a.csv.txt" = None
       /\ zipAfter [brokenFile; goodTwin] = <["ERROR_a.csv.txt" := "Failed to process: boom"]> zip'.
Proof.
  assert (Hrun : processFiles [goodTwin; brokenFile] FASHION (zipAfter [brokenFile; goodTwin]))
    by (constructor; apply Permutation_swap).
  assert (Hother : Forall (fun g => entryName g <> errorEntryName brokenFile) [goodTwin]).
  { constructor; [|constructor]. vm_compute. discriminate. }
  split; [exact Hrun|]. split; [reflexivity|]. split; [exact Hother|].
  exact (proj1 (failed_file_entry [goodTwin; brokenFile] [goodTwin] FASHION _ brokenFile "boom"
                  Hrun (Permutation_swap _ _ _) Hother eq_refl)).
Defined.

(** C9 as stated fails: the body of the error entry holds the error, not
    the name of the file that failed. *)
Lemma error_body_omits_file_name :
  zipAfter [brokenFile] !! "ERROR_a.csv.txt" = Some "Failed to process: boom"
  /\ includes "Failed to process: boom" (name brokenFile) = false.
Proof. split; vm_compute; reflexivity. Qed.

(* ===================================================================== *)
(** ** Further properties                                                *)
(* ===================================================================== *)

(** *** Text, character by character *)

Lemma text_chars (s : string) : text (chars s) = s.
Proof. apply string_of_list_ascii_of_string. Qed.

Lemma chars_text (l : list ascii) : chars (text l) = l.
Proof. apply list_ascii_of_string_of_list_ascii. Qed.

Lemma isPrefixChars_spec (p l : list ascii) :
  isPrefixChars p l = true <-> exists post, l = p ++ post.
Proof.
  revert l. induction p as [|a p IH]; intros l; simpl.
  - split; [intros _; now exists l | reflexivity].
  - destruct l as [|b l].
    + split; [discriminate | intros [post H]; discriminate].
    + rewrite andb_true_iff, Ascii.eqb_eq, IH. split.
      * intros [-> [post ->]]. now exists post.
      * intros [post H]. inversion H. subst. split; [reflexivity | now exists post].
Qed.

Lemma includesChars_spec (l needle : list ascii) :
  includesChars l needle = true <-> exists pre post, l = pre ++ needle ++ post.
Proof.
  induction l as [|c l IH]; simpl.
  - rewrite orb_false_r, isPrefixChars_spec. split.
    + intros [post H]. now exists [], post.
    + intros (pre & post & H). destruct pre; simpl in H; [now exists post|discriminate].
  - rewrite orb_true_iff, isPrefixChars_spec, IH. split.
    + intros [[post H]|(pre & post & H)].
      * exists [], post. exact H.
      * exists (c :: pre), post. simpl. now rewrite H.
    + intros (pre & post & H). destruct pre as [|a pre]; simpl in H.
      * left. now exists post.
      * right. inversion H. now exists pre, post.
Qed.

Lemma includes_spec (s needle : string) :
  includes s needle = true <-> exists pre post, s = pre +:+ needle +:+ post.
Proof.
  unfold includes. rewrite includesChars_spec. split.
  - intros (pre & post & H). exists (text pre), (text post).
    apply chars_inj. now rewrite !chars_append, !chars_text.
  - intros (pre & post & ->). exists (chars pre), (chars post).
    now rewrite !chars_append.
Qed.
(** *** Handles *)

Lemma isDash_eq (c : ascii) : isDash c = true <-> c = "-"%char.
Proof. unfold isDash, isChar. apply Ascii.eqb_eq. Qed.

Lemma squeezeChars_Forall (P : ascii -> Prop) cls by_ inRun l :
  Forall P by_ -> Forall (fun c => cls c = false -> P c) l ->
  Forall P (squeezeChars cls by_ inRun l).
Proof.
  intros Hby Hl. revert inRun. induction Hl as [|c l Hc Hl IH]; intros inRun; simpl;
    [constructor|].
  destruct (cls c) eqn:E.
  - apply Forall_app. split; [destruct inRun; [constructor | assumption] | apply IH].
  - constructor; [now apply Hc | apply IH].
Qed.

Lemma squeezeChars_none cls by_ l :
  Forall (fun c => cls c = false) l -> squeezeChars cls by_ false l = l.
Proof.
  induction 1 as [|c l Hc Hl IH]; simpl; [reflexivity|]. now rewrite Hc, IH.
Qed.

Arguments noDashPair : simpl nomatch.

Lemma noDashPair_cons (a b : ascii) (r : list ascii) :
  noDashPair (a :: b :: r) = negb (isDash a && isDash b) && noDashPair (b :: r).
Proof. reflexivity. Qed.

Lemma squeeze_dash_shape inRun l :
  let o := squeezeChars isDash ["-"%char] inRun l in
  noDashPair o = true /\ (inRun = true -> head o <> Some "-"%char).
Proof.
  revert inRun. induction l as [|c l IH]; intros inRun; simpl.
  - split; [reflexivity | discriminate].
  - destruct (isDash c) eqn:E.
    + destruct (IH true) as [Hn Hh]. specialize (Hh eq_refl).
      destruct inRun; simpl.
      * split; [exact Hn | intros _; exact Hh].
      * split; [|discriminate].
        destruct (squeezeChars isDash ["-"%char] true l) as [|b r] eqn:Eo; [reflexivity|].
        rewrite noDashPair_cons, Hn, andb_true_r. simpl in Hh.
        destruct (isDash b) eqn:Eb; [|now rewrite andb_false_r].
        apply isDash_eq in Eb. subst. now contradiction Hh.
    + destruct (IH false) as [Hn _]. split.
      * destruct (squeezeChars isDash ["-"%char] false l) as [|b r] eqn:Eo; [reflexivity|].
        now rewrite noDashPair_cons, E, Hn.
      * intros _ Heq. inversion Heq. subst. now rewrite (proj2 (isDash_eq _) eq_refl) in E.
Qed.

Lemma squeeze_dash_fixed inRun l :
  noDashPair l = true -> (inRun = true -> head l <> Some "-"%char) ->
  squeezeChars isDash ["-"%char] inRun l = l.
Proof.
  revert inRun. induction l as [|c l IH]; intros inRun Hn Hh; simpl; [reflexivity|].
  assert (Hl : noDashPair l = true).
  { simpl in Hn. destruct l; [reflexivity|]. now apply andb_true_iff in Hn as [_ ?]. }
  destruct (isDash c) eqn:E.
  - apply isDash_eq in E. subst c.
    destruct inRun; [now contradiction (Hh eq_refl)|].
    simpl. f_equal. apply IH; [assumption|]. intros _ Hd.
    destruct l as [|b r]; [discriminate|]. simpl in Hd. inversion Hd. subst b.
    simpl in Hn. discriminate.
  - f_equal. apply IH; [assumption | discriminate].
Qed.

Lemma noDashPair_app_l (a b : list ascii) : noDashPair (a ++ b) = true -> noDashPair a = true.
Proof.
  induction a as [|x a IH]; intros H; [reflexivity|].
  destruct a as [|y a]; [reflexivity|].
  simpl in *. apply andb_true_iff in H as [H1 H2]. rewrite H1. now apply IH.
Qed.

Lemma noDashPair_tail (c : ascii) (l : list ascii) : noDashPair (c :: l) = true -> noDashPair l = true.
Proof. destruct l; [reflexivity|]. simpl. intros H. now apply andb_true_iff in H as [_ ?]. Qed.

Lemma noDashPair_end (a : list ascii) :
  noDashPair (a ++ ["-"%char]) = true -> head (rev a) <> Some "-"%char.
Proof.
  induction a as [|x a IH]; intros H; [discriminate|].
  destruct a as [|y a].
  - simpl in *. intros Heq. inversion Heq. subst. discriminate.
  - assert (H' : noDashPair ((y :: a) ++ ["-"%char]) = true).
    { simpl in H. simpl. now apply andb_true_iff in H as [_ ?]. }
    specialize (IH H'). change (rev (x :: y :: a)) with (rev (y :: a) ++ [x]).
    destruct (rev (y :: a)) as [|z r] eqn:Er; [|exact IH].
    apply (f_equal (@length ascii)) in Er. rewrite length_rev in Er. discriminate.
Qed.

Lemma dropWhile_head {A} (p : A -> bool) (l : list A) :
  match l with x :: _ => p x = false | [] => True end -> dropWhile p l = l.
Proof. destruct l as [|x l]; simpl; [reflexivity|]. now intros ->. Qed.

Lemma stripLast_shape (l1 : list ascii) :
  Forall (fun c => isSlugChar c = true) l1 -> noDashPair l1 = true ->
  head l1 <> Some "-"%char ->
  slugShaped match rev l1 with
             | c :: r => if isChar c "-" then rev r else l1
             | [] => l1
             end.
Proof.
  intros Ha Hb Hc. destruct (rev l1) as [|c r] eqn:Er.
  - unfold slugShaped. rewrite Er. now split_ands.
  - assert (El : l1 = rev r ++ [c]) by (rewrite <- (rev_involutive l1), Er; reflexivity).
    destruct (isChar c "-") eqn:E.
    + apply isDash_eq in E. subst c. subst l1. unfold slugShaped.
      rewrite rev_involutive. split_ands.
      * now apply Forall_app in Ha as [? _].
      * now apply noDashPair_app_l in Hb.
      * destruct (rev r) as [|x y]; [discriminate | exact Hc].
      * apply noDashPair_end in Hb. now rewrite rev_involutive in Hb.
    + unfold slugShaped. rewrite Er. split_ands; try assumption.
      simpl. intros Heq. inversion Heq. subst. unfold isChar in E.
      now rewrite Ascii.eqb_refl in E.
Qed.

Lemma stripEdge_shape (l : list ascii) :
  Forall (fun c => isSlugChar c = true) l -> noDashPair l = true ->
  slugShaped (chars (stripEdgeDashes (text l))).
Proof.
  intros Hall Hn. unfold stripEdgeDashes. rewrite !chars_text. cbv zeta.
  apply stripLast_shape.
  - destruct l as [|c r]; [assumption|]. destruct (isChar c "-"); [|assumption].
    now apply Forall_cons in Hall as [_ ?].
  - destruct l as [|c r]; [assumption|]. destruct (isChar c "-"); [|assumption].
    now apply noDashPair_tail in Hn.
  - destruct l as [|c r]; [discriminate|]. destruct (isChar c "-") eqn:E.
    + apply isDash_eq in E. subst c. destruct r as [|b r]; [discriminate|]. simpl.
      intros Heq. inversion Heq. subst. simpl in Hn. discriminate.
    + simpl. intros Heq. inversion Heq. subst.
      unfold isChar in E. now rewrite Ascii.eqb_refl in E.
Qed.

Lemma slugify_shaped (t : string) : slugShaped (chars (slugify t)).
Proof.
  unfold slugify. cbv zeta. unfold squeeze, deleteAll. rewrite !chars_text.
  apply stripEdge_shape; [|apply (squeeze_dash_shape false)].
  apply squeezeChars_Forall; [now repeat constructor|].
  apply (squeezeChars_Forall (fun c => isDash c = false -> isSlugChar c = true));
    [now repeat constructor|].
  apply List.Forall_forall. intros c Hc Hs _. apply filter_In in Hc as [_ Hc].
  apply negb_true_iff, negb_false_iff in Hc. unfold isSlugChar.
  rewrite !orb_true_iff in *. rewrite Hs in Hc. intuition discriminate.
Qed.

Lemma dropWhile_none {A} (p : A -> bool) (l : list A) :
  Forall (fun x => p x = false) l -> dropWhile p l = l.
Proof. intros H. apply dropWhile_head. destruct H; [exact I | assumption]. Qed.

Lemma slugChar_plain (c : ascii) :
  isSlugChar c = true -> isSpace c = false /\ isUpper c = false.
Proof.
  unfold isSlugChar, isLower, isDigit, isSpace, isUpper, isChar.
  destruct (Ascii.eqb c "-") eqn:E.
  - apply Ascii.eqb_eq in E. subst. intros _. split; reflexivity.
  - rewrite orb_false_r. intros H. apply orb_true_iff in H.
    split; [apply orb_false_iff; split|]; apply not_true_is_false; intros Hc;
      repeat match goal with
             | H : _ && _ = true |- _ => apply andb_true_iff in H as [? ?]
             | H : _ \/ _ |- _ => destruct H
             | H : (_ <=? _) = true |- _ => apply Nat.leb_le in H
             | H : (_ =? _) = true |- _ => apply Nat.eqb_eq in H
             end; lia.
Qed.

(** a text of handle shape is its own handle *)
Lemma shaped_fixed (s : string) : slugShaped (chars s) -> slugify s = s.
Proof.
  intros (Hall & Hn & Hh & Hl).
  assert (Hsp : Forall (fun c => isSpace c = false) (chars s))
    by (eapply Forall_impl; [exact Hall|]; intros c Hc; now apply slugChar_plain).
  assert (Hup : Forall (fun c => isUpper c = false) (chars s))
    by (eapply Forall_impl; [exact Hall|]; intros c Hc; now apply slugChar_plain).
  assert (Htrim : trim s = s).
  { unfold trim, trimEndChars, trimStartChars. rewrite (dropWhile_none _ _ Hsp).
    rewrite dropWhile_none; [now rewrite rev_involutive, text_chars|].
    apply Forall_rev. exact Hsp. }
  assert (Hlow : toLowerCase s = s).
  { unfold toLowerCase. rewrite <- (text_chars s) at 2. f_equal.
    clear -Hup. induction Hup as [|c l Hc Hl IH]; simpl; [reflexivity|].
    unfold lowerChar at 1. now rewrite Hc, IH. }
  unfold slugify. cbv zeta. rewrite Htrim, Hlow. unfold squeeze, deleteAll.
  rewrite !chars_text.
  assert (Hkeep : List.filter (fun c => negb (negb (isLower c || isDigit c || isSpace c || isChar c "-"))) (chars s) = chars s).
  { clear -Hall. induction Hall as [|c l Hc Hl IH]; simpl; [reflexivity|].
    rewrite IH. unfold isSlugChar in Hc.
    replace (isLower c || isDigit c || isSpace c || isChar c "-") with true; [reflexivity|].
    symmetry. rewrite !orb_true_iff in *. tauto. }
  rewrite Hkeep, (squeezeChars_none _ _ _ Hsp).
  change (squeezeChars (fun c => isChar c "-") (chars "-") false (chars s))
    with (squeezeChars isDash ["-"%char] false (chars s)).
  rewrite (squeeze_dash_fixed false _ Hn) by discriminate.
  unfold stripEdgeDashes. rewrite chars_text. cbv zeta.
  destruct (chars s) as [|c r] eqn:Ec.
  - simpl. rewrite <- (text_chars s), Ec. reflexivity.
  - destruct (isChar c "-") eqn:E.
    { apply isDash_eq in E. subst c. now contradiction Hh. }
    destruct (rev (c :: r)) as [|d q] eqn:Er.
    + now rewrite <- Ec, text_chars.
    + destruct (isChar d "-") eqn:Ed.
      { apply isDash_eq in Ed. subst d. now contradiction Hl. }
      now rewrite <- Ec, text_chars.
Qed.
Lemma noDashPair_pair (pre post : list ascii) :
  noDashPair (pre ++ "-"%char :: "-"%char :: post) = false.
Proof.
  induction pre as [|x pre IH]; [reflexivity|].
  destruct pre as [|y pre].
  - simpl app. rewrite noDashPair_cons. simpl app in IH. rewrite IH. apply andb_false_r.
  - change ((x :: y :: pre) ++ "-"%char :: "-"%char :: post)
      with (x :: y :: (pre ++ "-"%char :: "-"%char :: post)).
    rewrite noDashPair_cons.
    change (y :: pre ++ "-"%char :: "-"%char :: post)
      with ((y :: pre) ++ "-"%char :: "-"%char :: post).
    rewrite IH. apply andb_false_r.
Qed.

(** X1. A handle is made of lower-case letters, digits and dashes only,
    has no two dashes in a row, and neither starts nor ends with a dash;
    so the title "Kids' T-Shirt!!" has the handle "kids-t-shirt". *)
Theorem slugify_shape (t : string) :
  forallb isSlugChar (chars (slugify t)) = true
  /\ includes (slugify t) "--" = false
  /\ firstChar (slugify t) <> Some "-"%char
  /\ lastChar (slugify t) <> Some "-"%char
  /\ slugify "Kids' T-Shirt!!" = "kids-t-shirt".
Proof.
  destruct (slugify_shaped t) as (Hall & Hn & Hh & Hl). split_ands.
  - apply forallb_forall. now apply List.Forall_forall.
  - apply not_true_is_false. intros H. apply includesChars_spec in H as (pre & post & H).
    rewrite H in Hn. change (chars "--") with ["-"%char; "-"%char] in Hn.
    simpl app in Hn. rewrite noDashPair_pair in Hn. discriminate Hn.
  - exact Hh.
  - exact Hl.
  - vm_compute. reflexivity.
Qed.

(** X2. Taking the handle of a handle changes nothing. *)
Theorem slugify_idempotent (t : string) : slugify (slugify t) = slugify t.
Proof. apply shaped_fixed, slugify_shaped. Qed.

(** *** The header row *)

Lemma detectHeaderRowFrom_bound (i maxRows : nat) (data : list (list string)) :
  detectHeaderRowFrom i maxRows data = 0
  \/ (i <= detectHeaderRowFrom i maxRows data
      /\ detectHeaderRowFrom i maxRows data < i + Nat.min maxRows (length data)).
Proof.
  revert i data. induction maxRows as [|m IH]; intros i data; simpl; [now left|].
  destruct data as [|row rest]; [now left|].
  destruct (rowHasTitle row).
  - right. simpl. lia.
  - destruct (IH (S i) rest) as [H|H]; [now left | right; simpl; lia].
Qed.

Lemma detectHeaderRowFrom_first (i maxRows : nat) (data : list (list string)) (k : nat) (row : list string) :
  data !! k = Some row -> k < maxRows -> rowHasTitle row = true ->
  (forall j row', j < k -> data !! j = Some row' -> rowHasTitle row' = false) ->
  detectHeaderRowFrom i maxRows data = i + k.
Proof.
  revert i maxRows data. induction k as [|k IH]; intros i maxRows data Hk Hlt Ht Hbefore.
  - destruct data as [|r rest]; [discriminate|]. inversion Hk. subst.
    destruct maxRows; [lia|]. simpl. rewrite Ht. lia.
  - destruct data as [|r rest]; [discriminate|]. destruct maxRows as [|m]; [lia|].
    simpl. rewrite (Hbefore 0 r); [|lia|reflexivity].
    rewrite (IH (S i) m rest); [lia | exact Hk | lia | exact Ht |].
    intros j row' Hj Hrow. apply (Hbefore (S j) row'); [lia | exact Hrow].
Qed.

Lemma detectHeaderRowFrom_none (i maxRows : nat) (data : list (list string)) :
  (forall j row', j < maxRows -> data !! j = Some row' -> rowHasTitle row' = false) ->
  detectHeaderRowFrom i maxRows data = 0.
Proof.
  revert i data. induction maxRows as [|m IH]; intros i data H; simpl; [reflexivity|].
  destruct data as [|r rest]; [reflexivity|].
  rewrite (H 0 r); [|lia|reflexivity]. apply IH.
  intros j row' Hj Hrow. apply (H (S j) row'); [lia | exact Hrow].
Qed.

(** X3. The header row is the first of the first eight rows that has a
    cell containing "title" in any letter case, be it "Title" or "Product
    Title"; a row further down is never chosen, and without such a row the
    header is row 0. *)
Theorem header_row_is_first_title_row (data : list (list string)) :
  (forall k row, data !! k = Some row -> k < 8 -> rowHasTitle row = true ->
     (forall j row', j < k -> data !! j = Some row' -> rowHasTitle row' = false) ->
     detectHeaderRow data = k)
  /\ ((forall j row', j < 8 -> data !! j = Some row' -> rowHasTitle row' = false) ->
      detectHeaderRow data = 0)
  /\ detectHeaderRow data < 8
  /\ (forall row rest, data = row :: rest -> detectHeaderRow data < length data)
  /\ (forall row, rowHasTitle row = true
                  <-> exists x, In x row /\ includes (toLowerCase (trim x)) "title" = true)
  /\ detectHeaderRow [["x"]; ["Product Title"]; ["Title"]] = 1.
Proof.
  unfold detectHeaderRow. split_ands.
  - intros k row Hk Hlt Ht Hb. now rewrite (detectHeaderRowFrom_first 0 8 data k row).
  - apply detectHeaderRowFrom_none.
  - destruct (detectHeaderRowFrom_bound 0 8 data) as [H|H]; lia.
  - intros row rest ->. destruct (detectHeaderRowFrom_bound 0 8 (row :: rest)) as [H|H];
      change (length (row :: rest)) with (S (length rest)) in *; lia.
  - intros row. unfold rowHasTitle. rewrite existsb_exists.
    split; intros (x & Hx & H); exists x; (split; [exact Hx|]); cbv zeta in *.
    + apply orb_prop in H as [H|H]; [|exact H].
      apply String.eqb_eq in H. rewrite H. reflexivity.
    + rewrite H. apply orb_true_r.
  - reflexivity.
Qed.
(** *** Column resolution *)

Lemma firstSome_Some {A B} (f : A -> option B) (l : list A) (y : B) :
  firstSome f l = Some y -> exists x, In x l /\ f x = Some y.
Proof.
  induction l as [|x l IH]; simpl; [discriminate|].
  destruct (f x) eqn:E.
  - intros H. inversion H. subst. exists x. now split; [left|].
  - intros H. destruct (IH H) as (x' & Hin & Hx'). exists x'. now split; [right|].
Qed.

Lemma firstSome_None {A B} (f : A -> option B) (l : list A) :
  firstSome f l = None <-> forall x, In x l -> f x = None.
Proof.
  induction l as [|x l IH]; simpl.
  - split; [intros _ x [] | reflexivity].
  - destruct (f x) eqn:E.
    + split; [discriminate|]. intros H. rewrite <- E. apply H. now left.
    + rewrite IH. split.
      * intros H x' [<-|Hin]; [exact E | now apply H].
      * intros H x' Hin. apply H. now right.
Qed.

Lemma colsNorm_fold_lookup (cols : list string) (m : gmap string string) (k c : string) :
  fold_left (fun colsNorm c => <[normalize c := c]> colsNorm) cols m !! k = Some c ->
  (In c cols /\ normalize c = k) \/ m !! k = Some c.
Proof.
  revert m. induction cols as [|x cols IH]; intros m H; simpl in *; [now right|].
  apply IH in H as [[Hin Hn]|H]; [left; split; [now right | exact Hn]|].
  destruct (decide (normalize x = k)) as [Hk|Hk].
  - subst k. rewrite lookup_insert_eq in H. inversion H. subst. left. split; [now left | reflexivity].
  - rewrite lookup_insert_ne in H by assumption. now right.
Qed.

Lemma colsNormOf_lookup (cols : list string) (k c : string) :
  colsNormOf cols !! k = Some c -> In c cols /\ normalize c = k.
Proof.
  intros H. apply colsNorm_fold_lookup in H as [H|H]; [exact H|].
  rewrite lookup_empty in H. discriminate.
Qed.

Lemma colsNorm_fold_keep (cols : list string) (m : gmap string string) (k : string) :
  Forall (fun c' => normalize c' <> k) cols ->
  fold_left (fun colsNorm c => <[normalize c := c]> colsNorm) cols m !! k = m !! k.
Proof.
  revert m. induction cols as [|x cols IH]; intros m H; simpl; [reflexivity|].
  apply Forall_cons in H as [Hx H]. rewrite IH by assumption. now rewrite lookup_insert_ne.
Qed.

Lemma colsNormOf_last (pre post : list string) (c : string) :
  Forall (fun c' => normalize c' <> normalize c) post ->
  colsNormOf (pre ++ c :: post) !! normalize c = Some c.
Proof.
  intros H. unfold colsNormOf. rewrite fold_left_app. simpl.
  rewrite colsNorm_fold_keep by assumption. apply lookup_insert_eq.
Qed.

(** X4. A resolved column is always one of the sheet's headers, and it
    matches one of the candidate names: either the two are equal once
    reduced to lower-case letters and digits, or the header contains the
    name, blanks and letter case aside.  Conversely, whenever some header
    contains a candidate name, a column is resolved. *)
Theorem findColByNames_sound (cols names : list string) :
  (forall c, findColByNames cols names = Some c ->
     In c cols
     /\ exists name, In name names
          /\ (normalize c = normalize name \/ includes (squash c) (squash name) = true))
  /\ (forall name c, In name names -> In c cols ->
        includes (squash c) (squash name) = true ->
        exists c', findColByNames cols names = Some c').
Proof.
  unfold findColByNames. cbv zeta. split.
  - intros c H.
    destruct (firstSome _ names) as [c0|] eqn:E1.
    + inversion H. subst c0. apply firstSome_Some in E1 as (name & Hname & Hf).
      destruct (colsNormOf cols !! normalize name) as [c1|] eqn:El; [|discriminate].
      destruct (nonEmpty c1); [|discriminate]. inversion Hf. subst c1.
      apply colsNormOf_lookup in El as [Hin Hn]. split; [exact Hin|].
      exists name. split; [exact Hname | now left].
    + apply firstSome_Some in H as (name & Hname & Hf).
      apply firstSome_Some in Hf as (c1 & Hin & Hc1).
      destruct (includes (squash c1) (squash name)) eqn:Ei; [|discriminate].
      inversion Hc1. subst c1. split; [exact Hin|].
      exists name. split; [exact Hname | now right].
  - intros name c Hname Hin Hi.
    destruct (firstSome _ names) as [c0|] eqn:E1; [now exists c0|].
    match goal with |- exists c', ?t = Some c' => destruct t as [c1|] eqn:E2 end;
      [now exists c1|].
    exfalso. rewrite firstSome_None in E2. specialize (E2 name Hname). cbv beta in E2.
    rewrite firstSome_None in E2. specialize (E2 c Hin). cbv beta in E2.
    rewrite Hi in E2. discriminate.
Qed.

(** X5. The first candidate name wins by exact match over every later
    name and over containment; among headers that reduce to the same
    letters and digits, the last one in the sheet is taken. *)
Theorem findColByNames_last_exact (pre post others : list string) (c name : string) :
  c <> "" ->
  normalize c = normalize name ->
  Forall (fun c' => normalize c' <> normalize name) post ->
  findColByNames (pre ++ c :: post) (name :: others) = Some c.
Proof.
  intros Hne Hn Hpost. unfold findColByNames. cbv zeta. simpl firstSome.
  rewrite <- Hn. rewrite colsNormOf_last by (now rewrite Hn).
  apply nonEmpty_true in Hne. now rewrite Hne.
Qed.

Lemma findColByNames_last_exact_witness :
  "TITLE" <> "" /\ normalize "TITLE" = normalize "Title"
  /\ findColByNames ["Product title"; "Title"; "TITLE"; "Price"] ["Title"; "Product Title"; "Name"]
     = Some "TITLE".
Proof.
  assert (H1 : "TITLE" <> "") by discriminate.
  assert (H2 : normalize "TITLE" = normalize "Title") by (vm_compute; reflexivity).
  split; [exact H1|]. split; [exact H2|].
  refine (findColByNames_last_exact ["Product title"; "Title"] ["Price"] _ "TITLE" "Title" H1 H2 _).
  constructor; [vm_compute; discriminate | constructor].
Defined.

(** *** Image and size columns *)

Lemma includes_part (s a b c : string) :
  includes s (a +:+ b +:+ c) = true -> includes s b = true.
Proof.
  rewrite !includes_spec. intros (pre & post & ->).
  exists (pre +:+ a), (c +:+ post).
  apply chars_inj. rewrite !chars_append. now rewrite <- !app_assoc.
Qed.

(** X6. The image columns are exactly the headers that contain "image" in
    any letter case, in sheet order; the two longer patterns the program
    also tests add nothing. *)
Theorem detectImageColumns_contains_image (cols : list string) :
  detectImageColumns cols
  = List.filter (fun c => includes (toLowerCase c) "image") cols.
Proof.
  unfold detectImageColumns. apply filter_ext. intros c. cbv zeta.
  destruct (includes (toLowerCase c) "image") eqn:E.
  - now rewrite orb_true_r.
  - rewrite !orb_false_r.
    destruct (includes (toLowerCase c) "product image") eqn:E1.
    { apply (includes_part _ "product " "image" "") in E1. congruence. }
    simpl. destruct (includes (toLowerCase c) "image url") eqn:E2; [|reflexivity].
    apply (includes_part _ "" "image" " url") in E2. congruence.
Qed.
Lemma sizeCols_fold_In (cols acc : list string) (c : string) :
  In c (fold_left (fun sizeCols c =>
                     if negb (inb c sizeCols) && endsWithAgeRange (trim c)
                     then sizeCols ++ [c] else sizeCols) cols acc)
  <-> In c acc \/ (In c cols /\ endsWithAgeRange (trim c) = true).
Proof.
  revert acc. induction cols as [|x cols IH]; intros acc; simpl.
  - tauto.
  - rewrite IH. destruct (inb x acc) eqn:Ei; simpl.
    + apply inb_In in Ei. split.
      * intros [H|[H1 H2]]; [now left | right; tauto].
      * intros [H|[[->|H1] H2]]; [now left | now left | right; tauto].
    + destruct (endsWithAgeRange (trim x)) eqn:Ee.
      * rewrite in_app_iff. simpl. split.
        -- intros [[H|[->|[]]]|[H1 H2]]; [now left | right; tauto | right; tauto].
        -- intros [H|[[->|H1] H2]]; [now left; left | left; right; now left | right; tauto].
      * split.
        -- intros [H|[H1 H2]]; [now left | right; tauto].
        -- intros [H|[[->|H1] H2]]; [now left | congruence | right; tauto].
Qed.

Lemma detectSizeColumns_In (cols : list string) (c : string) :
  In c (detectSizeColumns cols)
  <-> In c cols /\ (namesSizeCandidate c = true \/ endsWithAgeRange (trim c) = true).
Proof.
  unfold detectSizeColumns. cbv zeta. rewrite sizeCols_fold_In, filter_In.
  unfold namesSizeCandidate. tauto.
Qed.

Lemma detectSizeColumns_not_default (cols : list string) :
  Forall (fun c => trim c <> "Default") (detectSizeColumns cols).
Proof.
  apply List.Forall_forall. intros c Hc Ht. apply detectSizeColumns_In in Hc as [_ [H|H]].
  - unfold namesSizeCandidate in H. rewrite Ht in H. vm_compute in H. discriminate.
  - rewrite Ht in H. vm_compute in H. discriminate.
Qed.

(** X7. The size columns are exactly the headers that are named like a
    size candidate or end in an age range ("12 m", "3-4Y", ...); no header
    named "Default" is ever one of them. *)
Theorem detectSizeColumns_spec (cols : list string) :
  (forall c, In c (detectSizeColumns cols)
             <-> In c cols /\ (namesSizeCandidate c = true
                               \/ endsWithAgeRange (trim c) = true))
  /\ Forall (fun c => trim c <> "Default") (detectSizeColumns cols).
Proof.
  split; [intros c; apply detectSizeColumns_In | apply detectSizeColumns_not_default].
Qed.

Lemma sizeCols_fold_order (cols acc d : list string) :
  fold_left (fun sizeCols c =>
               if negb (inb c sizeCols) && endsWithAgeRange (trim c)
               then sizeCols ++ [c] else sizeCols) cols (acc ++ d)
  = acc ++ fold_left (fun d c => pushNew c d)
                     (List.filter (fun c => negb (inb c acc) && endsWithAgeRange (trim c)) cols)
                     d.
Proof.
  revert d. induction cols as [|x cols IH]; intros d; simpl; [reflexivity|].
  assert (Hin : inb x (acc ++ d) = inb x acc || inb x d)
    by (unfold inb; apply existsb_app).
  rewrite Hin. destruct (inb x acc); simpl; [apply IH|].
  destruct (endsWithAgeRange (trim x)); simpl.
  - unfold pushNew. destruct (inb x d); simpl; [apply IH|].
    rewrite <- (List.app_assoc acc d [x]). apply IH.
  - rewrite andb_false_r. apply IH.
Qed.

Lemma detectSizeColumns_order (cols : list string) :
  detectSizeColumns cols
  = List.filter namesSizeCandidate cols
    ++ dedupe (List.filter (fun c => negb (namesSizeCandidate c) && endsWithAgeRange (trim c))
                           cols).
Proof.
  unfold detectSizeColumns. cbv zeta. fold namesSizeCandidate.
  change (List.filter (fun c => existsb (fun sc => isSizeCandidate sc (trim c)) sizeCandidates) cols)
    with (List.filter namesSizeCandidate cols).
  rewrite <- (app_nil_r (List.filter namesSizeCandidate cols)) at 1.
  rewrite sizeCols_fold_order. f_equal. unfold dedupe. f_equal.
  apply filter_ext_in. intros c Hc. f_equal. f_equal.
  destruct (namesSizeCandidate c) eqn:E.
  - apply inb_In, filter_In. now split.
  - apply inb_false. intros H. apply filter_In in H as [_ H]. congruence.
Qed.

(** X8. With the size columns detected from the header row, the variant
    list of a record is the "Default" sentinel alone exactly when no size
    column fires; otherwise it lists the trimmed names of the columns that
    fire, and "Default" is not among them.  The order is that of the
    detected size columns: first the headers named like a size candidate,
    in header order, then the other headers that end in an age range, in
    header order and each once.  So a sheet with the headers "7-8Y" and "S",
    in this order, gives the variants "S", "7-8Y". *)
Theorem variants_default_sentinel (cols : list string) (row : record) :
  let fired := List.filter (sizeFires row) (detectSizeColumns cols) in
  let variants := variantsOf (detectSizeColumns cols) row in
  (fired = [] -> variants = ["Default"])
  /\ (fired <> [] -> variants = map trim fired /\ ~ In "Default" variants)
  /\ detectSizeColumns cols
     = List.filter namesSizeCandidate cols
       ++ dedupe (List.filter (fun c => negb (namesSizeCandidate c)
                                        && endsWithAgeRange (trim c)) cols)
  /\ variantsOf (detectSizeColumns ["Title"; "7-8Y"; "S"])
                (recordOf ["Title"; "7-8Y"; "S"] ["Cap"; "1"; "1"])
     = ["S"; "7-8Y"].
Proof.
  intros fired variants.
  split_ands; [| | apply detectSizeColumns_order | vm_compute; reflexivity];
    unfold variants, variantsOf; rewrite fold_push_filter; simpl; fold fired;
    assert (HF : Forall (fun c => trim c <> "Default") fired)
      by (pose proof (detectSizeColumns_not_default cols) as Hd;
          rewrite List.Forall_forall in Hd; apply List.Forall_forall; intros c Hc;
          apply Hd; unfold fired in Hc; now apply filter_In in Hc as [? _]);
    clearbody fired.
  - now intros ->.
  - intros Hne. destruct fired as [|sc l]; [contradiction|]. simpl. split; [reflexivity|].
    change (~ In "Default" (map trim (sc :: l))). intros Hin.
    apply in_map_iff in Hin as (c & Hc & Hin).
    rewrite List.Forall_forall in HF. now apply (HF c).
Qed.

(** *** Source records *)

Lemma fillRecord_other (obj : record) (idx : nat) (headerRow row : list string) (c : string) :
  ~ In c headerRow -> fillRecord obj idx headerRow row !! c = obj !! c.
Proof.
  revert obj idx. induction headerRow as [|h rest IH]; intros obj idx Hnot; simpl;
    [reflexivity|].
  rewrite IH by (intros H; apply Hnot; now right).
  unfold setCell. destruct (String.eqb h "__proto__"); [reflexivity|].
  apply lookup_insert_ne. intros ->. apply Hnot. now left.
Qed.

Lemma fillRecord_proto (obj : record) (idx : nat) (headerRow row : list string) :
  fillRecord obj idx headerRow row !! "__proto__" = obj !! "__proto__".
Proof.
  revert obj idx. induction headerRow as [|h rest IH]; intros obj idx; simpl;
    [reflexivity|].
  rewrite IH. unfold setCell. destruct (String.eqb h "__proto__") eqn:E; [reflexivity|].
  apply lookup_insert_ne. intros ->. discriminate E.
Qed.

Lemma fillRecord_last (obj : record) (idx : nat) (pre post row : list string) (c : string) :
  c <> "__proto__" ->
  ~ In c post ->
  fillRecord obj idx (pre ++ c :: post) row !! c
  = Some (default "" (row !! (idx + length pre))).
Proof.
  intros Hc. revert obj idx. induction pre as [|h pre IH]; intros obj idx Hnot; simpl.
  - rewrite fillRecord_other by assumption. unfold setCell.
    apply String.eqb_neq in Hc. rewrite Hc. rewrite lookup_insert_eq.
    now rewrite Nat.add_0_r.
  - rewrite IH by assumption. do 3 f_equal. lia.
Qed.

(** X9. A record has a cell for every header other than "__proto__": the
    row's cell in that column, the empty string when the row is too short,
    and the cell of the last column when several columns share the header.
    Under "__proto__" a record reads the prototype object, whatever the
    sheet holds there, and it reads nothing under any other name that is
    not a header. *)
Theorem recordOf_cells (headerRow row : list string) :
  (forall pre c post, headerRow = pre ++ c :: post -> ~ In c post -> c <> "__proto__" ->
     recordOf headerRow row !! c = Some (default "" (row !! length pre)))
  /\ recordOf headerRow row !! "__proto__" = Some objectText
  /\ (forall c, ~ In c headerRow -> c <> "__proto__" ->
        recordOf headerRow row !! c = None)
  /\ dom (recordOf headerRow row) = list_to_set headerRow ∪ {[ "__proto__" ]}
  /\ recordOf ["Title"; "__proto__"] ["Cap"; "x"]
     = {[ "Title" := "Cap"; "__proto__" := objectText ]}.
Proof.
  assert (Hproto : recordOf headerRow row !! "__proto__" = Some objectText).
  { unfold recordOf. rewrite fillRecord_proto. reflexivity. }
  assert (Hlast : forall pre c post, headerRow = pre ++ c :: post -> ~ In c post ->
            c <> "__proto__" ->
            recordOf headerRow row !! c = Some (default "" (row !! length pre))).
  { intros pre c post -> Hnot Hc. unfold recordOf. now rewrite fillRecord_last. }
  assert (Hnone : forall c, ~ In c headerRow -> c <> "__proto__" ->
            recordOf headerRow row !! c = None).
  { intros c Hnot Hc. unfold recordOf. rewrite fillRecord_other by assumption.
    unfold emptyObject. now apply lookup_singleton_ne. }
  split_ands; try assumption.
  - apply set_eq. intros c.
    rewrite elem_of_dom, elem_of_union, elem_of_list_to_set, list_elem_of_In,
      elem_of_singleton.
    destruct (string_dec c "__proto__") as [->|Hc].
    + rewrite Hproto. split; [intros _; now right | intros _; eauto].
    + destruct (in_dec string_dec c headerRow) as [Hin|Hnot].
      * split; [intros _; now left|]. intros _.
        assert (Hsplit : exists pre post, headerRow = pre ++ c :: post /\ ~ In c post).
        { clear -Hin. induction headerRow as [|h l IH]; [contradiction|].
          destruct (in_dec string_dec c l) as [Hl|Hl].
          - destruct (IH Hl) as (pre & post & -> & Hp). now exists (h :: pre), post.
          - destruct Hin as [->|Hin]; [|contradiction]. now exists [], l. }
        destruct Hsplit as (pre & post & Heq & Hp). rewrite (Hlast pre c post Heq Hp Hc).
        eauto.
      * rewrite (Hnone c Hnot Hc).
        split; [intros [x Hx]; discriminate | intros [H|H]; contradiction].
  - apply (bool_decide_unpack _). vm_compute. exact I.
Qed.

Lemma headerRowOf_length draw used cells :
  length (headerRowOf draw used cells) = length cells.
Proof.
  revert used. induction cells as [|x rest IH]; intros used; simpl; [reflexivity|].
  destruct (nonEmpty (trim x)); simpl; now rewrite IH.
Qed.

Lemma headerRowOf_lookup draw used cells i x :
  cells !! i = Some x ->
  (trim x <> "" -> headerRowOf draw used cells !! i = Some (trim x))
  /\ (trim x = "" -> exists k, used <= k
                        /\ headerRowOf draw used cells !! i = Some ("unnamed_" +:+ draw k)).
Proof.
  revert used i. induction cells as [|y rest IH]; intros used i Hi; [discriminate|].
  simpl. destruct i as [|i]; simpl in Hi.
  - inversion Hi. subst y. split.
    + intros Hne. apply nonEmpty_true in Hne. now rewrite Hne.
    + intros He. apply nonEmpty_false in He. rewrite He. now exists used.
  - destruct (nonEmpty (trim y)); simpl.
    + apply IH. exact Hi.
    + destruct (IH (S used) i Hi) as [H1 H2]. split; [exact H1|].
      intros He. destruct (H2 He) as (k & Hk & Hl). exists k. split; [lia | exact Hl].
Qed.

(** X10. The header row has one name per cell of the detected row: the
    trimmed cell when that is not blank, else a placeholder "unnamed_"
    followed by a random draw; so no header name is blank. *)
Theorem headerRowOf_names (draw : nat -> string) (cells : list string) :
  length (headerRowOf draw 0 cells) = length cells
  /\ Forall (fun c => c <> "") (headerRowOf draw 0 cells)
  /\ (forall i x, cells !! i = Some x -> trim x <> "" ->
        headerRowOf draw 0 cells !! i = Some (trim x))
  /\ (forall i x, cells !! i = Some x -> trim x = "" ->
        exists k, headerRowOf draw 0 cells !! i = Some ("unnamed_" +:+ draw k)).
Proof.
  split_ands.
  - apply headerRowOf_length.
  - apply headerRowOf_nonblank.
  - intros i x Hi. now apply headerRowOf_lookup.
  - intros i x Hi He. destruct (proj2 (headerRowOf_lookup draw 0 cells i x Hi) He)
      as (k & _ & Hk). now exists k.
Qed.
(** *** Every row of a record *)

Lemma imageRows_lookup_inv ctx pos extra j out :
  imageRows ctx pos extra !! j = Some out ->
  exists url, extra !! j = Some url /\ out = imageRow ctx url (pos + Z.of_nat j).
Proof.
  intros H. destruct (extra !! j) as [url|] eqn:E.
  - exists url. split; [reflexivity|]. rewrite (imageRows_lookup _ _ _ _ _ E) in H.
    now inversion H.
  - apply lookup_ge_None in E. rewrite <- (imageRows_length ctx pos) in E.
    apply lookup_ge_None in E. congruence.
Qed.

(** a property of all rows of a record follows from its holding on the
    variant rows and on the image rows *)
Lemma processRecord_Forall (P : outrow -> Prop) cols r row :
  (forall i size, P (withPrimary (contextOf r row) i (plainRow cols r row (contextOf r row) size))) ->
  (forall url pos, P (imageRow (contextOf r row) url pos)) ->
  Forall P (processRecord cols r row).
Proof.
  intros Hv Hi. unfold processRecord. destruct (skipped r row); [constructor|].
  cbv zeta. apply Forall_app. split; apply Forall_lookup; intros i out Ho.
  - destruct (variants (contextOf r row) !! i) as [size|] eqn:E.
    + rewrite (variantRows_lookup _ _ _ _ _ _ _ E) in Ho. inversion Ho. apply Hv.
    + apply lookup_ge_None in E.
      rewrite <- (variantRows_length cols r row (contextOf r row) true) in E.
      apply lookup_ge_None in E. congruence.
  - apply imageRows_lookup_inv in Ho as (url & _ & ->). apply Hi.
Qed.

Lemma baseRow_head cols row ctx :
  baseRow cols row ctx !! "Title" = Some (VStr (title ctx))
  /\ baseRow cols row ctx !! "URL handle" = Some (VStr (handleBase ctx)).
Proof.
  unfold baseRow, handleTemplateCol.
  rewrite !applyExtras_lookup_ne by (vm_compute; reflexivity).
  generalize emptyRow. intros e. split; peel; reflexivity.
Qed.

Lemma plainRow_constants cols r row ctx size :
  let out := plainRow cols r row ctx size in
  out !! "Title" = Some (VStr (title ctx))
  /\ out !! "URL handle" = Some (VStr (handleBase ctx))
  /\ out !! "SEO title" = Some (VStr (title ctx))
  /\ out !! "Published on online store" = Some (VStr "TRUE")
  /\ out !! "Status" = Some (VStr "Active")
  /\ out !! "Charge tax" = Some (VStr "TRUE")
  /\ out !! "Requires shipping" = Some (VStr "TRUE")
  /\ out !! "Fulfillment service" = Some (VStr "manual")
  /\ out !! "Gift card" = Some (VStr "FALSE").
Proof.
  cbv zeta. destruct (baseRow_head cols row ctx) as [Hb1 Hb2].
  open_plainRow cols row ctx.
  revert Hb1 Hb2. generalize (baseRow cols row ctx). intros base Hb1 Hb2.
  split_ands; peel; try reflexivity; assumption.
Qed.

(** X11. All rows of a record, variant rows and image rows alike, carry
    the same handle: the slug of the record's trimmed title. *)
Theorem rows_share_handle (cols : list string) (r : roles) (row : record) :
  Forall (fun out => out !! "URL handle" = Some (VStr (slugify (titleOf r row))))
         (processRecord cols r row).
Proof.
  apply processRecord_Forall.
  - intros i size. rewrite withPrimary_agree by discriminate.
    now destruct (plainRow_constants cols r row (contextOf r row) size) as (_ & H & _).
  - intros url pos. rewrite imageRow_lookup. reflexivity.
Qed.

(** X12. Every variant row of a record carries the record's trimmed title
    as Title and SEO title, and the fixed values of the template:
    published, active, taxed, shipped, fulfilled manually, no gift card. *)
Theorem variant_row_constants (cols : list string) (r : roles) (row : record)
        (i : nat) (size : string) :
  skipped r row = false ->
  variantsOf (sizeCols r) row !! i = Some size ->
  exists out,
    processRecord cols r row !! i = Some out
    /\ out !! "Title" = Some (VStr (titleOf r row))
    /\ out !! "SEO title" = Some (VStr (titleOf r row))
    /\ out !! "Published on online store" = Some (VStr "TRUE")
    /\ out !! "Status" = Some (VStr "Active")
    /\ out !! "Charge tax" = Some (VStr "TRUE")
    /\ out !! "Requires shipping" = Some (VStr "TRUE")
    /\ out !! "Fulfillment service" = Some (VStr "manual")
    /\ out !! "Gift card" = Some (VStr "FALSE").
Proof.
  intros Hs Hi. eexists. split; [apply processRecord_variant; eassumption|].
  rewrite !withPrimary_agree by discriminate.
  destruct (plainRow_constants cols r row (contextOf r row) size)
    as (H1 & _ & H3 & H4 & H5 & H6 & H7 & H8 & H9).
  split_ands; assumption.
Qed.

Lemma variant_row_constants_witness :
  skipped sampleRoles sampleRow = false
  /\ variantsOf (sizeCols sampleRoles) sampleRow !! 1 = Some "S"
  /\ exists out,
       processRecord sampleCols sampleRoles sampleRow !! 1 = Some out
       /\ out !! "Title" = Some (VStr "Kids' T-Shirt!!")
       /\ out !! "Status" = Some (VStr "Active").
Proof.
  assert (H1 : skipped sampleRoles sampleRow = false) by (vm_compute; reflexivity).
  assert (H2 : variantsOf (sizeCols sampleRoles) sampleRow !! 1 = Some "S")
    by (vm_compute; reflexivity).
  split; [exact H1|]. split; [exact H2|].
  destruct (variant_row_constants sampleCols sampleRoles sampleRow 1 "S" H1 H2)
    as (out & Ho & Ht & _ & _ & Hst & _).
  exists out. split; [exact Ho|]. split; [exact Ht | exact Hst].
Defined.
(** *** Images and tags of a record *)

Lemma pushImage_inv (images : list string) (url u : string) :
  In u (pushImage images url) -> In u images \/ (u = url /\ usable url = true).
Proof.
  unfold pushImage. destruct (usable url) eqn:E; simpl; [|now left].
  destruct (negb (inb url images)); [|now left].
  intros H. apply in_app_or in H as [H|[<-|[]]]; [now left | now right].
Qed.

Lemma pushImage_NoDup (images : list string) (url : string) :
  List.NoDup images -> List.NoDup (pushImage images url).
Proof.
  intros H. unfold pushImage. destruct (usable url); simpl; [|assumption].
  destruct (inb url images) eqn:E; simpl; [assumption|].
  apply inb_false in E. apply NoDup_ListNoDup, NoDup_app.
  split; [now apply NoDup_ListNoDup|]. split.
  - intros y Hy Hx. apply list_elem_of_In in Hy. apply list_elem_of_singleton in Hx.
    subst. contradiction.
  - apply NoDup_singleton.
Qed.

Lemma columnImages_inv (imageCols : list string) (row : record) (u : string) :
  In u (columnImages imageCols row) ->
  exists ic, In ic imageCols /\ u = trim (cell row ic) /\ usable u = true.
Proof.
  unfold columnImages.
  assert (H : forall acc,
             In u (fold_left (fun images ic => pushImage images (trim (cell row ic)))
                             imageCols acc) ->
             In u acc \/ exists ic, In ic imageCols /\ u = trim (cell row ic)
                                    /\ usable u = true).
  { induction imageCols as [|ic l IH]; intros acc Hin; simpl in *; [now left|].
    apply IH in Hin as [Hin|(ic' & H1 & H2)].
    - apply pushImage_inv in Hin as [Hin|[-> Hu]]; [now left|].
      right. exists ic. split; [now left | now split].
    - right. exists ic'. split; [now right | exact H2]. }
  intros Hin. apply H in Hin as [[]|Hin]. exact Hin.
Qed.

Lemma columnImages_NoDup (imageCols : list string) (row : record) :
  List.NoDup (columnImages imageCols row).
Proof.
  unfold columnImages.
  assert (H : forall acc, List.NoDup acc ->
             List.NoDup (fold_left (fun images ic => pushImage images (trim (cell row ic)))
                                   imageCols acc)).
  { induction imageCols as [|ic l IH]; intros acc Hacc; simpl; [assumption|].
    apply IH. now apply pushImage_NoDup. }
  apply H. constructor.
Qed.

(** X13. The image list of a record has no URL twice and holds no empty
    or "nan" entry; each of its entries is the trimmed cell of an image
    column or of the size-chart column. *)
Theorem images_distinct_and_usable (r : roles) (row : record) :
  List.NoDup (imagesOf r row)
  /\ Forall (fun u => u <> "" /\ toLowerCase u <> "nan") (imagesOf r row)
  /\ Forall (fun u => exists c, (In c (imageCols r) \/ resolved (sizeChartCol r) = Some c)
                                /\ u = trim (cell row c))
            (imagesOf r row).
Proof.
  unfold imagesOf. split_ands.
  - destruct (resolved (sizeChartCol r));
      [apply pushImage_NoDup|]; apply columnImages_NoDup.
  - apply List.Forall_forall. intros u Hu. apply usable_iff.
    destruct (resolved (sizeChartCol r)).
    + apply pushImage_inv in Hu as [Hu|[-> Hu]]; [|exact Hu].
      now apply columnImages_inv in Hu as (ic & _ & _ & Hus).
    + now apply columnImages_inv in Hu as (ic & _ & _ & Hus).
  - apply List.Forall_forall. intros u Hu.
    destruct (resolved (sizeChartCol r)) as [c|] eqn:Ec.
    + apply pushImage_inv in Hu as [Hu|[-> Hu]].
      * apply columnImages_inv in Hu as (ic & Hic & -> & _). exists ic. split; [now left | reflexivity].
      * exists c. split; [now right | reflexivity].
    + apply columnImages_inv in Hu as (ic & Hic & -> & _). exists ic. split; [now left | reflexivity].
Qed.

Lemma pushNew_cons (y x : string) (acc : list string) :
  pushNew y (x :: acc) = if String.eqb y x then x :: acc else x :: pushNew y acc.
Proof.
  unfold pushNew, inb. simpl. destruct (String.eqb y x); simpl; [reflexivity|].
  now destruct (existsb (String.eqb y) acc).
Qed.

Lemma fold_pushNew_cons (l acc : list string) (x : string) :
  fold_left (fun tags t => pushNew t tags) l (x :: acc)
  = x :: fold_left (fun tags t => pushNew t tags)
                   (List.filter (fun y => negb (String.eqb y x)) l) acc.
Proof.
  revert acc. induction l as [|y l IH]; intros acc; simpl; [reflexivity|].
  rewrite pushNew_cons. destruct (String.eqb y x); simpl; apply IH.
Qed.

(** X14. The tags written to a row are the record's tags with repetitions
    removed: no tag occurs twice, none is lost, and each stands where it
    was first seen. *)
Theorem tags_first_seen (cols : list string) (r : roles) (row : record)
        (variants : list string) :
  tagsOf cols r row variants = dedupe (rawTagsOf cols r row variants)
  /\ List.NoDup (tagsOf cols r row variants)
  /\ (forall t, In t (tagsOf cols r row variants) <-> In t (rawTagsOf cols r row variants))
  /\ dedupe [] = []
  /\ (forall x l, dedupe (x :: l)
                  = x :: dedupe (List.filter (fun y => negb (String.eqb y x)) l)).
Proof.
  split_ands.
  - reflexivity.
  - apply dedupe_NoDup.
  - intros t. apply dedupe_In.
  - reflexivity.
  - intros x l. unfold dedupe. simpl. apply fold_pushNew_cons.
Qed.
(** *** Whole sheets *)

Lemma flat_map_length {A B} (f : A -> list B) (l : list A) :
  length (flat_map f l) = sum_list_with (fun x => length (f x)) l.
Proof.
  induction l as [|x l IH]; simpl; [reflexivity|]. now rewrite length_app, IH.
Qed.

(** X15. The data rows written for a sheet are those of its records, one
    record after the other: a record with a blank or "nan" title adds none,
    any other adds max(1, variantCount) + max(0, imageCount - 1). *)
Theorem sheet_row_count (draw : nat -> string) (rawData : list (list string)) :
  let r := resolveRoles (headerOf draw rawData) (dataFrameOf draw rawData) in
  length (outRowsOf draw rawData)
  = sum_list_with
      (fun row => if skipped r row then 0
                  else Nat.max 1 (variantCount r row) + (imageCount r row - 1))
      (dataFrameOf draw rawData).
Proof.
  intros r. unfold outRowsOf. cbv zeta. fold r. rewrite flat_map_length.
  clearbody r. generalize (dataFrameOf draw rawData). intros df.
  induction df as [|row df IH]; [reflexivity|].
  change (sum_list_with ?f (row :: df)) with (f row + sum_list_with f df).
  rewrite IH. f_equal.
  destruct (skipped r row) eqn:Hs.
  - unfold processRecord. now rewrite Hs.
  - rewrite (processRecord_length _ _ _ Hs), variantsOf_length. reflexivity.
Qed.

Lemma unparse_no_rows : unparse TEMPLATE_COLS [] = join "," TEMPLATE_COLS +:+ newline.
Proof. vm_compute. reflexivity. Qed.

(** X16. A sheet that ends with its header row, such as a sheet of a
    single row, yields the header line of the template followed by a line
    break: the serializer writes one empty row when there is no data. *)
Theorem header_only_sheet (draw : nat -> string) (rawData : list (list string)) :
  rawData <> [] ->
  drop (detectHeaderRow rawData + 1) rawData = [] ->
  outRowsOf draw rawData = []
  /\ processSingleFile draw (ParseComplete rawData)
     = Resolved (join "," TEMPLATE_COLS +:+ newline).
Proof.
  intros Hne Hdrop. destruct rawData as [|line rest]; [contradiction|].
  assert (Hrows : outRowsOf draw (line :: rest) = []).
  { unfold outRowsOf, dataFrameOf. cbv zeta. rewrite Hdrop. reflexivity. }
  split; [exact Hrows|].
  unfold processSingleFile. f_equal. rewrite <- unparse_no_rows. f_equal. exact Hrows.
Qed.

Lemma header_only_sheet_witness :
  [["Title"; "Price"; ""]] <> []
  /\ drop (detectHeaderRow [["Title"; "Price"; ""]] + 1) [["Title"; "Price"; ""]] = []
  /\ processSingleFile (fun _ => "0.5") (ParseComplete [["Title"; "Price"; ""]])
     = Resolved (join "," TEMPLATE_COLS +:+ newline).
Proof.
  split; [discriminate|]. split; [reflexivity|].
  exact (proj2 (header_only_sheet (fun _ => "0.5") [["Title"; "Price"; ""]]
                  ltac:(discriminate) eq_refl)).
Defined.

(** *** Archives *)

Lemma fold_addEntry_Some (l : list file) (zip : archive) (k v : string) :
  fold_left addEntry l zip !! k = Some v ->
  zip !! k = Some v \/ exists f, f ∈ l /\ entryOf f = (k, v).
Proof.
  revert zip. induction l as [|g l IH]; intros zip H; simpl in *; [now left|].
  apply IH in H as [H|(f & Hf & He)]; [|right; exists f; split; [now right | exact He]].
  unfold addEntry in H. destruct (decide ((entryOf g).1 = k)) as [Hk|Hk].
  - subst k. rewrite lookup_insert_eq in H. inversion H. right. exists g.
    split; [now left | now destruct (entryOf g)].
  - rewrite lookup_insert_ne in H by assumption. now left.
Qed.

Lemma zipAfter_entry (pre post : list file) (f : file) :
  Forall (fun g => entryName g <> entryName f) post ->
  zipAfter (pre ++ f :: post) !! entryName f = Some (entryOf f).2.
Proof.
  intros H. unfold zipAfter. rewrite fold_left_app. simpl.
  rewrite fold_addEntry_lookup_ne by exact H. unfold addEntry. apply lookup_insert_eq.
Qed.

Lemma distinct_names_split (order : list file) (f : file) :
  NoDup (map entryName order) -> f ∈ order ->
  exists pre post, order = pre ++ f :: post
                   /\ Forall (fun g => entryName g <> entryName f) (pre ++ post).
Proof.
  intros Hnd Hf. apply list_elem_of_split in Hf as (pre & post & ->).
  exists pre, post. split; [reflexivity|].
  rewrite map_app in Hnd. simpl in Hnd.
  apply NoDup_ListNoDup, NoDup_remove_2 in Hnd. rewrite <- map_app in Hnd.
  apply List.Forall_forall. intros g Hg Heq. apply Hnd. rewrite <- Heq. now apply in_map.
Qed.

Lemma zipAfter_lookup (order : list file) (k v : string) :
  NoDup (map entryName order) ->
  zipAfter order !! k = Some v <-> exists f, f ∈ order /\ entryOf f = (k, v).
Proof.
  intros Hnd. split.
  - intros H. apply fold_addEntry_Some in H as [H|H]; [|exact H].
    rewrite lookup_empty in H. discriminate.
  - intros (f & Hf & He).
    destruct (distinct_names_split order f Hnd Hf) as (pre & post & -> & Hall).
    apply Forall_app in Hall as [_ Hpost].
    pose proof (zipAfter_entry pre post f Hpost) as Hz.
    unfold entryName in Hz. rewrite He in Hz. exact Hz.
Qed.

Lemma zipAfter_perm (l1 l2 : list file) :
  l1 ≡ₚ l2 -> NoDup (map entryName l1) -> zipAfter l1 = zipAfter l2.
Proof.
  intros Hp Hnd.
  assert (Hnd2 : NoDup (map entryName l2)) by (now rewrite <- Hp).
  apply map_eq. intros k. apply option_eq. intros v.
  rewrite (zipAfter_lookup l1 k v Hnd), (zipAfter_lookup l2 k v Hnd2).
  split; intros (f & Hf & He); exists f; (split; [|exact He]).
  - now rewrite <- Hp.
  - now rewrite Hp.
Qed.

Lemma zipAfter_size (order : list file) :
  NoDup (map entryName order) -> size (zipAfter order) = length order.
Proof.
  induction order as [|f l IH] using rev_ind; intros Hnd.
  - reflexivity.
  - rewrite map_app in Hnd. apply NoDup_app in Hnd as (Hl & Hdis & _).
    unfold zipAfter. rewrite fold_left_app. simpl. unfold addEntry at 1.
    rewrite map_size_insert_None.
    + fold (zipAfter l). rewrite IH by exact Hl. rewrite length_app. simpl. lia.
    + fold (zipAfter l). destruct (zipAfter l !! (entryOf f).1) as [v|] eqn:E; [|reflexivity].
      exfalso. apply (zipAfter_lookup l _ _ Hl) in E as (g & Hg & He).
      apply (Hdis (entryName g)).
      * apply list_elem_of_fmap. now exists g.
      * unfold entryName. rewrite He. simpl. left.
Qed.

(** X17. When the files of a batch give pairwise distinct entry names, the
    order in which their tasks settle does not matter: every run yields the
    archive that processing in upload order yields, it has one entry per
    file, and each file's entry is in it under the file's entry name. *)
Theorem batch_archive_determined (files : list file) (category : Category)
        (zip : archive) :
  NoDup (map entryName files) ->
  processFiles files category zip ->
  zip = zipAfter files
  /\ size zip = length files
  /\ (forall f, f ∈ files -> zip !! entryName f = Some (entryOf f).2)
  /\ (forall k v, zip !! k = Some v -> exists f, f ∈ files /\ entryOf f = (k, v)).
Proof.
  intros Hnd Hrun. destruct Hrun as [order Horder].
  assert (Hnd' : NoDup (map entryName order)) by (now rewrite Horder).
  rewrite (zipAfter_perm order files Horder Hnd'). split_ands.
  - reflexivity.
  - now apply zipAfter_size.
  - intros f Hf. apply (zipAfter_lookup files _ _ Hnd). exists f. split; [exact Hf|].
    unfold entryName. now destruct (entryOf f).
  - intros k v H. now apply (zipAfter_lookup files k v Hnd).
Qed.

Lemma batch_archive_determined_witness :
  NoDup (map entryName [goodFile; brokenFile])
  /\ processFiles [goodFile; brokenFile] FASHION (zipAfter [brokenFile; goodFile])
  /\ zipAfter [brokenFile; goodFile] = zipAfter [goodFile; brokenFile]
  /\ size (zipAfter [brokenFile; goodFile]) = 2.
Proof.
  assert (Hnd : NoDup (map entryName [goodFile; brokenFile])).
  { apply NoDup_ListNoDup. vm_compute.
    constructor; [|constructor; [|constructor]]; simpl; intuition discriminate. }
  assert (Hrun : processFiles [goodFile; brokenFile] FASHION (zipAfter [brokenFile; goodFile]))
    by (constructor; apply Permutation_swap).
  split; [exact Hnd|]. split; [exact Hrun|].
  destruct (batch_archive_determined _ _ _ Hnd Hrun) as (H1 & H2 & _).
  split; [exact H1 | exact H2].
Defined.

Lemma entryOf_resolved (f : file) (csv : string) :
  processSingleFile (draws f) (parseResult f) = Resolved csv ->
  entryOf f = (convertedEntryName f, csv).
Proof. intros H. unfold entryOf, convertedEntryName. now rewrite H. Qed.

(** X18. A file that converts adds one entry to the archive, named by its
    name without the extension followed by " - Converted - Shopify.csv" and
    holding the converted sheet; when no other file of the batch gives that
    entry name, the archive is, but for this entry, the one a run over the
    other files yields. *)
Theorem converted_file_entry (files rest : list file) (category : Category)
        (zip : archive) (f : file) (csv : string) :
  processFiles files category zip ->
  files ≡ₚ f :: rest ->
  Forall (fun g => entryName g <> convertedEntryName f) rest ->
  processSingleFile (draws f) (parseResult f) = Resolved csv ->
  exists zip',
    processFiles rest category zip'
    /\ zip' !! (dropExtension (name f) +:+ " - Converted - Shopify.csv") = None
    /\ zip = <[dropExtension (name f) +:+ " - Converted - Shopify.csv" := csv]> zip'.
Proof.
  intros Hrun Hperm Hother Hok. destruct Hrun as [order Horder].
  assert (Hf : f ∈ order) by (rewrite Horder, Hperm; left).
  apply list_elem_of_split in Hf as (pre & post & ->).
  assert (Hrest : pre ++ post ≡ₚ rest).
  { apply (Permutation_cons_inv (a := f)). rewrite Permutation_middle, Horder. exact Hperm. }
  rewrite <- Hrest in Hother.
  exists (zipAfter (pre ++ post)). split; [now constructor|].
  fold (convertedEntryName f). split.
  - unfold zipAfter. rewrite fold_addEntry_lookup_ne by exact Hother. apply lookup_empty.
  - unfold zipAfter. rewrite !fold_left_app. simpl.
    apply Forall_app in Hother as [_ Hpost].
    unfold addEntry at 2. rewrite (entryOf_resolved f csv Hok). simpl.
    now apply fold_addEntry_insert.
Qed.
Lemma zipAfter_same_name (f g : file) (n cf cg : string) :
  entryOf f = (n, cf) -> entryOf g = (n, cg) -> zipAfter [f; g] = {[ n := cg ]}.
Proof.
  intros Hf Hg. unfold zipAfter. simpl. unfold addEntry. rewrite Hf, Hg. simpl.
  rewrite insert_insert_eq. apply insert_empty.
Qed.

(** X19. Two files that both convert and whose names differ in the
    extension only give the same entry name: the archive of the two holds a
    single entry, with the sheet of the file whose task settled last, and
    either outcome is a possible run. *)
Theorem same_stem_overwrite (f g : file) (category : Category) (cf cg : string) :
  processSingleFile (draws f) (parseResult f) = Resolved cf ->
  processSingleFile (draws g) (parseResult g) = Resolved cg ->
  dropExtension (name f) = dropExtension (name g) ->
  (forall zip, processFiles [f; g] category zip ->
     size zip = 1
     /\ (zip = {[ convertedEntryName f := cf ]} \/ zip = {[ convertedEntryName f := cg ]}))
  /\ processFiles [f; g] category {[ convertedEntryName f := cf ]}
  /\ processFiles [f; g] category {[ convertedEntryName f := cg ]}.
Proof.
  intros Hf Hg Hn.
  pose proof (entryOf_resolved f cf Hf) as Ef.
  pose proof (entryOf_resolved g cg Hg) as Eg.
  assert (Hname : convertedEntryName g = convertedEntryName f)
    by (unfold convertedEntryName; now rewrite Hn).
  rewrite Hname in Eg.
  pose proof (zipAfter_same_name f g _ cf cg Ef Eg) as Hfg.
  pose proof (zipAfter_same_name g f _ cg cf Eg Ef) as Hgf.
  split_ands.
  - intros zip Hrun. destruct Hrun as [order Horder]. symmetry in Horder.
    apply Permutation_length_2_inv in Horder as [-> | ->].
    + rewrite Hfg. split; [apply map_size_singleton | now right].
    + rewrite Hgf. split; [apply map_size_singleton | now left].
  - rewrite <- Hgf. constructor. apply Permutation_swap.
  - rewrite <- Hfg. constructor. reflexivity.
Qed.

Lemma same_stem_overwrite_witness :
  dropExtension (name reportCsv) = dropExtension (name reportTxt)
  /\ exists cf cg,
       processSingleFile (draws reportCsv) (parseResult reportCsv) = Resolved cf
       /\ processSingleFile (draws reportTxt) (parseResult reportTxt) = Resolved cg
       /\ cf <> cg
       /\ processFiles [reportCsv; reportTxt] ESSENTIALS {[ "report - Converted - Shopify.csv" := cf ]}
       /\ processFiles [reportCsv; reportTxt] ESSENTIALS {[ "report - Converted - Shopify.csv" := cg ]}.
Proof.
  split; [reflexivity|].
  destruct (processSingleFile (draws reportCsv) (parseResult reportCsv)) as [cf|e] eqn:Ef;
    [|vm_compute in Ef; discriminate Ef].
  destruct (processSingleFile (draws reportTxt) (parseResult reportTxt)) as [cg|e] eqn:Eg;
    [|vm_compute in Eg; discriminate Eg].
  exists cf, cg. split; [reflexivity|]. split; [reflexivity|]. split.
  - intros ->. rewrite <- Ef in Eg. vm_compute in Eg. discriminate Eg.
  - exact (proj2 (same_stem_overwrite reportCsv reportTxt ESSENTIALS cf cg Ef Eg eq_refl)).
Defined.

Lemma converted_file_entry_witness :
  processFiles [goodFile; brokenFile] FASHION (zipAfter [brokenFile; goodFile])
  /\ exists csv zip',
       processSingleFile (draws goodFile) (parseResult goodFile) = Resolved csv
       /\ processFiles [brokenFile] FASHION zip'
       /\ zip' !! "b - Converted - Shopify.csv" = None
       /\ zipAfter [brokenFile; goodFile] = <["b - Converted - Shopify.csv" := csv]> zip'.
Proof.
  assert (Hrun : processFiles [goodFile; brokenFile] FASHION (zipAfter [brokenFile; goodFile]))
    by (constructor; apply Permutation_swap).
  split; [exact Hrun|].
  destruct (processSingleFile (draws goodFile) (parseResult goodFile)) as [csv|e] eqn:E;
    [|vm_compute in E; discriminate E].
  exists csv.
  assert (Hother : Forall (fun g => entryName g <> convertedEntryName goodFile) [brokenFile]).
  { constructor; [|constructor]. vm_compute. discriminate. }
  destruct (converted_file_entry [goodFile; brokenFile] [brokenFile] FASHION _ goodFile csv
              Hrun (Permutation_refl _) Hother E) as (zip' & H1 & H2 & H3).
  exists zip'. split; [reflexivity|]. split; [exact H1|]. split; [exact H2 | exact H3].
Defined.

(** *** File names *)

Lemma takeWhile_app_stop {A} (p : A -> bool) (a b : list A) (x : A) :
  Forall (fun c => p c = true) a -> p x = false ->
  takeWhile p (a ++ x :: b) = a.
Proof.
  intros Ha Hx. induction Ha as [|c a Hc Ha IH]; simpl.
  - now rewrite Hx.
  - now rewrite Hc, IH.
Qed.

Lemma takeWhile_drop_head {A} (p : A -> bool) (l : list A) :
  match drop (length (takeWhile p l)) l with
  | [] => True
  | c :: _ => p c = false /\ In c l
  end.
Proof.
  induction l as [|x l IH]; simpl; [exact I|].
  destruct (p x) eqn:E; simpl.
  - destruct (drop _ l); [exact I|]. destruct IH. split; [assumption | now right].
  - split; [assumption | now left].
Qed.

Lemma dropExtension_split (name : string) (ext stem : list ascii) :
  rev (chars name) = ext ++ "."%char :: stem -> ext <> [] ->
  Forall (fun c => negb (isChar c "." || isChar c "/") = true) ext ->
  dropExtension name = text (rev stem).
Proof.
  intros Hc Hne Hall. unfold dropExtension. rewrite Hc.
  rewrite takeWhile_app_stop by (exact Hall || reflexivity).
  destruct ext as [|a l]; [contradiction|].
  rewrite drop_app_length. reflexivity.
Qed.

(** X20. [dropExtension] removes a final extension and nothing else: a dot
    followed by one or more characters other than a dot and a slash, at the
    end of the name, goes with what follows it; a name without a dot and a
    name that ends in a dot stay as they are, and of several extensions
    only the last goes. *)
Theorem dropExtension_spec :
  (forall stem ext, ext <> "" ->
     Forall (fun c => c <> "."%char /\ c <> "/"%char) (chars ext) ->
     dropExtension (stem +:+ "." +:+ ext) = stem)
  /\ (forall name, Forall (fun c => c <> "."%char) (chars name) -> dropExtension name = name)
  /\ (forall stem, dropExtension (stem +:+ ".") = stem +:+ ".")
  /\ dropExtension "a.b.csv" = "a.b"
  /\ dropExtension "dir.v2/sheet" = "dir.v2/sheet".
Proof.
  split_ands.
  - intros stem ext Hne Hall.
    assert (Hc : rev (chars (stem +:+ "." +:+ ext))
                 = rev (chars ext) ++ "."%char :: rev (chars stem)).
    { rewrite !chars_append. change (chars ".") with ["."%char].
      rewrite !rev_app_distr. simpl. now rewrite <- app_assoc. }
    assert (Hrev : Forall (fun c => negb (isChar c "." || isChar c "/") = true) (rev (chars ext))).
    { apply List.Forall_forall. intros c Hin. apply in_rev in Hin.
      rewrite List.Forall_forall in Hall. destruct (Hall c Hin) as [H1 H2].
      unfold isChar. apply Ascii.eqb_neq in H1, H2. now rewrite H1, H2. }
    assert (Hext : rev (chars ext) <> []).
    { intros E. apply Hne, chars_inj. simpl.
      apply (f_equal (@rev ascii)) in E. now rewrite rev_involutive in E. }
    rewrite <- (text_chars stem) at 2. rewrite <- (rev_involutive (chars stem)).
    apply dropExtension_split with (ext := rev (chars ext)); assumption.
  - intros name Hall. unfold dropExtension.
    pose proof (takeWhile_drop_head (fun c => negb (isChar c "." || isChar c "/")) (rev (chars name))) as H.
    destruct (takeWhile _ _) as [|e ext]; [reflexivity|].
    destruct (drop _ _) as [|c stem]; [reflexivity|].
    destruct H as [_ Hin]. apply in_rev in Hin.
    rewrite List.Forall_forall in Hall. apply Hall, Ascii.eqb_neq in Hin.
    unfold isChar. now rewrite Hin.
  - intros stem. unfold dropExtension. rewrite chars_append.
    change (chars ".") with ["."%char]. rewrite rev_app_distr. reflexivity.
  - reflexivity.
  - reflexivity.
Qed.
(** *** Age groups *)

Lemma scanPatterns_eq tags tag variant patterns :
  scanPatterns tags tag variant patterns
  = if existsb (patternMatches variant) patterns then pushNew tag tags else tags.
Proof.
  induction patterns as [|p ps IH]; simpl; [reflexivity|].
  destruct (patternMatches variant p); [reflexivity | exact IH].
Qed.

Lemma scanVariants_eq tags group nv :
  inb (tag group) tags = false ->
  scanVariants tags group nv
  = if existsb (fun v => nonEmpty v && existsb (patternMatches v) (patterns group)) nv
    then tags ++ [tag group] else tags.
Proof.
  intros Hno. induction nv as [|v vs IH]; simpl; [reflexivity|].
  destruct (nonEmpty v); simpl; [|exact IH].
  rewrite scanPatterns_eq.
  destruct (existsb (patternMatches v) (patterns group)); simpl.
  - unfold pushNew. rewrite Hno.
    assert (Hin : inb (tag group) (tags ++ [tag group]) = true).
    { apply inb_In, in_or_app. right. now left. }
    now rewrite Hin.
  - rewrite Hno. exact IH.
Qed.

Lemma existsb_normalized (group : AgeGroupConfig) (variants : list string) :
  existsb (fun v => nonEmpty v && existsb (patternMatches v) (patterns group))
          (map normalizeSizeForMatching
               (List.filter (fun v => nonEmpty v && negb (String.eqb v "Default")) variants))
  = groupFires variants group.
Proof.
  unfold groupFires. induction variants as [|v vs IH]; simpl; [reflexivity|].
  unfold variantFires at 1.
  destruct (nonEmpty v && negb (String.eqb v "Default")); simpl; [|exact IH].
  now rewrite IH.
Qed.

Lemma fold_scanVariants_eq (groups : list AgeGroupConfig) (variants tags : list string) :
  List.NoDup (map tag groups) ->
  (forall g, In g groups -> ~ In (tag g) tags) ->
  fold_left (fun tags group =>
               scanVariants tags group
                 (map normalizeSizeForMatching
                    (List.filter (fun v => nonEmpty v && negb (String.eqb v "Default")) variants)))
            groups tags
  = tags ++ map tag (List.filter (groupFires variants) groups).
Proof.
  revert tags. induction groups as [|g gs IH]; intros tags Hnd Hfresh; simpl.
  - now rewrite app_nil_r.
  - inversion Hnd as [|? ? Hg Hgs]; subst.
    rewrite scanVariants_eq by (apply inb_false, Hfresh; now left).
    rewrite existsb_normalized.
    destruct (groupFires variants g); simpl.
    + rewrite IH; [now rewrite <- app_assoc | exact Hgs |].
      intros g' Hg' Hin. apply in_app_or in Hin as [Hin|[Heq|[]]].
      * apply (Hfresh g'); [now right | exact Hin].
      * apply Hg. rewrite Heq. now apply in_map.
    + apply IH; [exact Hgs|]. intros g' Hg'. apply Hfresh. now right.
Qed.

(** X21. The age-group tags of a list of variants are the tags of the
    groups that fire, in the order of the groups' table, each once: a group
    fires when some listed variant, other than the empty one and "Default",
    is after normalization not empty and equal to one of the group's
    patterns, or contains one of its patterns of three characters or more.
    So for the boys' and for the girls' table. *)
Theorem age_group_tags_exact (variants : list string) :
  getBoyAgeGroupTags variants = map tag (List.filter (groupFires variants) boyAgeGroups)
  /\ getGirlAgeGroupTags variants = map tag (List.filter (groupFires variants) girlAgeGroups)
  /\ (forall group, groupFires variants group = true <->
        exists v pattern,
          In v variants /\ v <> "" /\ v <> "Default"
          /\ normalizeSizeForMatching v <> ""
          /\ In pattern (patterns group)
          /\ (pattern = normalizeSizeForMatching v
              \/ (3 <= String.length pattern
                  /\ includes (normalizeSizeForMatching v) pattern = true))).
Proof.
  split_ands.
  - unfold getBoyAgeGroupTags, ageGroupTagsFor.
    rewrite fold_scanVariants_eq; [reflexivity | | intros g _ []].
    vm_compute. repeat (constructor; [simpl; intuition discriminate|]). constructor.
  - unfold getGirlAgeGroupTags, ageGroupTagsFor.
    rewrite fold_scanVariants_eq; [reflexivity | | intros g _ []].
    vm_compute. repeat (constructor; [simpl; intuition discriminate|]). constructor.
  - intros group. unfold groupFires. rewrite existsb_exists. split.
    + intros (v & Hv & Hf). unfold variantFires in Hf.
      apply andb_prop in Hf as [Hk Hm]. apply andb_prop in Hk as [Hne Hd].
      apply andb_prop in Hm as [Hn Hp].
      apply existsb_exists in Hp as (pattern & Hpat & Hpm).
      exists v, pattern. split_ands; try assumption.
      * now apply nonEmpty_true.
      * apply negb_true_iff, String.eqb_neq in Hd. exact Hd.
      * now apply nonEmpty_true.
      * unfold patternMatches in Hpm. apply orb_prop in Hpm as [He|Hi].
        -- left. now apply String.eqb_eq.
        -- right. apply andb_prop in Hi as [Hl Hi]. split; [now apply Nat.leb_le | exact Hi].
    + intros (v & pattern & Hv & Hne & Hd & Hn & Hpat & Hm).
      exists v. split; [exact Hv|]. unfold variantFires.
      apply nonEmpty_true in Hne, Hn. rewrite Hne, Hn.
      apply String.eqb_neq in Hd. rewrite Hd. simpl.
      apply existsb_exists. exists pattern. split; [exact Hpat|].
      unfold patternMatches. destruct Hm as [He|[Hl Hi]].
      * subst pattern. now rewrite String.eqb_refl.
      * apply Nat.leb_le in Hl. rewrite Hl, Hi. apply orb_true_r.
Qed.
(** *** Description *)

Lemma findColByNames_same_name (cols : list string) (a b : string) :
  normalize a = normalize b -> squash a = squash b ->
  findColByNames cols [a] = findColByNames cols [b].
Proof.
  intros Hn Hs. unfold findColByNames. simpl. now rewrite Hn, Hs.
Qed.

(** X22. The description of a row is put together from three header names,
    "Product Specifcation", "Product Specification" and "Product
    specification"; the last two always find the same column, so the text
    of a specification column goes into the description twice, the copies
    separated by an empty line. *)
Theorem description_repeats_specification (cols : list string) (row : record) :
  findColByNames cols ["Product specification"] = findColByNames cols ["Product Specification"]
  /\ descriptionOf cols row
     = join paragraphBreak
         (specText cols row "Product Specifcation"
          ++ specText cols row "Product Specification"
          ++ specText cols row "Product Specification")
  /\ (forall c v,
        findColByNames cols ["Product Specifcation"] = None ->
        findColByNames cols ["Product Specification"] = Some c ->
        c <> "" -> row !! c = Some v -> trim v <> "" ->
        descriptionOf cols row = trim v +:+ paragraphBreak +:+ trim v)
  /\ descriptionOf ["Title"; "Product Specification"]
                   (recordOf ["Title"; "Product Specification"] ["Cap"; " Soft cotton "])
     = "Soft cotton" +:+ paragraphBreak +:+ "Soft cotton".
Proof.
  assert (Hsame : findColByNames cols ["Product specification"]
                  = findColByNames cols ["Product Specification"])
    by (apply findColByNames_same_name; reflexivity).
  assert (Hdesc : descriptionOf cols row
     = join paragraphBreak
         (specText cols row "Product Specifcation"
          ++ specText cols row "Product Specification"
          ++ specText cols row "Product Specification")).
  { unfold descriptionOf. cbv zeta. fold paragraphBreak. f_equal.
    cbn [fold_left]. rewrite Hsame. unfold specText.
    destruct (resolved (findColByNames cols ["Product Specifcation"])) as [c1|];
      destruct (resolved (findColByNames cols ["Product Specification"])) as [c2|];
      try destruct (row !! c1) as [v1|]; try destruct (row !! c2) as [v2|];
      try destruct (nonEmpty v1 && nonEmpty (trim v1));
      try destruct (nonEmpty v2 && nonEmpty (trim v2)); reflexivity. }
  split_ands.
  - exact Hsame.
  - exact Hdesc.
  - intros c v H1 H2 Hc Hv Ht. rewrite Hdesc. unfold specText.
    rewrite H1, H2. simpl resolved.
    apply nonEmpty_true in Hc. rewrite Hc. rewrite Hv.
    assert (Hne : nonEmpty v = true).
    { apply nonEmpty_true. intros ->. apply Ht. reflexivity. }
    apply nonEmpty_true in Ht. rewrite Hne, Ht. reflexivity.
  - vm_compute. reflexivity.
Qed.
(** *** The page *)

Lemma keepOthers_delete {A} (index : nat) (l : list A) (start : nat) :
  map snd (List.filter (fun p => negb (fst p =? start + index))
                       (combine (seq start (length l)) l))
  = delete index l.
Proof.
  revert index start. induction l as [|x l IH]; intros index start; simpl.
  - now destruct index.
  - destruct index as [|index].
    + rewrite Nat.add_0_r, Nat.eqb_refl. simpl.
      clear IH. assert (H : forall (k : list A) s, start < s ->
        map snd (List.filter (fun p => negb (fst p =? start)) (combine (seq s (length k)) k)) = k).
      { induction k as [|y k IHk]; intros s Hs; simpl; [reflexivity|].
        destruct (s =? start) eqn:E; [apply Nat.eqb_eq in E; lia|].
        simpl. f_equal. apply IHk. lia. }
      apply H. lia.
    + destruct (start =? start + S index) eqn:E; [apply Nat.eqb_eq in E; lia|].
      simpl. f_equal. replace (start + S index) with (S start + index) by lia.
      apply IH.
Qed.

(** X23. Removing a file from the list takes out the file at that index
    and keeps the others in their order; an index past the end leaves the
    list as it is, and nothing is removed while the uploader is disabled.
    Selecting files appends them to the list, without a check for files
    that are on it already, and selecting one file and removing the last
    entry gives the list back. *)
Theorem removeFile_spec (files : list file) (index : nat) :
  FileUploader.removeFile false files index = Some (delete index files)
  /\ FileUploader.removeFile true files index = None
  /\ (index < length files ->
      exists l, FileUploader.removeFile false files index = Some l
                /\ S (length l) = length files)
  /\ (length files <= index -> FileUploader.removeFile false files index = Some files)
  /\ (forall f l, FileUploader.handleInputChange files [f] = Some l ->
        l = files ++ [f]
        /\ FileUploader.removeFile false l (length files) = Some files)
  /\ (forall selected, selected <> [] ->
        FileUploader.handleInputChange files selected = Some (files ++ selected))
  /\ FileUploader.handleInputChange files [] = None.
Proof.
  assert (Hdel : forall (l : list file) i, FileUploader.removeFile false l i = Some (delete i l)).
  { intros l i. unfold FileUploader.removeFile. f_equal.
    apply (keepOthers_delete i l 0). }
  split_ands.
  - apply Hdel.
  - reflexivity.
  - intros Hlt. exists (delete index files). split; [apply Hdel|].
    rewrite length_delete by (apply lookup_lt_is_Some; exact Hlt). lia.
  - intros Hle. rewrite Hdel. f_equal. revert index Hle.
    induction files as [|x l IH]; intros [|i] Hle; simpl in *; try reflexivity; try lia.
    f_equal. apply IH. lia.
  - intros f l H. unfold FileUploader.handleInputChange in H. inversion H. subst l.
    split; [reflexivity|]. rewrite Hdel. f_equal.
    clear. induction files as [|x l IH]; simpl; [reflexivity|]. now rewrite IH.
  - intros selected Hne. destruct selected; [contradiction | reflexivity].
  - reflexivity.
Qed.
Lemma zipAfter_snoc (order : list file) (f : file) :
  zipAfter (order ++ [f]) = <[entryName f := (entryOf f).2]> (zipAfter order).
Proof. unfold zipAfter. now rewrite fold_left_app. Qed.

Lemma zipAfter_is_Some (order : list file) (k : string) :
  is_Some (zipAfter order !! k) <-> In k (map entryName order).
Proof.
  induction order as [|f l IH] using rev_ind.
  - unfold zipAfter. simpl. rewrite lookup_empty. split; [intros [? H]; discriminate H | intros []].
  - rewrite zipAfter_snoc, lookup_insert_is_Some', map_app, in_app_iff, IH. simpl. tauto.
Qed.

Lemma zipAfter_size_le (order : list file) : size (zipAfter order) <= length order.
Proof.
  induction order as [|f l IH] using rev_ind; [reflexivity|].
  rewrite zipAfter_snoc, map_size_insert, length_app. simpl.
  destruct (zipAfter l !! entryName f); simpl; lia.
Qed.

Lemma zipAfter_size_lt (order : list file) :
  ~ List.NoDup (map entryName order) -> size (zipAfter order) < length order.
Proof.
  induction order as [|f l IH] using rev_ind; intros Hdup.
  - exfalso. apply Hdup. constructor.
  - rewrite zipAfter_snoc, map_size_insert, length_app. simpl.
    pose proof (zipAfter_size_le l) as Hle.
    destruct (zipAfter l !! entryName f) as [v|] eqn:E; simpl; [lia|].
    assert (Hl : ~ List.NoDup (map entryName l)).
    { intros Hnd. apply Hdup. rewrite map_app. simpl.
      apply NoDup_ListNoDup, NoDup_app. split; [now apply NoDup_ListNoDup|]. split.
      - intros k Hk Hf. apply list_elem_of_In in Hk. apply list_elem_of_singleton in Hf. subst k.
        apply zipAfter_is_Some in Hk as [w Hw]. rewrite E in Hw. discriminate Hw.
      - apply NoDup_singleton. }
    specialize (IH Hl). lia.
Qed.

Lemma processFiles_size (files : list file) (category : Category) (zip : archive) :
  processFiles files category zip ->
  size zip <= length files /\ (files <> [] -> 1 <= size zip).
Proof.
  intros [order Horder]. split.
  - rewrite <- Horder. apply zipAfter_size_le.
  - intros Hne. destruct order as [|f l].
    + apply Permutation_nil in Horder. now subst.
    + assert (H : size (zipAfter (f :: l)) <> 0); [|lia].
      apply (map_size_ne_0_lookup_2 _ (entryName f)), zipAfter_is_Some. now left.
Qed.

(** X24. The archive of a batch has at least one entry, when there is a
    file, and at most one per file; it has one per file exactly when the
    files give pairwise distinct entry names, whatever the order in which
    the tasks settle. *)
Theorem archive_entry_count (files : list file) (category : Category) (zip : archive) :
  processFiles files category zip ->
  size zip <= length files
  /\ (files <> [] -> 1 <= size zip)
  /\ (size zip = length files <-> List.NoDup (map entryName files)).
Proof.
  intros Hrun. destruct (processFiles_size files category zip Hrun) as [Hle Hge].
  split; [exact Hle|]. split; [exact Hge|].
  destruct Hrun as [order Horder]. rewrite <- Horder. split.
  - intros Hsize. destruct (decide (NoDup (map entryName order))) as [Hnd|Hdup].
    + now apply NoDup_ListNoDup.
    + exfalso. assert (Hd : ~ List.NoDup (map entryName order))
        by (intros H; now apply Hdup, NoDup_ListNoDup).
      apply zipAfter_size_lt in Hd. lia.
  - intros Hnd. apply zipAfter_size. now apply NoDup_ListNoDup.
Qed.

Lemma archive_entry_count_witness :
  processFiles [reportCsv; reportTxt] TOYS (zipAfter [reportCsv; reportTxt])
  /\ size (zipAfter [reportCsv; reportTxt]) <= 2
  /\ ~ size (zipAfter [reportCsv; reportTxt]) = 2.
Proof.
  assert (Hrun : processFiles [reportCsv; reportTxt] TOYS (zipAfter [reportCsv; reportTxt]))
    by (constructor; reflexivity).
  split; [exact Hrun|].
  destruct (archive_entry_count _ _ _ Hrun) as (Hle & _ & Hiff).
  split; [exact Hle|].
  intros Hsize. apply Hiff in Hsize. inversion Hsize as [|? ? Hnotin _]; subst.
  apply Hnotin. vm_compute. left. reflexivity.
Defined.

(** *** The state of the page *)

Lemma consistent_initial (today : string) : App.consistent today App.initial.
Proof.
  unfold App.consistent. simpl. split_ands.
  - split; [discriminate | intros H; now contradiction H].
  - discriminate.
  - discriminate.
Qed.

Lemma consistent_files (today : string) (st : App.state) (l : list file) :
  App.isProcessing st = false ->
  App.consistent today st -> App.consistent today (App.handleFilesSelected st l).
Proof.
  intros Hp (Hs & Hproc & Hres). unfold App.consistent, App.handleFilesSelected, App.isProcessing in *.
  destruct (App.status st) eqn:E; simpl; try discriminate Hp.
  - assert (Hn : App.result st = None).
    { destruct (App.result st) eqn:Er; [|reflexivity].
      assert (H : Some p <> None) by discriminate. apply Hs in H. discriminate H. }
    rewrite Hn. split_ands.
    + split; [discriminate | intros H; now contradiction H].
    + discriminate.
    + discriminate.
  - split_ands.
    + split; [discriminate | intros H; now contradiction H].
    + discriminate.
    + discriminate.
  - split_ands.
    + split; [discriminate | intros H; now contradiction H].
    + discriminate.
    + discriminate.
Qed.

Lemma consistent_step (today : string) (st st' : App.state) :
  App.consistent today st -> App.step today st st' -> App.consistent today st'.
Proof.
  intros Hc Hstep. destruct Hstep as [selected l Hp Hl | index l Hl | c Hp | st' Hi Hst
                                      | c zip Hp Hcat Hrun | Hp | Hs Hr | He].
  - now apply consistent_files.
  - unfold FileUploader.removeFile in Hl.
    destruct (App.isProcessing st) eqn:Hp; [discriminate Hl|]. now apply consistent_files.
  - destruct Hc as (Hs & Hproc & Hres). unfold App.consistent, App.setCategory. simpl.
    split_ands; [exact Hs | | exact Hres].
    intros H. unfold App.isProcessing in Hp. rewrite H in Hp. discriminate Hp.
  - destruct Hc as (Hs & Hproc & Hres). unfold App.handleProcessStart in Hst.
    assert (Hn : App.result st = None).
    { destruct (App.result st) eqn:Er; [|reflexivity].
      assert (H : Some p <> None) by discriminate. apply Hs in H. rewrite Hi in H. discriminate H. }
    destruct (App.category st) as [c|] eqn:Ec; [|discriminate Hst].
    destruct (App.files st) as [|f fs] eqn:Ef; [discriminate Hst|].
    inversion Hst. subst st'. unfold App.consistent. simpl. rewrite Hn. split_ands.
    + split; [discriminate | intros H; now contradiction H].
    + intros _. split; discriminate.
    + discriminate.
  - destruct Hc as (Hs & Hproc & Hres). unfold App.consistent, App.handleProcessDone. simpl.
    destruct (Hproc Hp) as [Hne _]. split_ands.
    + split; [discriminate | reflexivity].
    + discriminate.
    + intros r Hr. inversion Hr. subst r. simpl. split_ands; [reflexivity | exact Hne |].
      exists c. split; [exact Hrun | reflexivity].
  - destruct Hc as (Hs & Hproc & Hres). unfold App.consistent, App.handleProcessFailed. simpl.
    assert (Hn : App.result st = None).
    { destruct (App.result st) eqn:Er; [|reflexivity].
      assert (H : Some p <> None) by discriminate. apply Hs in H. rewrite Hp in H. discriminate H. }
    rewrite Hn. split_ands.
    + split; [discriminate | intros H; now contradiction H].
    + discriminate.
    + discriminate.
  - apply consistent_initial.
  - destruct Hc as (Hs & Hproc & Hres). unfold App.consistent, App.setStatus. simpl.
    assert (Hn : App.result st = None).
    { destruct (App.result st) eqn:Er; [|reflexivity].
      assert (H : Some p <> None) by discriminate. apply Hs in H. rewrite He in H. discriminate H. }
    rewrite Hn. split_ands.
    + split; [discriminate | intros H; now contradiction H].
    + discriminate.
    + discriminate.
Qed.

(** X25. In every state the page can reach, a result is there exactly when
    the status is success, and it belongs to the files on the page: its
    count is their number, there is at least one file, its archive is one a
    run over these files yields, with at most count entries, and its name
    is a category in lower case, "_processed_", the date and ".zip".
    While processing there is a file and a category. *)
Theorem page_result_matches_files (today : string) (st : App.state) :
  App.reachable today st ->
  App.consistent today st
  /\ (forall r, App.result st = Some r ->
        1 <= size (App.zipBlob r) /\ size (App.zipBlob r) <= App.count r).
Proof.
  intros Hreach.
  assert (Hc : App.consistent today st).
  { induction Hreach as [|st st' _ IH Hstep]; [apply consistent_initial|].
    now apply (consistent_step today st). }
  split; [exact Hc|].
  intros r Hr. destruct Hc as (_ & _ & Hres).
  destruct (Hres r Hr) as (Hcount & Hne & c & Hrun & _).
  destruct (processFiles_size _ _ _ Hrun) as [Hle Hge].
  rewrite Hcount. split; [now apply Hge | exact Hle].
Qed.

Lemma page_result_matches_files_witness :
  App.reachable "2026-01-01" pageDone
  /\ App.consistent "2026-01-01" pageDone
  /\ (forall r, App.result pageDone = Some r ->
        1 <= size (App.zipBlob r) /\ size (App.zipBlob r) <= App.count r).
Proof.
  assert (H1 : App.reachable "2026-01-01" (App.handleFilesSelected App.initial [goodFile])).
  { apply (App.reachable_step _ App.initial); [constructor|].
    apply (App.step_add _ _ [goodFile] [goodFile]); reflexivity. }
  assert (H2 : App.reachable "2026-01-01"
                 (App.setCategory (App.handleFilesSelected App.initial [goodFile]) FASHION)).
  { eapply App.reachable_step; [exact H1|]. apply App.step_category. reflexivity. }
  assert (H3 : App.reachable "2026-01-01" pageProcessing).
  { eapply App.reachable_step; [exact H2|]. apply App.step_process; reflexivity. }
  assert (H4 : App.reachable "2026-01-01" pageDone).
  { eapply App.reachable_step; [exact H3|].
    apply App.step_done; [reflexivity | reflexivity | constructor; reflexivity]. }
  split; [exact H4|]. exact (page_result_matches_files _ _ H4).
Defined.
(** *** Normalized sizes *)

Lemma lowerChar_not_upper (c : ascii) : isUpper (lowerChar c) = false.
Proof. destruct c as [[] [] [] [] [] [] [] []]; reflexivity. Qed.

Lemma Forall_dropWhile {A} (P : A -> Prop) (p : A -> bool) (l : list A) :
  Forall P l -> Forall P (dropWhile p l).
Proof.
  induction 1 as [|x l Hx Hl IH]; simpl; [constructor|].
  destruct (p x); [exact IH | now constructor].
Qed.

Lemma Forall_trim (P : ascii -> Prop) (s : string) :
  Forall P (chars s) -> Forall P (chars (trim s)).
Proof.
  intros H. unfold trim, trimEndChars, trimStartChars. rewrite chars_text.
  apply Forall_rev, Forall_dropWhile, Forall_rev, Forall_dropWhile, H.
Qed.

Lemma Forall_tightenChars (P : ascii -> Prop) (dash : list ascii) (fuel : nat)
      (pending l : list ascii) :
  P "-"%char -> Forall P pending -> Forall P l ->
  Forall P (tightenChars dash fuel pending l).
Proof.
  intros Hdash. revert pending l.
  induction fuel as [|fuel IH]; intros pending l Hp Hl; simpl.
  - apply Forall_app. now split.
  - destruct (isPrefixChars dash l && negb (length dash =? 0)).
    + constructor; [exact Hdash|]. apply IH; [constructor|].
      apply Forall_dropWhile. now apply Forall_drop.
    + destruct l as [|c r]; [exact Hp|].
      apply Forall_cons in Hl as [Hc Hr].
      destruct (isSpace c).
      * apply IH; [|exact Hr]. apply Forall_app. split; [exact Hp | now constructor].
      * apply Forall_app. split; [exact Hp|]. constructor; [exact Hc|].
        apply IH; [constructor | exact Hr].
Qed.

Lemma Forall_tighten (P : ascii -> Prop) (dash s : string) :
  P "-"%char -> Forall P (chars s) -> Forall P (chars (tighten dash s)).
Proof.
  intros Hd H. unfold tighten. rewrite chars_text.
  apply Forall_tightenChars; [exact Hd | constructor | exact H].
Qed.

(** X26. Whatever the size text, its normalized form holds no white-space
    character and no capital letter: blanks next to a dash go with the dash,
    the other blanks become spaces, and the spaces are deleted last. *)
Theorem normalized_size_shape (sizeStr : string) :
  Forall (fun c => isSpace c = false /\ isUpper c = false)
         (chars (normalizeSizeForMatching sizeStr))
  /\ normalizeSizeForMatching "" = ""
  /\ normalizeSizeForMatching " 2 - 4 Y " = "2-4y".
Proof.
  split_ands; [|reflexivity | vm_compute; reflexivity].
  unfold normalizeSizeForMatching. destruct (negb (nonEmpty sizeStr)); [constructor|].
  cbv zeta. unfold deleteAll. rewrite chars_text.
  set (Q := fun c : ascii => isUpper c = false /\ (isSpace c = true -> c = " "%char)).
  assert (Hq : forall s, Forall Q (chars s) ->
                 Forall (fun c => isSpace c = false /\ isUpper c = false)
                        (List.filter (fun c => negb (isChar c " ")) (chars s))).
  { intros s Hs. induction Hs as [|c l [Hu Hsp] Hl IH]; simpl; [constructor|].
    destruct (isChar c " ") eqn:E; simpl; [exact IH|]. constructor; [|exact IH].
    split; [|exact Hu]. destruct (isSpace c) eqn:Es; [|reflexivity].
    rewrite (Hsp eq_refl) in E. discriminate E. }
  apply Hq.
  assert (HQdash : Q "-"%char) by (split; [reflexivity | discriminate]).
  do 3 (apply Forall_tighten; [exact HQdash|]).
  unfold squeeze. rewrite chars_text.
  apply squeezeChars_Forall.
  - constructor; [|constructor]. split; [reflexivity | reflexivity].
  - apply (Forall_impl (fun c => isUpper c = false)).
    2:{ intros c Hu Hns. split; [exact Hu | rewrite Hns; discriminate]. }
    apply Forall_trim. unfold toLowerCase. rewrite chars_text.
    apply List.Forall_forall. intros c Hc. apply in_map_iff in Hc as (d & <- & _).
    apply lowerChar_not_upper.
Qed.
(** *** Where tags come from *)

Lemma pushCellTag_inv (row : record) (tags : list string) (col : option string) (t : string) :
  In t (pushCellTag row tags col) -> In t tags \/ cellTag row col t.
Proof.
  unfold pushCellTag, cellTag. destruct (resolved col) as [c|]; [|now left].
  cbv zeta. destruct (usable (trim (cell row c))) eqn:E; [|now left].
  intros H. apply in_app_or in H as [H|[<-|[]]]; [now left|].
  right. exists c. split; [reflexivity|]. split; [reflexivity | exact E].
Qed.

Lemma fold_pushCellTag_inv (row : record) (l : list (option string)) (tags : list string)
      (t : string) :
  In t (fold_left (pushCellTag row) l tags) ->
  In t tags \/ exists col, In col l /\ cellTag row col t.
Proof.
  revert tags. induction l as [|col l IH]; intros tags H; simpl in *; [now left|].
  apply IH in H as [H|(col' & Hin & Hc)].
  - apply pushCellTag_inv in H as [H|H]; [now left|].
    right. exists col. split; [now left | exact H].
  - right. exists col'. split; [now right | exact Hc].
Qed.

Lemma pushNew_inv (x y : string) (l : list string) :
  In y (pushNew x l) -> y = x \/ In y l.
Proof.
  unfold pushNew. destruct (inb x l); [now right|].
  intros H. apply in_app_or in H as [H|[<-|[]]]; [now right | now left].
Qed.

Lemma flagTags_inv (row : record) (tags : list string) (col t : string) :
  In t (flagTags row tags col) ->
  In t tags
  \/ (In t ["Girl"; "Boy"; "Unisex"; "Newborn"] /\ isValueOne (row !! col) = true).
Proof.
  unfold flagTags. cbv zeta. destruct (isValueOne (row !! col)); simpl negb; cbv iota;
    [|now left].
  repeat match goal with
         | |- In _ (if ?c then _ else _) -> _ => destruct c
         end;
    intros H;
    repeat match goal with
           | H : In _ (pushNew _ _) |- _ => apply pushNew_inv in H as [->|H]
           end;
    try (now left); right; (split; [simpl; tauto | reflexivity]).
Qed.

Lemma fold_flagTags_inv (row : record) (cols tags : list string) (t : string) :
  In t (fold_left (flagTags row) cols tags) ->
  In t tags
  \/ (In t ["Girl"; "Boy"; "Unisex"; "Newborn"]
      /\ exists col, In col cols /\ isValueOne (row !! col) = true).
Proof.
  revert tags. induction cols as [|col cols IH]; intros tags H; simpl in H; [now left|].
  apply IH in H as [H|(Ht & col' & Hin & Hone)].
  - apply flagTags_inv in H as [H|[Ht Hone]]; [now left|].
    right. split; [exact Ht|]. exists col. split; [now left | exact Hone].
  - right. split; [exact Ht|]. exists col'. split; [now right | exact Hone].
Qed.

(** X27. Every tag of a row has one of four origins: it is the trimmed
    cell, neither empty nor "nan", of the brand, category, subcategory,
    sub-subcategory, season, campaign or sizes column; or it is "Girl",
    "Boy", "Unisex" or "Newborn" and some column of the sheet holds the
    value one on the row; or it is an age-group tag of the boys' table and
    "Boy" is a tag of the row; or one of the girls' table and "Girl" is. *)
Theorem tags_origin (cols : list string) (r : roles) (row : record)
        (variants : list string) (t : string) :
  In t (tagsOf cols r row variants) ->
  (exists col, In col (tagSourceCols r) /\ cellTag row col t)
  \/ (In t ["Girl"; "Boy"; "Unisex"; "Newborn"]
      /\ exists col, In col cols /\ isValueOne (row !! col) = true)
  \/ (In t (getBoyAgeGroupTags variants) /\ In "Boy" (tagsOf cols r row variants))
  \/ (In t (getGirlAgeGroupTags variants) /\ In "Girl" (tagsOf cols r row variants)).
Proof.
  intros H. unfold tagsOf in H. apply (proj1 (dedupe_In _ _)) in H.
  assert (Hback : forall y, In y (rawTagsOf cols r row variants) ->
                            In y (tagsOf cols r row variants))
    by (intros y Hy; now apply dedupe_In).
  revert H Hback. unfold rawTagsOf. cbv zeta.
  set (t1 := fold_left (pushCellTag row) _ _).
  set (t2 := fold_left (flagTags row) cols t1).
  set (t3 := if inb "Boy" t2 then _ else t2).
  intros H Hback.
  assert (H3 : In t t3 \/ (In t (getGirlAgeGroupTags variants)
                           /\ In "Girl" (tagsOf cols r row variants))).
  { revert H. destruct (inb "Girl" t3) eqn:Eg; intros H; [|now left].
    apply fold_pushNew_inv in H as [H|H]; [|now left].
    right. split; [exact H|]. apply Hback. apply fold_pushNew_incl. now apply inb_In. }
  destruct H3 as [H3|H3]; [|now right; right; right].
  assert (H23 : forall y, In y t2 -> In y t3).
  { intros y Hy. unfold t3. destruct (inb "Boy" t2); [now apply fold_pushNew_incl | exact Hy]. }
  assert (H3back : forall y, In y t3 -> In y (tagsOf cols r row variants)).
  { intros y Hy. apply Hback. destruct (inb "Girl" t3); [now apply fold_pushNew_incl | exact Hy]. }
  assert (H2 : In t t2 \/ (In t (getBoyAgeGroupTags variants)
                           /\ In "Boy" (tagsOf cols r row variants))).
  { unfold t3 in H3. revert H3. destruct (inb "Boy" t2) eqn:Eb; intros H3; [|now left].
    apply fold_pushNew_inv in H3 as [H3|H3]; [|now left].
    right. split; [exact H3|]. apply H3back, H23. now apply inb_In. }
  destruct H2 as [H2|H2]; [|now right; right; left].
  apply fold_flagTags_inv in H2 as [H1|H1]; [|now right; left].
  left. unfold t1 in H1.
  apply fold_pushCellTag_inv in H1 as [H1|(col & Hin & Hc)].
  - apply pushCellTag_inv in H1 as [H1|Hc].
    + apply pushCellTag_inv in H1 as [H1|Hc].
      * apply pushCellTag_inv in H1 as [[]|Hc].
        exists (brandCol r). split; [simpl; tauto | exact Hc].
      * exists (prodcatCol r). split; [simpl; tauto | exact Hc].
    + exists (subcatCol r). split; [simpl; tauto | exact Hc].
  - exists col. split; [|exact Hc]. simpl in Hin. simpl. tauto.
Qed.

Lemma tags_origin_witness :
  In "Boy 0-3m" (tagsOf sampleCols sampleRoles sampleRow ["2-4M"])
  /\ ((exists col, In col (tagSourceCols sampleRoles) /\ cellTag sampleRow col "Boy 0-3m")
      \/ (In "Boy 0-3m" ["Girl"; "Boy"; "Unisex"; "Newborn"]
          /\ exists col, In col sampleCols /\ isValueOne (sampleRow !! col) = true)
      \/ (In "Boy 0-3m" (getBoyAgeGroupTags ["2-4M"])
          /\ In "Boy" (tagsOf sampleCols sampleRoles sampleRow ["2-4M"]))
      \/ (In "Boy 0-3m" (getGirlAgeGroupTags ["2-4M"])
          /\ In "Girl" (tagsOf sampleCols sampleRoles sampleRow ["2-4M"]))).
Proof.
  assert (H : In "Boy 0-3m" (tagsOf sampleCols sampleRoles sampleRow ["2-4M"]))
    by (vm_compute; tauto).
  split; [exact H|]. exact (tags_origin _ _ _ _ _ H).
Defined.
